(** * RE/flex pattern, FSM generator and lexer: a shallow embedding

    The development follows the C++ sources: [pattern.hpp] (predictor blob,
    predict-match filters, rolling hash, opcode classification), [fsm_gen.h]
    (character sets, opcode constructors, modifier maps, error reporting),
    [pattern.h] (sub-pattern reachability) and [lexer.h] (the scan loop).

    Machine integers are modelled as [Z] with the wrap-around written out,
    C arrays as lists read with stdpp's lookup (a read past the end is
    [None]), [std::map] as [gmap]. *)

From Stdlib Require Import ZArith Lia Bool List String.
From stdpp Require Import base option list gmap.
Import ListNotations.
Local Open Scope Z_scope.

(** ** Fixed-width integers *)

Definition u8 (x : Z) : Z := x mod 2 ^ 8.
Definition u16 (x : Z) : Z := x mod 2 ^ 16.
Definition u32 (x : Z) : Z := x mod 2 ^ 32.
Definition u64 (x : Z) : Z := x mod 2 ^ 64.

(** [x & (1 << k)] converted to [bool]. *)
Definition bit_set (x k : Z) : bool := negb (Z.land x (Z.shiftl 1 k) =? 0).

(** ** Opcode words ([pattern.hpp], [fsm_gen.h]) *)

Module Opcode.

Definition META_MIN : Z := 0x100.
Definition AMAX : Z := 0xFDFFFF.
Definition GMAX : Z := 0xFEFFFF.
Definition LMAX : Z := 0xFAFFFF.
Definition LONG : Z := 0xFFFE.
Definition HALT : Z := 0xFFFF.

Definition is_meta (c : Z) : bool := c >? META_MIN.

Definition opcode_head (index : Z) : Z := Z.lor 0xFB000000 (Z.land index 0xFFFFFF).

Definition opcode_goto (lo hi index : Z) : Z :=
  if is_meta lo
  then Z.lor (u32 (Z.shiftl lo 24)) index
  else Z.lor (Z.lor (u32 (Z.shiftl lo 24)) (u32 (Z.shiftl hi 16))) index.

Definition opcode_long (index : Z) : Z := Z.lor 0xFF000000 (Z.land index 0xFFFFFF).
Definition opcode_redo : Z := 0xFD000000.
Definition opcode_take (index : Z) : Z := Z.lor 0xFE000000 (Z.land index 0xFFFFFF).
Definition opcode_tail (index : Z) : Z := Z.lor 0xFC000000 (Z.land index 0xFFFFFF).
Definition opcode_halt : Z := 0x00FFFFFF.

Definition is_opcode_goto (opcode : Z) : bool :=
  u32 (Z.shiftl opcode 8) >=? Z.land opcode 0xFF000000.

Definition is_opcode_halt (opcode : Z) : bool := opcode =? 0x00FFFFFF.

Definition is_opcode_meta (opcode : Z) : bool :=
  (Z.land opcode 0x00FF0000 =? 0) && (Z.shiftr opcode 24 >? 0).

Definition index_of (opcode : Z) : Z := Z.land opcode 0xFFFF.
Definition long_index_of (opcode : Z) : Z := Z.land opcode 0xFFFFFF.

(** The two top bytes of a 32-bit word. *)
Definition byte3 (w : Z) : Z := w / 2 ^ 24.
Definition byte2 (w : Z) : Z := (w / 2 ^ 16) mod 2 ^ 8.

Definition valid_goto_index (index : Z) : bool := index <=? GMAX.
Definition valid_lookahead_index (index : Z) : bool := index <=? LMAX.

Definition is_opcode_long (opcode : Z) : bool :=
  Z.land opcode 0xFF000000 =? 0xFF000000.
Definition is_opcode_take (opcode : Z) : bool :=
  Z.land opcode 0xFE000000 =? 0xFE000000.
Definition is_opcode_redo (opcode : Z) : bool := opcode =? 0xFD000000.
Definition is_opcode_tail (opcode : Z) : bool :=
  Z.land opcode 0xFF000000 =? 0xFC000000.
Definition is_opcode_head (opcode : Z) : bool :=
  Z.land opcode 0xFF000000 =? 0xFB000000.

(** [is_opcode_goto(Opcode opcode, unsigned char c)]. *)
Definition is_opcode_goto_char (opcode c : Z) : bool :=
  (c >=? Z.shiftr opcode 24) && (c <=? Z.land (Z.shiftr opcode 16) 0xFF).

(** [Char] is a 16-bit unsigned type. *)
Definition meta_of (opcode : Z) : Z := u16 (META_MIN + Z.shiftr opcode 24).

Definition lo_of (opcode : Z) : Z :=
  if is_opcode_meta opcode then meta_of opcode else u16 (Z.shiftr opcode 24).

Definition hi_of (opcode : Z) : Z :=
  if is_opcode_meta opcode then meta_of opcode
  else u16 (Z.land (Z.shiftr opcode 16) 0xFF).

Definition lookahead_of (opcode : Z) : Z := Z.land opcode 0xFFFF.

End Opcode.

(** ** Character sets ([fsm_gen.h], [pattern.h]): 5 words of 64 bits *)

Module Chars.

Record Chars : Type := mk { b0 : Z; b1 : Z; b2 : Z; b3 : Z; b4 : Z }.

(** [b[i]]; an index outside [0..4] is outside the array. *)
Definition word (s : Chars) (i : Z) : option Z :=
  if i =? 0 then Some (b0 s)
  else if i =? 1 then Some (b1 s)
  else if i =? 2 then Some (b2 s)
  else if i =? 3 then Some (b3 s)
  else if i =? 4 then Some (b4 s)
  else None.

Definition clear : Chars := mk 0 0 0 0 0.

Definition any (s : Chars) : bool :=
  negb (b0 s =? 0) || negb (b1 s =? 0) || negb (b2 s =? 0)
  || negb (b3 s =? 0) || negb (b4 s =? 0).

Definition contains (s : Chars) (c : Z) : option bool :=
  w ← word s (Z.shiftr c 6); Some (bit_set w (Z.land c 0x3F)).

Definition flip (s : Chars) : Chars :=
  mk (u64 (Z.lnot (b0 s))) (u64 (Z.lnot (b1 s))) (u64 (Z.lnot (b2 s)))
     (u64 (Z.lnot (b3 s))) (u64 (Z.lnot (b4 s))).

Definition flip256 (s : Chars) : Chars :=
  mk (u64 (Z.lnot (b0 s))) (u64 (Z.lnot (b1 s))) (u64 (Z.lnot (b2 s)))
     (u64 (Z.lnot (b3 s))) (b4 s).

Definition or (s c : Chars) : Chars :=
  mk (Z.lor (b0 s) (b0 c)) (Z.lor (b1 s) (b1 c)) (Z.lor (b2 s) (b2 c))
     (Z.lor (b3 s) (b3 c)) (Z.lor (b4 s) (b4 c)).

Definition and (s c : Chars) : Chars :=
  mk (Z.land (b0 s) (b0 c)) (Z.land (b1 s) (b1 c)) (Z.land (b2 s) (b2 c))
     (Z.land (b3 s) (b3 c)) (Z.land (b4 s) (b4 c)).

Definition xor (s c : Chars) : Chars :=
  mk (Z.lxor (b0 s) (b0 c)) (Z.lxor (b1 s) (b1 c)) (Z.lxor (b2 s) (b2 c))
     (Z.lxor (b3 s) (b3 c)) (Z.lxor (b4 s) (b4 c)).

(** [operator-=]: [b[i] &= ~c.b[i]]. *)
Definition diff (s c : Chars) : Chars :=
  mk (Z.land (b0 s) (u64 (Z.lnot (b0 c)))) (Z.land (b1 s) (u64 (Z.lnot (b1 c))))
     (Z.land (b2 s) (u64 (Z.lnot (b2 c)))) (Z.land (b3 s) (u64 (Z.lnot (b3 c))))
     (Z.land (b4 s) (u64 (Z.lnot (b4 c)))).

(** [operator==]. *)
Definition eqb (s c : Chars) : bool :=
  (b0 s =? b0 c) && (b1 s =? b1 c) && (b2 s =? b2 c)
  && (b3 s =? b3 c) && (b4 s =? b4 c).

(** Every word is a 64-bit unsigned value. *)
Definition wf (s : Chars) : Prop :=
  0 <= b0 s < 2 ^ 64 /\ 0 <= b1 s < 2 ^ 64 /\ 0 <= b2 s < 2 ^ 64
  /\ 0 <= b3 s < 2 ^ 64 /\ 0 <= b4 s < 2 ^ 64.

(** Bit [i] of the 320-bit set, for [0 <= i < 320]. *)
Definition bit (s : Chars) (i : Z) : bool :=
  match word s (i / 64) with
  | Some w => Z.testbit w (i mod 64)
  | None => false
  end.

(** [insert(Char c)]: [b[c >> 6] |= 1ULL << (c & 0x3F)]; a word index
    outside [0..4] is outside the array. *)
Definition insert (s : Chars) (c : Z) : option Chars :=
  let m := Z.shiftl 1 (Z.land c 0x3F) in
  let i := Z.shiftr c 6 in
  if i =? 0 then Some (mk (Z.lor (b0 s) m) (b1 s) (b2 s) (b3 s) (b4 s))
  else if i =? 1 then Some (mk (b0 s) (Z.lor (b1 s) m) (b2 s) (b3 s) (b4 s))
  else if i =? 2 then Some (mk (b0 s) (b1 s) (Z.lor (b2 s) m) (b3 s) (b4 s))
  else if i =? 3 then Some (mk (b0 s) (b1 s) (b2 s) (Z.lor (b3 s) m) (b4 s))
  else if i =? 4 then Some (mk (b0 s) (b1 s) (b2 s) (b3 s) (Z.lor (b4 s) m))
  else None.

(** The body of [while (lo <= hi) insert(lo++)], run [cnt] times. *)
Fixpoint insert_loop (cnt : nat) (s : Chars) (lo : Z) : option Chars :=
  match cnt with
  | O => Some s
  | S cnt' => s' ← insert s lo; insert_loop cnt' s' (u16 (lo + 1))
  end.

(** [insert(Char lo, Char hi)]: the loop runs for [lo], [lo + 1], ..., [hi];
    it cannot wrap around before it has left the array. *)
Definition insert_range (s : Chars) (lo hi : Z) : option Chars :=
  insert_loop (Z.to_nat (hi + 1 - lo)) s lo.

(** [intersects(const Chars&)]. *)
Definition intersects (s c : Chars) : bool :=
  negb (Z.land (b0 s) (b0 c) =? 0) || negb (Z.land (b1 s) (b1 c) =? 0)
  || negb (Z.land (b2 s) (b2 c) =? 0) || negb (Z.land (b3 s) (b3 c) =? 0)
  || negb (Z.land (b4 s) (b4 c) =? 0).

(** [contains(const Chars& c)]: [!(c - *this).any()]. *)
Definition contains_set (s c : Chars) : bool := negb (any (diff c s)).

(** [operator<]. *)
Definition lt (s c : Chars) : bool :=
  (b0 s <? b0 c)
  || ((b0 s =? b0 c)
      && ((b1 s <? b1 c)
          || ((b1 s =? b1 c)
              && ((b2 s <? b2 c)
                  || ((b2 s =? b2 c)
                      && ((b3 s <? b3 c)
                          || ((b3 s =? b3 c) && (b4 s <? b4 c)))))))).

(** The inner loop of [lo()]: the first [j] at or after the given one, among
    [cnt] candidates, with [w & (1ULL << j)]. *)
Fixpoint first_bit (w j : Z) (cnt : nat) : option Z :=
  match cnt with
  | O => None
  | S cnt' => if bit_set w j then Some j else first_bit w (j + 1) cnt'
  end.

(** The inner loop of [hi()]: [j] counts up while bit [63 - j] is tested. *)
Fixpoint last_bit (w j : Z) (cnt : nat) : option Z :=
  match cnt with
  | O => None
  | S cnt' => if bit_set w (63 - j) then Some (63 - j) else last_bit w (j + 1) cnt'
  end.

(** One round of the outer loop of [lo()] and of [hi()], on word [i]. *)
Definition lo_word (i w : Z) : option Z :=
  if negb (w =? 0) then j ← first_bit w 0 64; Some (u16 (Z.shiftl i 6 + j))
  else None.

Definition hi_word (i w : Z) : option Z :=
  if negb (w =? 0) then j ← last_bit w 0 64; Some (u16 (Z.shiftl i 6 + j))
  else None.

(** [lo()] and [hi()]. *)
Definition lo (s : Chars) : Z :=
  match lo_word 0 (b0 s) with Some r => r | None =>
  match lo_word 1 (b1 s) with Some r => r | None =>
  match lo_word 2 (b2 s) with Some r => r | None =>
  match lo_word 3 (b3 s) with Some r => r | None =>
  match lo_word 4 (b4 s) with Some r => r | None => 0
  end end end end end.

Definition hi (s : Chars) : Z :=
  match hi_word 4 (b4 s) with Some r => r | None =>
  match hi_word 3 (b3 s) with Some r => r | None =>
  match hi_word 2 (b2 s) with Some r => r | None =>
  match hi_word 1 (b1 s) with Some r => r | None =>
  match hi_word 0 (b0 s) with Some r => r | None => 0
  end end end end end.

End Chars.

(** ** Predictor and predict-match filters ([pattern.hpp]) *)

Module Pattern.

Definition HASH : Z := 0x1000.

(** [Pattern::hash]: [Hash] is an unsigned short. *)
Definition hash (h b : Z) : Z :=
  u16 (Z.land (Z.lxor (Z.shiftl h 3) b) (HASH - 1)).

(** [~x] stored into a [Pred] (unsigned char). *)
Definition compl (x : Z) : Z := u8 (Z.lnot x).

Record Predictor : Type := mkPredictor {
  pref_ : list Z;   (* char pref_[256] *)
  len_ : Z;
  min_ : Z;
  one_ : bool;
  bit_ : list Z;    (* Pred bit_[256] *)
  pmh_ : list Z;    (* Pred pmh_[HASH] *)
  pma_ : list Z     (* Pred pma_[HASH] *)
}.

(** The arrays of a predictor have their declared sizes. *)
Definition sized (p : Predictor) : Prop :=
  length (pref_ p) = 256%nat /\ length (bit_ p) = 256%nat
  /\ length (pmh_ p) = 4096%nat /\ length (pma_ p) = 4096%nat.

(** [for (i = ...; cnt more times; ++i) dst[i] = f(src[i + off])]:
    the loops of [Predictor::set] and its [memcpy].  A read past the end
    of [src] has no defined result. *)
Fixpoint copy_loop (f : Z -> Z) (cnt i : nat) (src : list Z) (off : nat)
    (dst : list Z) : option (list Z) :=
  match cnt with
  | O => Some dst
  | S cnt' =>
      x ← src !! (i + off)%nat;
      copy_loop f cnt' (S i) src off (<[i := f x]> dst)
  end.

(** [Predictor::set]; [pred = None] is the null pointer. *)
Definition set (p : Predictor) (pred : option (list Z)) : option Predictor :=
  match pred with
  | None => Some p
  | Some blob =>
      x0 ← blob !! 0%nat;
      x1 ← blob !! 1%nat;
      let len := x0 in
      let min := Z.land x1 0x0f in
      let one := negb (Z.land x1 0x10 =? 0) in
      pref' ← copy_loop id (Z.to_nat len) 0 blob 2 (pref_ p);
      if min >? 0 then
        let n := len + 2 in
        '(bit', n) ←
          (if (min >? 1) && (len =? 0)
           then t ← copy_loop compl 256 0 blob (Z.to_nat n) (bit_ p);
                Some (t, n + 256)
           else Some (bit_ p, n));
        if min >=? 4
        then t ← copy_loop compl (Z.to_nat HASH) 0 blob (Z.to_nat n) (pmh_ p);
             Some (mkPredictor pref' len min one bit' t (pma_ p))
        else t ← copy_loop compl (Z.to_nat HASH) 0 blob (Z.to_nat n) (pma_ p);
             Some (mkPredictor pref' len min one bit' (pmh_ p) t)
      else Some (mkPredictor pref' len min one (bit_ p) (pmh_ p) (pma_ p))
  end.

(** The [while (++s < e)] loop of [predict_match(pmh, s, n)]: [cnt]
    iterations remain, [k] is the index of the byte read next. *)
Fixpoint pmh_loop (pmh s : list Z) (cnt k : nat) (h m : Z) : option bool :=
  match cnt with
  | O => Some true
  | S cnt' =>
      c ← s !! k;
      let h' := hash h (u8 c) in
      p ← pmh !! Z.to_nat h';
      if negb (Z.land p m =? 0) then Some false
      else pmh_loop pmh s cnt' (S k) h' (u8 (Z.shiftl m 1))
  end.

(** [predict_match(const Pred pmh[], const char *s, size_t n)]. *)
Definition predict_match_pmh (pmh s : list Z) (n : Z) : option bool :=
  c0 ← s !! 0%nat;
  let h := u8 c0 in
  p0 ← pmh !! Z.to_nat h;
  if negb (Z.land p0 1 =? 0) then Some false else
  c1 ← s !! 1%nat;
  let h := hash h (u8 c1) in
  p1 ← pmh !! Z.to_nat h;
  if negb (Z.land p1 2 =? 0) then Some false else
  c2 ← s !! 2%nat;
  let h := hash h (u8 c2) in
  p2 ← pmh !! Z.to_nat h;
  if negb (Z.land p2 4 =? 0) then Some false else
  c3 ← s !! 3%nat;
  let h := hash h (u8 c3) in
  p3 ← pmh !! Z.to_nat h;
  if negb (Z.land p3 8 =? 0) then Some false else
  pmh_loop pmh s (Z.to_nat (n - 4)) 4 h 16.

(** The two filter bits of each of the four offsets, packed in a byte. *)
Definition pack (a0 a1 a2 a3 : Z) : Z :=
  u8 (Z.lor (Z.lor (Z.lor (Z.land a0 0xc0) (Z.land a1 0x30)) (Z.land a2 0x0c))
            (Z.land a3 0x03)).

Definition spread (p : Z) : Z :=
  u8 (Z.lor (Z.shiftr (Z.lor (Z.shiftr (Z.lor (Z.shiftr p 2) p) 2) p) 1) p).

(** [predict_match(const Pred pma[], const char *s)]. *)
Definition predict_match_pma (pma s : list Z) : option Z :=
  c0 ← s !! 0%nat; c1 ← s !! 1%nat; c2 ← s !! 2%nat; c3 ← s !! 3%nat;
  let b0 := u8 c0 in let b1 := u8 c1 in let b2 := u8 c2 in let b3 := u8 c3 in
  let h0 := hash b0 b1 in
  let h1 := hash h0 b2 in
  let h2 := hash h1 b3 in
  a0 ← pma !! Z.to_nat b0; a1 ← pma !! Z.to_nat h0;
  a2 ← pma !! Z.to_nat h1; a3 ← pma !! Z.to_nat h2;
  let p := pack a0 a1 a2 a3 in
  let m := spread p in
  if negb (m =? 0xff) then Some 0 else
  x1 ← pma !! Z.to_nat b1;
  if negb (Z.land x1 0xc0 =? 0xc0) then Some 1 else
  x2 ← pma !! Z.to_nat b2;
  if negb (Z.land x2 0xc0 =? 0xc0) then Some 2 else
  x3 ← pma !! Z.to_nat b3;
  if negb (Z.land x3 0xc0 =? 0xc0) then Some 3 else
  Some 4.

(** *** Sub-pattern bookkeeping of a compiled pattern ([pattern.h]) *)

Record Pattern : Type := mkPattern {
  end_ : list Z;     (* std::vector<Location> *)
  acc_ : list bool   (* std::vector<bool> *)
}.

(** Outcome of a call that may throw. *)
Inductive result (A : Type) : Type :=
| Ok (a : A)
| Throw_out_of_range.
Arguments Ok {A} a.
Arguments Throw_out_of_range {A}.

(** [std::vector::at]: bounds-checked access. *)
Definition at_ {A : Type} (v : list A) (i : Z) : result A :=
  if i <? Z.of_nat (length v)
  then match v !! Z.to_nat i with
       | Some a => Ok a
       | None => Throw_out_of_range
       end
  else Throw_out_of_range.

(** [Pattern::size]: [static_cast<Accept>(end_.size())]. *)
Definition size (p : Pattern) : Z := u32 (Z.of_nat (length (end_ p))).

(** [Pattern::reachable]; [&&] evaluates its right operand only when the
    left one is true. *)
Definition reachable (p : Pattern) (choice : Z) : result bool :=
  if (choice >=? 1) && (choice <=? size p)
  then at_ (acc_ p) (u32 (choice - 1))
  else Ok false.

(** Every sub-pattern has its reachability flag. *)
Definition consistent (p : Pattern) : Prop :=
  (length (end_ p) <= length (acc_ p))%nat.

End Pattern.

(** ** Regex errors ([error.hpp]) *)

Module Error.

Inductive error_code : Type :=
| mismatched_parens
| mismatched_braces
| mismatched_brackets
| mismatched_quotation
| empty_expression
| empty_class
| invalid_class
| invalid_class_range
| invalid_escape
| invalid_anchor
| invalid_repeat
| invalid_quantifier
| invalid_modifier
| invalid_collating
| invalid_backreference
| invalid_syntax
| exceeds_length
| exceeds_limits
| undefined_name.

Definition error_code_eqb (a b : error_code) : bool :=
  match a, b with
  | mismatched_parens, mismatched_parens
  | mismatched_braces, mismatched_braces
  | mismatched_brackets, mismatched_brackets
  | mismatched_quotation, mismatched_quotation
  | empty_expression, empty_expression
  | empty_class, empty_class
  | invalid_class, invalid_class
  | invalid_class_range, invalid_class_range
  | invalid_escape, invalid_escape
  | invalid_anchor, invalid_anchor
  | invalid_repeat, invalid_repeat
  | invalid_quantifier, invalid_quantifier
  | invalid_modifier, invalid_modifier
  | invalid_collating, invalid_collating
  | invalid_backreference, invalid_backreference
  | invalid_syntax, invalid_syntax
  | exceeds_length, exceeds_length
  | exceeds_limits, exceeds_limits
  | undefined_name, undefined_name => true
  | _, _ => false
  end.

(** The table [messages] of [regex_error_message_code]. *)
Definition messages (code : error_code) : string :=
  match code with
  | mismatched_parens => "mismatched ( )"
  | mismatched_braces => "mismatched { }"
  | mismatched_brackets => "mismatched [ ]"
  | mismatched_quotation => "mismatched quotation"
  | empty_expression => "empty expression"
  | empty_class => "empty character class"
  | invalid_class => "invalid character class"
  | invalid_class_range => "invalid character class range"
  | invalid_escape => "invalid escape"
  | invalid_anchor => "invalid anchor or boundary"
  | invalid_repeat => "invalid repeat"
  | invalid_quantifier => "invalid quantifier"
  | invalid_modifier => "invalid modifier"
  | invalid_collating => "invalid collating element"
  | invalid_backreference => "invalid backreference"
  | invalid_syntax => "invalid syntax"
  | exceeds_length => "exceeds length limit"
  | exceeds_limits => "exceeds complexity limits"
  | undefined_name => "undefined name"
  end.

(** A [regex_error] object: the [what()] text of its [runtime_error]
    base, the error code and the position. *)
Record regex_error : Type := mk_regex_error {
  what : string;
  code_ : error_code;
  pos_ : Z
}.

End Error.

(** ** The FSM generator ([fsm_gen.h]): options, errors, modifier maps *)

Module FSM_Generator.
Import Error.

Record Option : Type := mkOption {
  disable_escapes_in_bra : bool;
  escape_char : Z;
  case_insensitive : bool;
  multi_line : bool;
  optimize : bool;
  predict_match : bool;
  verbatim_content : bool;
  throw_error : bool;
  single_line : bool;
  print_error : bool;
  free_space : bool;
  files : list string;
  pattern_name : string;
  namespace_name : string
}.

(** How a call of [error] ends. *)
Inductive outcome : Type :=
| Returns
| Throws (err : regex_error).

Section WithMessage.

(** [regex_error::regex_error_message]: the layout of the displayed text
    (regex excerpt and a pointer under the error position). *)
Variable regex_error_message : string -> string -> Z -> string.

(** The constructor [regex_error(code, pattern, pos)]. *)
Definition new_regex_error (code : error_code) (pattern : string) (pos : Z)
    : regex_error :=
  mk_regex_error (regex_error_message (messages code) pattern pos) code pos.

(** [FSM_Generator::error]; the standard error stream is the list of
    texts written to it so far. *)
Definition error (opt_ : Option) (rex_ : string) (code : error_code)
    (pos : Z) (stderr : list string) : list string * outcome :=
  let err := new_regex_error code rex_ pos in
  let stderr' := if print_error opt_ then stderr ++ [what err] else stderr in
  if error_code_eqb code exceeds_limits || throw_error opt_
  then (stderr', Throws err)
  else (stderr', Returns).

End WithMessage.

(** Modelled from the spec: the [ORanges] template of [reflex/ranges.h],
    whose source is absent: a set of disjoint half-open ranges of locations
    that supports insertion of a range, union, difference and a membership
    query.  Only what membership says about each operation is fixed. *)
Class ORanges (L : Type) : Type := {
  oranges_empty : L;                     (* ORanges() *)
  oranges_range : Z -> Z -> L;           (* ORanges(lo, hi) *)
  oranges_insert : L -> Z -> Z -> L;     (* insert(lo, hi) *)
  oranges_union : L -> L -> L;           (* operator+= *)
  oranges_diff : L -> L -> L;            (* operator-= *)
  oranges_find : L -> Z -> bool;         (* find(v) != end() *)
  find_empty : forall v, oranges_find oranges_empty v = false;
  find_insert : forall s lo hi v,
    oranges_find (oranges_insert s lo hi) v
    = oranges_find s v || oranges_find (oranges_range lo hi) v;
  find_union : forall s t v,
    oranges_find (oranges_union s t) v = oranges_find s v || oranges_find t v;
  find_diff : forall s t v,
    oranges_find (oranges_diff s t) v
    = oranges_find s v && negb (oranges_find t v)
}.

(** Range sets as characteristic functions, with [ORanges(lo, hi)] holding
    the locations [lo..hi]. *)
Definition oranges_fun : ORanges (Z -> bool) := {|
  oranges_empty := fun _ => false;
  oranges_range := fun lo hi v => (lo <=? v) && (v <=? hi);
  oranges_insert := fun s lo hi v => s v || ((lo <=? v) && (v <=? hi));
  oranges_union := fun s t v => s v || t v;
  oranges_diff := fun s t v => s v && negb (t v);
  oranges_find := fun s v => s v;
  find_empty := fun _ => eq_refl;
  find_insert := fun _ _ _ _ => eq_refl;
  find_union := fun _ _ _ => eq_refl;
  find_diff := fun _ _ _ => eq_refl
|}.

Definition lowercase (c : Z) : Z := u8 (Z.lor c 0x20).
Definition uppercase (c : Z) : Z := u8 (Z.land c (Z.lnot 0x20)).
Definition reversecase (c : Z) : Z := u8 (Z.lxor c 0x20).

(** [FSM_Generator::hash(Pattern::Hash h)]. *)
Definition hash (h : Z) : Z := Z.land h (Z.shiftr (Pattern.HASH - 1) 3).

Section Modifiers.
Context {L : Type} `{ORanges L}.

(** [operator[]] of [std::map]: a missing key reads as a fresh value. *)
Definition entry (modifiers : gmap Z L) (mode : Z) : L :=
  default oranges_empty (modifiers !! mode).

Definition is_modified (mode : Z) (modifiers : gmap Z L) (loc : Z) : bool :=
  match modifiers !! mode with
  | Some locs => oranges_find locs loc
  | None => false
  end.

Definition update_modified (mode : Z) (modifiers : gmap Z L) (from to : Z)
    : gmap Z L :=
  match modifiers !! reversecase mode with
  | Some rev =>
      let modified := oranges_diff (oranges_range from to) rev in
      <[mode := oranges_union (entry modifiers mode) modified]> modifiers
  | None =>
      <[mode := oranges_insert (entry modifiers mode) from to]> modifiers
  end.

End Modifiers.

End FSM_Generator.

(** ** Notions used to state the predictor properties *)

Module Predict.

(** The rolling hash of the spec: [h_0 = s[0]] and
    [h_k = hash(h_(k-1), s[k])], on unsigned bytes. *)
Fixpoint hash_chain (s : list Z) (k : nat) : option Z :=
  match k with
  | O => u8 <$> s !! 0%nat
  | S k' =>
      h ← hash_chain s k';
      c ← s !! k;
      Some (Pattern.hash h (u8 c))
  end.

(** Offset [k] of the window is rejected by the hash table [pmh]: bit [k]
    (as far as it fits a byte) of the entry at [h_k] is set. *)
Definition rejects (pmh s : list Z) (k : nat) : option bool :=
  h ← hash_chain s k;
  p ← pmh !! Z.to_nat h;
  Some (negb (Z.land p (u8 (2 ^ Z.of_nat k)) =? 0)).

(** The two filter bits of offset [k] of a window, for [k] in [0..3]: bits
    [7 - 2k] and [6 - 2k] of the [pma] entry at the rolling hash [h_k]. *)
Definition offset_bits (pma s : list Z) (k : nat) : option (bool * bool) :=
  h ← hash_chain s k;
  a ← pma !! Z.to_nat h;
  Some (Z.testbit a (7 - 2 * Z.of_nat k), Z.testbit a (6 - 2 * Z.of_nat k)).

(** The combined filter over the four offsets of a window rules a match
    out: the first bit of offset 0 is set, and each later offset has its first
    bit set or an earlier offset has its second bit set, and the second bit
    of offset 3 or the first bit of one of the offsets 1 to 3 is set. *)
Definition ruled_out (pma s : list Z) : option bool :=
  '(m0, f0) ← offset_bits pma s 0;
  '(m1, f1) ← offset_bits pma s 1;
  '(m2, f2) ← offset_bits pma s 2;
  '(m3, f3) ← offset_bits pma s 3;
  Some (m0 && (m1 || f0) && (m2 || f1 || f0) && (m3 || f2 || f1 || f0)
        && (f3 || m3 || m2 || m1)).




(** [cnt] bytes of [blob] from offset [off], each through [f]. *)
Definition slice (f : Z -> Z) (blob : list Z) (off cnt : nat) : list Z :=
  f <$> take cnt (drop off blob).

(** The bytes a blob with the given two header bytes must have. *)
Definition blob_size (x0 x1 : Z) : nat :=
  let min := Z.land x1 0x0f in
  let bitap : nat := if (min >? 1) && (x0 =? 0) then 256%nat else 0%nat in
  let table : nat := if min >? 0 then 4096%nat else 0%nat in
  (2 + Z.to_nat x0 + bitap + table)%nat.

End Predict.

(** ** UTF-8 conversion ([utf8.h]) and its users *)

Module Utf8.

Definition UNICODE_MAX : Z := 0x10FFFF.
Definition ERR_CHAR : Z := 0x1FFFFF.
Definition ERR_CHAR_UTF8 : list Z := [0xF7; 0xBF; 0xBF; 0xBF].

(** The bytes [to_utf8] stores for [c], in order, once its assertion has
    passed; the value returned is their number. *)
Definition to_utf8_bytes (c : Z) : list Z :=
  if c <? 0x80 then [u8 c]
  else
    ((if c <? 0x0800
      then [u8 (Z.lor 0xC0 (Z.land (Z.shiftr c 6) 0x1F))]
      else
        (if c <? 0x010000
         then [u8 (Z.lor 0xE0 (Z.land (Z.shiftr c 12) 0x0F))]
         else [u8 (Z.lor 0xF0 (Z.land (Z.shiftr c 18) 0x07));
               u8 (Z.lor 0x80 (Z.land (Z.shiftr c 12) 0x3F))])
        ++ [u8 (Z.lor 0x80 (Z.land (Z.shiftr c 6) 0x3F))])
     ++ [u8 (Z.lor 0x80 (Z.land c 0x3F))]).

(** [to_utf8]; [None] is a failed [assert(c <= UNICODE_MAX)]. *)
Definition to_utf8 (c : Z) : option (list Z) :=
  if c <=? UNICODE_MAX then Some (to_utf8_bytes c) else None.

(** [from_utf8] on the bytes at [s]: the character and by how many bytes [*r]
    lies past [s]; a read past the end of [s] has no defined result. *)
Definition from_utf8 (s : list Z) : option (Z * nat) :=
  b0 ← s !! 0%nat;
  let c0 := u8 b0 in
  if c0 <? 0x80 then Some (c0, 1%nat)
  else if c0 >=? 0xF0 then
    b1 ← s !! 1%nat; b2 ← s !! 2%nat; b3 ← s !! 3%nat;
    let c0 := Z.shiftl (Z.land c0 7) 18 in
    let c1 := Z.shiftl (Z.land (u8 b1) 63) 12 in
    let c2 := Z.shiftl (Z.land (u8 b2) 63) 6 in
    let c3 := Z.land (u8 b3) 63 in
    Some (Z.lor (Z.lor (Z.lor c0 c1) c2) c3, 4%nat)
  else if c0 >=? 0xE0 then
    b1 ← s !! 1%nat; b2 ← s !! 2%nat;
    let c0 := Z.shiftl (Z.land c0 15) 12 in
    let c1 := Z.shiftl (Z.land (u8 b1) 63) 6 in
    let c2 := Z.land (u8 b2) 63 in
    Some (Z.lor (Z.lor c0 c1) c2, 3%nat)
  else if c0 >=? 0xC0 then
    b1 ← s !! 1%nat;
    let c0 := Z.shiftl (Z.land c0 31) 6 in
    let c1 := Z.land (u8 b1) 63 in
    Some (Z.lor c0 c1, 2%nat)
  else Some (c0, 0%nat).

(** How a bounded run of a loop ends. *)
Inductive run (A : Type) : Type :=
| Finished (a : A)
| Out_of_fuel
| Bad_read.
Arguments Finished {A} a.
Arguments Out_of_fuel {A}.
Arguments Bad_read {A}.

(** The loop of [u32cs(s, n)]; every iteration takes one unit of fuel. *)
Fixpoint u32cs_loop (fuel : nat) (s : list Z) (n length_counter : Z)
    (u32s : list Z) : run (list Z) :=
  match fuel with
  | O => Out_of_fuel
  | S fuel' =>
      if length_counter <=? n then
        match from_utf8 s with
        | None => Bad_read
        | Some (c, k) =>
            u32cs_loop fuel' (drop k s) n (length_counter + Z.of_nat k)
                       (u32s ++ [c])
        end
      else Finished u32s
  end.

Definition u32cs (fuel : nat) (s : list Z) (n : Z) : run (list Z) :=
  u32cs_loop fuel s n 0 [].

(** [AbstractLexer::u32size] on the matched text. *)
Definition u32size (str_ : list Z) : Z :=
  fold_left (fun n b => n + (if Z.land b 0xC0 =? 0x80 then 0 else 1)) str_ 0.

(** The UTF-8 text of a sequence of characters. *)
Definition encode (cs : list Z) : list Z := concat (to_utf8_bytes <$> cs).

(** [to_utf32be] of the input tests. *)
Definition to_utf32be (c : Z) : list Z :=
  [Z.land (Z.shiftr c 24) 0xFF; Z.land (Z.shiftr c 16) 0xFF;
   Z.land (Z.shiftr c 8) 0xFF; Z.land c 0xFF].

End Utf8.

(** ** Input over an in-memory string view ([input.h]) *)

Module Input.

(** The encodings [Input::get] distinguishes: every table-driven encoding
    runs the same case, on the table [page_]; [codepage] stands for the
    predefined tables (code pages, ISO-8859, KOI8, MacRoman), whose page
    [set_encoding] sets, and [custom] for a page the caller gives. *)
Inductive encoding : Type :=
| codepage
| custom
| latin1
| utf8
| utf16be
| utf16le
| utf32be
| utf32le
| auto_detect.

(** An [Input] whose source is a view of unsigned bytes ([Source_Type::USV]):
    [data_] holds the [size_] bytes not read yet. *)
Record Input : Type := mkInput {
  enc_ : encoding;
  page_ : list Z;
  data_ : list Z
}.

Definition EOF : Z := -1.

Definition with_data (i : Input) (d : list Z) : Input :=
  mkInput (enc_ i) (page_ i) d.

(** [get_raw()]. *)
Definition get_raw (i : Input) : Z * Input :=
  match data_ i with
  | [] => (EOF, i)
  | b :: rest => (u8 b, with_data i rest)
  end.

(** [get_raw(buf, size, 1)]: the bytes copied when one item was read. *)
Definition get_raw_item (size : nat) (i : Input) : option (list Z) * Input :=
  if (length (data_ i) <? size)%nat then (None, i)
  else (Some (u8 <$> take size (data_ i)), with_data i (drop size (data_ i))).

(** The tail of each case of [get]: one byte for a character below 0x80,
    [to_utf8] otherwise. *)
Definition put (c : Z) (i : Input) : option (list Z * Input) :=
  if c <? 0x80 then Some ([c], i)
  else bs ← Utf8.to_utf8 c; Some (bs, i).

(** The case [encoding::utf8] after a lead byte [c >= 0x80] was read:
    [more] further bytes are fetched in one item. *)
Definition get_utf8_tail (c : Z) (more : nat) (i : Input)
    : option (list Z * Input) :=
  match get_raw_item more i with
  | (Some bs, i') => Some (c :: bs, i')
  | (None, i') => Some ([], i')
  end.

(** [Input::get(s)]: the bytes written to [s] (their number is the value
    returned) and the input afterwards.  [None] is a failed assertion of
    [to_utf8] or a read outside the code page. *)
Definition get (i : Input) : option (list Z * Input) :=
  match enc_ i with
  | utf8 =>
      let '(c, i1) := get_raw i in
      if (c =? EOF) || (c >=? 0xF8) then Some ([], i1)
      else if c <? 0x80 then Some ([c], i1)
      else if c >=? 0xF0 then get_utf8_tail c 3 i1
      else if c >=? 0xE0 then get_utf8_tail c 2 i1
      else if c >=? 0xC0 then get_utf8_tail c 1 i1
      else Some ([], i1)
  | utf16be =>
      match get_raw_item 2 i with
      | (Some bs, i1) =>
          let c := Z.lor (Z.shiftl (nth 0 bs 0) 8) (nth 1 bs 0) in
          if c <? 0x80 then Some ([c], i1)
          else if (c >=? 0xD800) && (c <? 0xE000) then
            if c <? 0xDC00 then
              match get_raw_item 2 i1 with
              | (Some bs', i2) =>
                  if Z.land (nth 0 bs' 0) 0xFC =? 0xDC
                  then bs ← Utf8.to_utf8
                              (u32 (0x010000 - 0xDC00 + Z.shiftl (c - 0xD800) 10
                                    + Z.lor (Z.shiftl (nth 0 bs' 0) 8) (nth 1 bs' 0)));
                       Some (bs, i2)
                  else bs ← Utf8.to_utf8 Utf8.ERR_CHAR; Some (bs, i2)
              | (None, i2) => bs ← Utf8.to_utf8 Utf8.ERR_CHAR; Some (bs, i2)
              end
            else bs ← Utf8.to_utf8 Utf8.ERR_CHAR; Some (bs, i1)
          else bs ← Utf8.to_utf8 c; Some (bs, i1)
      | (None, i1) => Some ([], i1)
      end
  | utf16le =>
      match get_raw_item 2 i with
      | (Some bs, i1) =>
          let c := Z.lor (nth 0 bs 0) (Z.shiftl (nth 1 bs 0) 8) in
          if c <? 0x80 then Some ([c], i1)
          else if (c >=? 0xD800) && (c <? 0xE000) then
            if c <? 0xDC00 then
              match get_raw_item 2 i1 with
              | (Some bs', i2) =>
                  if Z.land (nth 1 bs' 0) 0xFC =? 0xDC
                  then bs ← Utf8.to_utf8
                              (u32 (0x010000 - 0xDC00 + Z.shiftl (c - 0xD800) 10
                                    + Z.lor (nth 0 bs' 0) (Z.shiftl (nth 1 bs' 0) 8)));
                       Some (bs, i2)
                  else bs ← Utf8.to_utf8 Utf8.ERR_CHAR; Some (bs, i2)
              | (None, i2) => bs ← Utf8.to_utf8 Utf8.ERR_CHAR; Some (bs, i2)
              end
            else bs ← Utf8.to_utf8 Utf8.ERR_CHAR; Some (bs, i1)
          else bs ← Utf8.to_utf8 c; Some (bs, i1)
      | (None, i1) => Some ([], i1)
      end
  | utf32be =>
      match get_raw_item 4 i with
      | (Some bs, i1) =>
          put (u32 (Z.lor (Z.lor (Z.lor (Z.shiftl (nth 0 bs 0) 24)
                                        (Z.shiftl (nth 1 bs 0) 16))
                                 (Z.shiftl (nth 2 bs 0) 8))
                          (nth 3 bs 0))) i1
      | (None, i1) => Some ([], i1)
      end
  | utf32le =>
      match get_raw_item 4 i with
      | (Some bs, i1) =>
          put (u32 (Z.lor (Z.lor (Z.lor (nth 0 bs 0)
                                        (Z.shiftl (nth 1 bs 0) 8))
                                 (Z.shiftl (nth 2 bs 0) 16))
                          (Z.shiftl (nth 3 bs 0) 24))) i1
      | (None, i1) => Some ([], i1)
      end
  | latin1 =>
      let '(byte, i1) := get_raw i in
      if byte =? EOF then Some ([], i1) else put (u8 byte) i1
  | codepage | custom =>
      let '(byte, i1) := get_raw i in
      if byte =? EOF then Some ([], i1)
      else c ← page_ i !! Z.to_nat (u8 byte); put (u16 c) i1
  | auto_detect => Some ([], i)
  end.

End Input.

(** ** Buffered input over a string view ([input.h]) *)

Module BufferedInput.

(** A [BufferedInput] on a source that needs no raw buffer (a string view),
    so that [size_buf_raw] stays 0 and [fill_buffer()] returns 0: the input
    read through [Input2_], the four bytes of [buf_u8] with their cursor and
    end, the unget queue and the position counters. *)
Record BufferedInput : Type := mkBufferedInput {
  input : Input.Input;
  buf_u8 : list Z;
  pos_buf_u8 : Z;
  dend_buf_u8 : Z;
  buf_unget : list Z;
  lineno : Z;
  colno : Z
}.

Definition EOF : Z := -1.

(** The counters after a byte [c] has been delivered. *)
Definition count (c : Z) (lineno colno : Z) : Z * Z :=
  if c =? 10 then (u64 (lineno + 1), 1) else (lineno, u64 (colno + 1)).

(** The end of [get_utf8_byte_ignoring_unget]: the byte under the cursor is
    delivered and counted. *)
Definition deliver (b : BufferedInput) : option (Z * BufferedInput) :=
  c ← buf_u8 b !! Z.to_nat (pos_buf_u8 b);
  let '(l, k) := count c (lineno b) (colno b) in
  Some (c, mkBufferedInput (input b) (buf_u8 b) (pos_buf_u8 b + 1)
                           (dend_buf_u8 b) (buf_unget b) l k).

(** [get_utf8_byte_ignoring_unget]. *)
Definition get_utf8_byte_ignoring_unget (b : BufferedInput)
    : option (Z * BufferedInput) :=
  if (pos_buf_u8 b =? dend_buf_u8 b) || (dend_buf_u8 b =? 0) then
    '(bs, i1) ← Input.get (input b);
    if (length bs =? 0)%nat
    then Some (EOF, mkBufferedInput i1 (buf_u8 b) (pos_buf_u8 b) 0
                                    (buf_unget b) (lineno b) (colno b))
    else deliver (mkBufferedInput i1 (bs ++ drop (length bs) (buf_u8 b)) 0
                                  (Z.of_nat (length bs)) (buf_unget b)
                                  (lineno b) (colno b))
  else deliver b.

(** [get_utf8_byte]. *)
Definition get_utf8_byte (b : BufferedInput) : option (Z * BufferedInput) :=
  match buf_unget b with
  | c :: rest =>
      let '(l, k) := count c (lineno b) (colno b) in
      Some (c, mkBufferedInput (input b) (buf_u8 b) (pos_buf_u8 b)
                               (dend_buf_u8 b) rest l k)
  | [] => get_utf8_byte_ignoring_unget b
  end.

(** The loop of [peek_utf8_byte]: [i] more bytes are fetched and queued. *)
Fixpoint peek_loop (i : nat) (c : Z) (b : BufferedInput)
    : option (Z * BufferedInput) :=
  match i with
  | O => Some (c, b)
  | S i' =>
      '(c', b') ← get_utf8_byte_ignoring_unget b;
      if c' =? EOF then Some (c', b')
      else peek_loop i' c'
             (mkBufferedInput (input b') (buf_u8 b') (pos_buf_u8 b')
                              (dend_buf_u8 b') (buf_unget b' ++ [c'])
                              (lineno b') (colno b'))
  end.

(** [peek_utf8_byte(i)]. *)
Definition peek_utf8_byte (i : nat) (b : BufferedInput)
    : option (Z * BufferedInput) :=
  match buf_unget b !! i with
  | Some c => Some (c, b)
  | None => peek_loop (i - length (buf_unget b) + 1) EOF b
  end.

(** [unget(c)]; [None] is a failed assertion of [to_utf8]. *)
Definition unget (c : Z) (b : BufferedInput) : option BufferedInput :=
  if c <=? 0x80 then
    let '(l, k) := if c =? 10 then (u64 (lineno b - 1), 1)
                   else (lineno b, u64 (colno b - 1)) in
    Some (mkBufferedInput (input b) (buf_u8 b) (pos_buf_u8 b) (dend_buf_u8 b)
                          (u8 c :: buf_unget b) l k)
  else
    arr ← Utf8.to_utf8 c;
    Some (mkBufferedInput (input b) (buf_u8 b) (pos_buf_u8 b) (dend_buf_u8 b)
                          (fold_left (fun q x => x :: q) (rev arr) (buf_unget b))
                          (lineno b) (u64 (colno b - 0))).

(** [n] calls of [get_utf8_byte] that all deliver a byte: the bytes and the
    state afterwards. *)
Fixpoint read (n : nat) (b : BufferedInput) : option (list Z * BufferedInput) :=
  match n with
  | O => Some ([], b)
  | S n' =>
      '(c, b1) ← get_utf8_byte b;
      if c =? EOF then None
      else '(cs, b2) ← read n' b1; Some (c :: cs, b2)
  end.

(** The counters after the bytes [bs] have been delivered in order. *)
Definition counts (bs : list Z) (lk : Z * Z) : Z * Z :=
  fold_left (fun lk c => count c lk.1 lk.2) bs lk.

(** A buffered input over a UTF-8 string view with [data] left to read,
    [buf] in [buf_u8] with its first [n] bytes delivered, no byte queued and
    the given counters. *)
Definition view (data buf : list Z) (n lineno colno : Z) : BufferedInput :=
  mkBufferedInput (Input.mkInput Input.utf8 [] data) buf n n [] lineno colno.

(** [BufferedInput(args...)], where [i] is the input [Input1_] that [args]
    construct.  The constructor passes the encoding and the page of [i] to
    [Input2_::set_encoding], whose assertion [enc == custom || page == nullptr]
    fails ([None]) when the page has been set to a predefined table, as for
    the code pages and latin1; [auto_detect] is turned into utf8 there.
    [buf_u8] is not initialised: [buf] is what its four bytes hold. *)
Definition fresh (i : Input.Input) (buf : list Z) : option BufferedInput :=
  match Input.enc_ i with
  | Input.codepage | Input.latin1 => None
  | Input.auto_detect =>
      Some (mkBufferedInput (Input.mkInput Input.utf8 (Input.page_ i) (Input.data_ i))
                            buf 0 0 [] 1 1)
  | _ => Some (mkBufferedInput i buf 0 0 [] 1 1)
  end.

End BufferedInput.

(** ** The lexer ([abslexer.hpp], [lexer.h]) *)

Module Lexer.

Definition REDO : Z := 0x7FFFFFFF.
Definition EMPTY : Z := 0xFFFFFFFF.

(** The lexer state an FSM works on: the accept code and the matched text
    of [AbstractLexer], its buffered input [in], and the fields of
    [Lexer]. *)
Record Lexer : Type := mkLexer {
  cap_ : Z;
  str_ : list Z;
  in_ : BufferedInput.BufferedInput;
  got_ : Z;
  peek_ : Z;
  mrk_ : bool;
  ind_ : Z;
  ded_ : Z;
  col_ : Z;
  tab_ : list Z;
  pattern_current : nat
}.

(** [Pattern::FSM]: compiled code run on the lexer; [None] when a call it
    makes has no defined result. *)
Definition FSM : Type := Lexer -> option Lexer.

Definition EOF : Z := -1.

Definition with_cap (cap : Z) (lx : Lexer) : Lexer :=
  mkLexer cap (str_ lx) (in_ lx) (got_ lx) (peek_ lx) (mrk_ lx) (ind_ lx)
          (ded_ lx) (col_ lx) (tab_ lx) (pattern_current lx).

(** [FSM_CHAR], [FSM_TAKE(cap)] and [FSM_REDO()], the calls compiled FSM
    code is made of.  [FSM_CHAR] reads through [in.get_utf8_byte()] and
    appends what is not [EOF] to [str_] as a [char]. *)
Definition FSM_CHAR (lx : Lexer) : option (Z * Lexer) :=
  '(c, b) ← BufferedInput.get_utf8_byte (in_ lx);
  Some (c, mkLexer (cap_ lx)
                   (if negb (c =? EOF) then str_ lx ++ [u8 c] else str_ lx)
                   b c (peek_ lx) (mrk_ lx) (ind_ lx) (ded_ lx) (col_ lx)
                   (tab_ lx) (pattern_current lx)).

Definition FSM_TAKE (cap : Z) (lx : Lexer) : Lexer := with_cap cap lx.

Definition FSM_REDO (lx : Lexer) : Lexer := with_cap REDO lx.

(** How a bounded run of [scan] ends. *)
Inductive run : Type :=
| Return (cap : Z) (lx : Lexer)
| Out_of_fuel
| Undefined.

(** The state at the label [begin] after [str_.clear(); cap_ = 0]. *)
Definition restart (lx : Lexer) : Lexer :=
  mkLexer 0 [] (in_ lx) (got_ lx) (peek_ lx) (mrk_ lx) (ind_ lx) (ded_ lx)
          (col_ lx) (tab_ lx) (pattern_current lx).

(** One pass from [begin] to the test of [cap_]; [patterns] holds the
    [fsm_] pointer of each pattern, [None] for [nullptr]. *)
Definition pass (patterns : list (option FSM)) (lx : Lexer) : option Lexer :=
  let lx1 := restart lx in
  fsm_ ← patterns !! pattern_current lx1;
  match fsm_ with
  | Some fsm => fsm lx1
  | None => Some lx1
  end.

(** [Lexer::scan]; each [goto begin] takes one unit of fuel. *)
Fixpoint scan (A : bool) (patterns : list (option FSM)) (fuel : nat)
    (lx : Lexer) : run :=
  match fuel with
  | O => Out_of_fuel
  | S fuel' =>
      match pass patterns lx with
      | None => Undefined
      | Some lx2 =>
          if (cap_ lx2 =? REDO) && negb A
          then scan A patterns fuel' lx2
          else Return (cap_ lx2) lx2
      end
  end.

(** A sample FSM for the pattern [(?^x)|a]: one byte is read; [x] is a
    negative match, [a] is accepted as sub-pattern 1. *)
Definition sample_fsm : FSM := fun lx =>
  '(c, lx1) ← FSM_CHAR lx;
  Some (if c =? 120 then FSM_REDO lx1
        else if c =? 97 then FSM_TAKE 1 lx1
        else lx1).

(** The FSM that only records a negative match. *)
Definition redo_fsm : FSM := fun lx => Some (FSM_REDO lx).

(** The lexer with the given accept code, matched text, input and last
    byte, the first pattern selected and the other fields as [reset()]
    leaves them. *)
Definition lexer_on (cap : Z) (str : list Z) (input : BufferedInput.BufferedInput)
    (got : Z) : Lexer :=
  mkLexer cap str input got 0 false 0 0 0 [] 0.

(** [update_col]: [T] is [opt_.T], the column width of a character;
    [col_] and [ind_] are of type [size_t]. *)
Definition update_col (T : Z -> Z) (lx : Lexer) : Lexer :=
  let rest := drop (Z.to_nat (ind_ lx)) (str_ lx) in
  let col := fold_left (fun col c => u64 (col + T c)) rest (col_ lx) in
  let ind := if ind_ lx <? Z.of_nat (length (str_ lx))
             then Z.of_nat (length (str_ lx)) else ind_ lx in
  mkLexer (cap_ lx) (str_ lx) (in_ lx) (got_ lx) (peek_ lx) true ind
          (ded_ lx) col (tab_ lx) (pattern_current lx).

(** [tab_.back()], with [None] for an empty vector. *)
Definition back (tab : list Z) : option Z := last tab.

Definition indent (T : Z -> Z) (lx : Lexer) : bool * Lexer :=
  let lx1 := update_col T lx in
  ((col_ lx1 >? 0)
   && match back (tab_ lx1) with None => true | Some t => t <? col_ lx1 end,
   lx1).

Definition dedent (T : Z -> Z) (lx : Lexer) : bool * Lexer :=
  let lx1 := update_col T lx in
  (match back (tab_ lx1) with None => false | Some t => t >? col_ lx1 end,
   lx1).

Definition nodent (T : Z -> Z) (lx : Lexer) : bool * Lexer :=
  let lx1 := update_col T lx in
  (((col_ lx1 <=? 0)
    || match back (tab_ lx1) with None => false | Some t => t >=? col_ lx1 end)
   && match back (tab_ lx1) with None => true | Some t => t <=? col_ lx1 end,
   lx1).

End Lexer.

(** ** Positions of the FSM construction ([fsm_gen.h]): a 64-bit word *)

Module Position.

Definition MAXITER : Z := 0xFFFF.
Definition MAXLOC : Z := 0xFFFFFFFF.
Definition NPOS : Z := 0xFFFFFFFFFFFFFFFF.
Definition RES1 : Z := Z.shiftl 1 48.
Definition RES2 : Z := Z.shiftl 1 49.
Definition RES3 : Z := Z.shiftl 1 50.
Definition NEGATE : Z := Z.shiftl 1 51.
Definition TICKED : Z := Z.shiftl 1 52.
Definition GREEDY : Z := Z.shiftl 1 53.
Definition ANCHOR : Z := Z.shiftl 1 54.
Definition ACCEPT : Z := Z.shiftl 1 55.

(** [b ? Position(k | F) : Position(k & ~F)] and [(k & F) != 0], the
    bodies shared by the five flags.  The setters carry the getters' names
    in the source; here they are [set_negate], [set_iter], ... *)
Definition set_flag (F : Z) (k : Z) (b : bool) : Z :=
  if b then Z.lor k F else Z.land k (u64 (Z.lnot F)).
Definition get_flag (F : Z) (k : Z) : bool := negb (Z.land k F =? 0).

Definition set_iter (k i : Z) : Z := u64 (k + Z.shiftl i 32).
Definition set_negate : Z -> bool -> Z := set_flag NEGATE.
Definition set_ticked : Z -> bool -> Z := set_flag TICKED.
Definition set_greedy : Z -> bool -> Z := set_flag GREEDY.
Definition set_anchor : Z -> bool -> Z := set_flag ANCHOR.
Definition set_accept : Z -> bool -> Z := set_flag ACCEPT.
Definition set_lazy (k l : Z) : Z :=
  Z.lor (Z.land k 0x00FFFFFFFFFFFFFF) (u64 (Z.shiftl l 56)).
Definition pos (k : Z) : Z := Z.land k 0x0000FFFFFFFFFFFF.
Definition loc (k : Z) : Z := u32 k.
Definition accepts (k : Z) : Z := u32 k.
Definition iter (k : Z) : Z := u16 (Z.land (Z.shiftr k 32) 0xFFFF).
Definition negate : Z -> bool := get_flag NEGATE.
Definition ticked : Z -> bool := get_flag TICKED.
Definition greedy : Z -> bool := get_flag GREEDY.
Definition anchor : Z -> bool := get_flag ANCHOR.
Definition accept : Z -> bool := get_flag ACCEPT.
Definition lazy (k : Z) : Z := u8 (Z.shiftr k 56).

(** The five flag masks. *)
Definition flags : list Z := [NEGATE; TICKED; GREEDY; ANCHOR; ACCEPT].

End Position.

(** ** Lemmas on bits *)

Lemma bit_set_testbit (x k : Z) : 0 <= k -> bit_set x k = Z.testbit x k.
Proof.
  intros Hk. unfold bit_set.
  destruct (Z.testbit x k) eqn:E.
  - apply negb_true_iff, Z.eqb_neq. intros H0.
    assert (Z.testbit (Z.land x (Z.shiftl 1 k)) k = true) as Hb.
    { rewrite Z.land_spec, E, Z.shiftl_spec by lia.
      replace (k - k) with 0 by lia. reflexivity. }
    rewrite H0, Z.bits_0 in Hb. discriminate.
  - apply negb_false_iff, Z.eqb_eq, Z.bits_inj'. intros n Hn.
    rewrite Z.land_spec, Z.bits_0, Z.shiftl_spec by lia.
    destruct (Z.eq_dec n k) as [-> | Hne].
    + rewrite E. reflexivity.
    + replace (Z.testbit 1 (n - k)) with false; [apply andb_false_r|].
      symmetry. destruct (Z_lt_le_dec (n - k) 0).
      * apply Z.testbit_neg_r. lia.
      * change 1 with (2 ^ 0). apply Z.pow2_bits_false. lia.
Qed.

Lemma testbit_u64_lnot (w k : Z) :
  0 <= k < 64 -> Z.testbit (u64 (Z.lnot w)) k = negb (Z.testbit w k).
Proof.
  intros Hk. unfold u64.
  rewrite Z.mod_pow2_bits_low by lia. apply Z.lnot_spec. lia.
Qed.

Lemma testbit_high_byte_mask (n : Z) :
  0 <= n -> Z.testbit 0xFF000000 n = (24 <=? n) && (n <? 32).
Proof.
  intros Hn. change 0xFF000000 with (Z.shiftl (Z.ones 8) 24).
  rewrite Z.shiftl_spec by lia.
  destruct (Z.leb_spec 24 n) as [Hge|Hlt]; simpl.
  - destruct (Z.ltb_spec n 32) as [Hlt|Hge'].
    + apply Z.ones_spec_low. lia.
    + apply Z.ones_spec_high. lia.
  - apply Z.testbit_neg_r. lia.
Qed.

Lemma land_high_byte (w : Z) :
  0 <= w < 2 ^ 32 -> Z.land w 0xFF000000 = w / 2 ^ 24 * 2 ^ 24.
Proof.
  intros Hw. apply Z.bits_inj'. intros n Hn.
  rewrite Z.land_spec, testbit_high_byte_mask by lia.
  rewrite <- Z.shiftr_div_pow2, <- Z.shiftl_mul_pow2 by lia.
  rewrite Z.shiftl_spec by lia.
  destruct (Z.leb_spec 24 n) as [Hge|Hlt]; simpl.
  - rewrite Z.shiftr_spec by lia. replace (n - 24 + 24) with n by lia.
    destruct (Z.ltb_spec n 32) as [Hlt|Hge'].
    + apply andb_true_r.
    + rewrite andb_false_r. symmetry.
      destruct (Z.eq_dec w 0) as [-> | Hne]; [apply Z.bits_0|].
      apply Z.bits_above_log2; [lia|].
      assert (Z.log2 w < 32) by (apply Z.log2_lt_pow2; lia). lia.
  - rewrite andb_false_r. symmetry. apply Z.testbit_neg_r. lia.
Qed.

(** Joining a multiple of [2^k] with a value below [2^k] adds them. *)
Lemma lor_shifted (hi lo k : Z) :
  0 <= k -> 0 <= lo < 2 ^ k -> Z.lor (hi * 2 ^ k) lo = hi * 2 ^ k + lo.
Proof.
  intros Hk Hlo. symmetry. apply Z.add_nocarry_lor.
  apply Z.bits_inj'. intros n Hn.
  rewrite Z.land_spec, Z.bits_0, <- Z.shiftl_mul_pow2, Z.shiftl_spec by lia.
  destruct (Z_lt_le_dec n k) as [Hlt|Hge].
  - rewrite Z.testbit_neg_r by lia. reflexivity.
  - replace (Z.testbit lo n) with false; [apply andb_false_r|].
    symmetry. destruct (Z.eq_dec lo 0) as [-> | Hne]; [apply Z.bits_0|].
    apply Z.bits_above_log2; [lia|].
    assert (Z.log2 lo < k) by (apply Z.log2_lt_pow2; lia). lia.
Qed.

Lemma land_low_mask (x k : Z) : 0 <= k -> Z.land x (2 ^ k - 1) = x mod 2 ^ k.
Proof.
  intros Hk. rewrite <- Z.land_ones by lia. f_equal.
  rewrite Z.ones_equiv. lia.
Qed.

(** ** Opcode classification *)

(** [is_opcode_goto] compares the two top bytes of the word: it holds exactly
    when the second byte is not below the first. *)
Lemma is_opcode_goto_bytes (w : Z) :
  0 <= w < 2 ^ 32 ->
  Opcode.is_opcode_goto w = (Opcode.byte3 w <=? Opcode.byte2 w).
Proof.
  intros Hw. unfold Opcode.is_opcode_goto, Opcode.byte3, Opcode.byte2, u32.
  rewrite land_high_byte by exact Hw.
  rewrite Z.shiftl_mul_pow2 by lia.
  rewrite Z.geb_leb.
  apply eq_true_iff_eq. rewrite !Z.leb_le.
  Z.div_mod_to_equations. lia.
Qed.

Lemma marker_word (tag index : Z) :
  0 <= tag < 2 ^ 8 ->
  Z.lor (tag * 2 ^ 24) (Z.land index 0xFFFFFF) = tag * 2 ^ 24 + index mod 2 ^ 24.
Proof.
  intros Ht. change 0xFFFFFF with (2 ^ 24 - 1).
  rewrite land_low_mask by lia.
  apply lor_shifted; [lia|]. apply Z.mod_pos_bound. lia.
Qed.

Lemma marker_not_goto (tag index : Z) :
  0 <= tag < 2 ^ 8 -> 0 <= index -> index < tag * 2 ^ 16 ->
  Opcode.is_opcode_goto (Z.lor (tag * 2 ^ 24) (Z.land index 0xFFFFFF)) = false.
Proof.
  intros Ht Hi Hlim. rewrite marker_word by exact Ht.
  assert (0 <= index mod 2 ^ 24 < 2 ^ 24) as Hm by (apply Z.mod_pos_bound; lia).
  rewrite is_opcode_goto_bytes by lia.
  apply Z.leb_gt. unfold Opcode.byte3, Opcode.byte2.
  rewrite (Z.mod_small index) in * by lia.
  Z.div_mod_to_equations. lia.
Qed.

Lemma goto_range_word (lo hi index : Z) :
  0 <= lo <= 0xFF -> 0 <= hi <= 0xFF -> 0 <= index <= 0xFFFF ->
  Opcode.opcode_goto lo hi index = lo * 2 ^ 24 + hi * 2 ^ 16 + index.
Proof.
  intros Hlo Hhi Hi. unfold Opcode.opcode_goto, Opcode.is_meta, Opcode.META_MIN, u32.
  destruct (Z.gtb_spec lo 0x100) as [Hgt|_]; [lia|].
  rewrite !Z.shiftl_mul_pow2 by lia.
  rewrite !Z.mod_small by lia.
  rewrite (lor_shifted lo (hi * 2 ^ 16) 24) by lia.
  replace (lo * 2 ^ 24 + hi * 2 ^ 16) with ((lo * 2 ^ 8 + hi) * 2 ^ 16) by lia.
  rewrite lor_shifted by lia. lia.
Qed.

Lemma goto_meta_word (m hi index : Z) :
  0x101 <= m <= 0x10D -> 0 <= index <= 0xFFFF ->
  Opcode.opcode_goto m hi index = (m - 0x100) * 2 ^ 24 + index.
Proof.
  intros Hm Hi. unfold Opcode.opcode_goto, Opcode.is_meta, Opcode.META_MIN, u32.
  destruct (Z.gtb_spec m 0x100) as [_|Hle]; [|lia].
  rewrite Z.shiftl_mul_pow2 by lia.
  replace (m * 2 ^ 24) with ((m - 0x100) * 2 ^ 24 + 1 * 2 ^ 32) by lia.
  rewrite Z.mod_add by lia. rewrite Z.mod_small by lia.
  apply lor_shifted; lia.
Qed.

(** C4 (as amended).  [is_opcode_goto] accepts every byte-range GOTO word
    built by [opcode_goto] and the HALT word; it rejects every meta-class
    GOTO word (top byte 0x01..0x0D, second byte zero), and it rejects the
    HEAD, TAIL, TAKE and LONG words built from an index within the size
    limits, and the REDO word. *)
Theorem is_opcode_goto_classes :
  (forall lo hi index,
      0 <= lo <= hi -> hi <= 0xFF -> 0 <= index <= 0xFFFF ->
      Opcode.is_opcode_goto (Opcode.opcode_goto lo hi index) = true)
  /\ Opcode.is_opcode_goto Opcode.opcode_halt = true
  /\ (forall w,
      0 <= w < 2 ^ 32 -> 0x01 <= Opcode.byte3 w <= 0x0D -> Opcode.byte2 w = 0 ->
      Opcode.is_opcode_goto w = false)
  /\ (forall m hi index,
      0x101 <= m <= 0x10D -> 0 <= index <= 0xFFFF ->
      Opcode.is_opcode_goto (Opcode.opcode_goto m hi index) = false)
  /\ (forall index, 0 <= index <= Opcode.LMAX ->
      Opcode.is_opcode_goto (Opcode.opcode_head index) = false)
  /\ (forall index, 0 <= index <= Opcode.LMAX ->
      Opcode.is_opcode_goto (Opcode.opcode_tail index) = false)
  /\ Opcode.is_opcode_goto Opcode.opcode_redo = false
  /\ (forall index, 0 <= index <= Opcode.AMAX ->
      Opcode.is_opcode_goto (Opcode.opcode_take index) = false)
  /\ (forall index, 0 <= index <= Opcode.GMAX ->
      Opcode.is_opcode_goto (Opcode.opcode_long index) = false).
Proof.
  repeat split.
  - intros lo hi index Hlo Hhi Hi.
    rewrite goto_range_word by lia.
    rewrite is_opcode_goto_bytes by lia.
    apply Z.leb_le. unfold Opcode.byte3, Opcode.byte2.
    Z.div_mod_to_equations. lia.
  - intros w Hw Hb3 Hb2. rewrite is_opcode_goto_bytes by exact Hw.
    apply Z.leb_gt. lia.
  - intros m hi index Hm Hi.
    rewrite goto_meta_word by lia.
    rewrite is_opcode_goto_bytes by lia.
    apply Z.leb_gt. unfold Opcode.byte3, Opcode.byte2.
    Z.div_mod_to_equations. lia.
  - intros index Hi. unfold Opcode.LMAX in Hi.
    apply (marker_not_goto 0xFB); lia.
  - intros index Hi. unfold Opcode.LMAX in Hi.
    apply (marker_not_goto 0xFC); lia.
  - intros index Hi. unfold Opcode.AMAX in Hi.
    apply (marker_not_goto 0xFE); lia.
  - intros index Hi. unfold Opcode.GMAX in Hi.
    apply (marker_not_goto 0xFF); lia.
Qed.

(** The meta GOTO word for BOL (0x107) with target 5 is 0x07000005, and it
    is not in the class [is_opcode_goto] accepts. *)
Lemma is_opcode_goto_meta_counterexample :
  ~ (forall w,
      0 <= w < 2 ^ 32 -> 0x01 <= Opcode.byte3 w <= 0x0D -> Opcode.byte2 w = 0 ->
      Opcode.is_opcode_goto w = true).
Proof.
  intros H.
  assert (Opcode.is_opcode_goto 0x07000005 = true) as Hbad.
  { apply H; vm_compute; intuition discriminate. }
  vm_compute in Hbad. discriminate.
Qed.

Lemma is_opcode_goto_classes_witness :
  Opcode.is_opcode_goto (Opcode.opcode_goto 0x61 0x7A 0x0012) = true
  /\ Opcode.is_opcode_goto 0x07000005 = false
  /\ Opcode.is_opcode_goto (Opcode.opcode_goto 0x107 0x107 5) = false
  /\ Opcode.is_opcode_goto (Opcode.opcode_head 3) = false
  /\ Opcode.is_opcode_goto (Opcode.opcode_tail 3) = false
  /\ Opcode.is_opcode_goto (Opcode.opcode_take 0xFDFFFF) = false
  /\ Opcode.is_opcode_goto (Opcode.opcode_long 0xFEFFFF) = false.
Proof.
  destruct is_opcode_goto_classes
    as (Hgoto & _ & Hraw & Hmeta & Hhead & Htail & _ & Htake & Hlong).
  split; [apply Hgoto; lia|].
  split; [apply Hraw; vm_compute; intuition discriminate|].
  split; [apply Hmeta; lia|].
  split; [apply Hhead; vm_compute; intuition discriminate|].
  split; [apply Htail; vm_compute; intuition discriminate|].
  split; [apply Htake; vm_compute; intuition discriminate|].
  apply Hlong; vm_compute; intuition discriminate.
Defined.

(** ** Character sets *)

Lemma contains_testbit (s : Chars.Chars) (c : Z) :
  0 <= c ->
  Chars.contains s c = (fun w => Z.testbit w (c mod 64)) <$> Chars.word s (c / 64).
Proof.
  intros Hc. unfold Chars.contains.
  rewrite Z.shiftr_div_pow2 by lia. change (2 ^ 6) with 64.
  change 0x3F with (2 ^ 6 - 1). rewrite land_low_mask by lia. change (2 ^ 6) with 64.
  destruct (Chars.word s (c / 64)) as [w|]; simpl; [|reflexivity].
  rewrite bit_set_testbit; [reflexivity|].
  apply Z.mod_pos_bound. lia.
Qed.

Lemma word_flip256_low (s : Chars.Chars) (q : Z) :
  0 <= q < 4 ->
  exists w, Chars.word s q = Some w
            /\ Chars.word (Chars.flip256 s) q = Some (u64 (Z.lnot w)).
Proof.
  intros Hq.
  assert (q = 0 \/ q = 1 \/ q = 2 \/ q = 3) as [-> | [-> | [-> | ->]]] by lia;
    eexists; split; reflexivity.
Qed.

Lemma word_flip256_high (s : Chars.Chars) (q : Z) :
  4 <= q -> Chars.word (Chars.flip256 s) q = Chars.word s q.
Proof.
  intros Hq. unfold Chars.word.
  destruct (Z.eqb_spec q 0); [lia|]. destruct (Z.eqb_spec q 1); [lia|].
  destruct (Z.eqb_spec q 2); [lia|]. destruct (Z.eqb_spec q 3); [lia|].
  reflexivity.
Qed.

(** C7.  [flip256] complements bits 0..255 of a character set and leaves
    bits 256..319 as they were: word 4 is unchanged, membership of every meta
    character (0x100 and above) is the same before and after, and membership
    of every 8-bit character is inverted. *)
Theorem flip256_frame (s : Chars.Chars) :
  Chars.b4 (Chars.flip256 s) = Chars.b4 s
  /\ (forall i, 0 <= i < 256 ->
        Chars.bit (Chars.flip256 s) i = negb (Chars.bit s i))
  /\ (forall i, 256 <= i < 320 ->
        Chars.bit (Chars.flip256 s) i = Chars.bit s i)
  /\ (forall c, 0x100 <= c ->
        Chars.contains (Chars.flip256 s) c = Chars.contains s c)
  /\ (forall c, 0 <= c < 0x100 ->
        exists b, Chars.contains s c = Some b
                  /\ Chars.contains (Chars.flip256 s) c = Some (negb b)).
Proof.
  split; [reflexivity|].
  split; [|split; [|split]].
  - intros i Hi. unfold Chars.bit.
    destruct (word_flip256_low s (i / 64)) as (w & -> & ->).
    { Z.div_mod_to_equations. lia. }
    apply testbit_u64_lnot. apply Z.mod_pos_bound. lia.
  - intros i Hi. unfold Chars.bit.
    rewrite word_flip256_high; [reflexivity|].
    Z.div_mod_to_equations. lia.
  - intros c Hc. rewrite !contains_testbit by lia.
    rewrite word_flip256_high; [reflexivity|].
    Z.div_mod_to_equations. lia.
  - intros c Hc. rewrite !contains_testbit by lia.
    destruct (word_flip256_low s (c / 64)) as (w & -> & ->).
    { Z.div_mod_to_equations. lia. }
    eexists. split; [reflexivity|]. simpl. f_equal.
    apply testbit_u64_lnot. apply Z.mod_pos_bound. lia.
Qed.

Lemma flip256_frame_witness :
  Chars.contains (Chars.flip256 (Chars.mk 2 0 0 0 128)) 0x107
  = Chars.contains (Chars.mk 2 0 0 0 128) 0x107
  /\ (exists b, Chars.contains (Chars.mk 2 0 0 0 128) 1 = Some b
       /\ Chars.contains (Chars.flip256 (Chars.mk 2 0 0 0 128)) 1 = Some (negb b))
  /\ Chars.bit (Chars.flip256 (Chars.mk 2 0 0 0 128)) 97
     = negb (Chars.bit (Chars.mk 2 0 0 0 128) 97)
  /\ Chars.bit (Chars.flip256 (Chars.mk 2 0 0 0 128)) 263
     = Chars.bit (Chars.mk 2 0 0 0 128) 263.
Proof.
  destruct (flip256_frame (Chars.mk 2 0 0 0 128)) as (_ & Hlow & Hhigh & Hmeta & Hbyte).
  split; [apply Hmeta; lia|].
  split; [apply Hbyte; lia|].
  split; [apply Hlow; lia | apply Hhigh; lia].
Defined.

(** C8.  On character sets intersection distributes over union:
    [(A | B) & C] and [(A & C) | (B & C)] are equal under [operator==]. *)
Theorem chars_and_or_distr (A B C : Chars.Chars) :
  Chars.eqb (Chars.and (Chars.or A B) C)
            (Chars.or (Chars.and A C) (Chars.and B C)) = true.
Proof.
  unfold Chars.eqb, Chars.and, Chars.or. simpl.
  rewrite !Z.land_lor_distr_l, !Z.eqb_refl. reflexivity.
Qed.

(** ** The rolling hash and the hash filter *)

Lemma hash_value (h b : Z) :
  Pattern.hash h b = Z.land (Z.lxor (Z.shiftl h 3) b) 0xFFF.
Proof.
  unfold Pattern.hash, Pattern.HASH, u16.
  change (0x1000 - 1) with (2 ^ 12 - 1). change 0xFFF with (2 ^ 12 - 1).
  rewrite land_low_mask by lia.
  apply Z.mod_small.
  pose proof (Z.mod_pos_bound (Z.lxor (Z.shiftl h 3) b) (2 ^ 12)). lia.
Qed.

Lemma hash_range (h b : Z) : 0 <= Pattern.hash h b < 0x1000.
Proof.
  rewrite hash_value. change 0xFFF with (2 ^ 12 - 1).
  rewrite land_low_mask by lia. apply Z.mod_pos_bound. lia.
Qed.

Lemma u8_range (x : Z) : 0 <= u8 x < 256.
Proof. unfold u8. apply Z.mod_pos_bound. lia. Qed.

Lemma hash_chain_range (s : list Z) (k : nat) (h : Z) :
  Predict.hash_chain s k = Some h -> 0 <= h < 0x1000.
Proof.
  destruct k as [|k]; simpl.
  - destruct (s !! 0%nat) as [c|]; simpl; [|discriminate].
    intros [= <-]. pose proof (u8_range c). lia.
  - destruct (Predict.hash_chain s k) as [h0|]; simpl; [|discriminate].
    destruct (s !! S k) as [c|]; simpl; [|discriminate].
    intros [= <-]. apply hash_range.
Qed.

Lemma table_lookup (t : list Z) (h : Z) :
  length t = 4096%nat -> 0 <= h < 0x1000 -> exists p, t !! Z.to_nat h = Some p.
Proof.
  intros Hlen Hh. apply lookup_lt_is_Some_2. lia.
Qed.

Lemma u8_shift_mask (k : nat) :
  u8 (Z.shiftl (u8 (2 ^ Z.of_nat k)) 1) = u8 (2 ^ Z.of_nat (S k)).
Proof.
  unfold u8. rewrite Z.shiftl_mul_pow2 by lia.
  rewrite Nat2Z.inj_succ, Z.pow_succ_r by lia.
  rewrite Z.mul_mod_idemp_l by lia. f_equal. lia.
Qed.

Lemma pmh_loop_spec (pmh s : list Z) :
  length pmh = 4096%nat ->
  forall (cnt k : nat) (h : Z),
    (S k + cnt <= length s)%nat ->
    Predict.hash_chain s k = Some h ->
    exists r,
      Pattern.pmh_loop pmh s cnt (S k) h (u8 (2 ^ Z.of_nat (S k))) = Some r
      /\ (r = true <->
          forall j, (S k <= j < S k + cnt)%nat -> Predict.rejects pmh s j = Some false).
Proof.
  intros Hlen cnt. induction cnt as [|cnt IH]; intros k h Hs Hh.
  - exists true. split; [reflexivity|]. split; [|reflexivity]. intros _ j Hj. lia.
  - destruct (lookup_lt_is_Some_2 s (S k)) as [c Hc]; [lia|].
    assert (Predict.hash_chain s (S k) = Some (Pattern.hash h (u8 c))) as Hh'.
    { cbn [Predict.hash_chain]. rewrite Hh. cbn [mbind option_bind].
      rewrite Hc. reflexivity. }
    destruct (table_lookup pmh (Pattern.hash h (u8 c)) Hlen (hash_range _ _)) as [p Hp].
    assert (Predict.rejects pmh s (S k)
            = Some (negb (Z.land p (u8 (2 ^ Z.of_nat (S k))) =? 0))) as Hrej.
    { unfold Predict.rejects. rewrite Hh'. cbn [mbind option_bind].
      rewrite Hp. reflexivity. }
    cbn [Pattern.pmh_loop]. rewrite Hc. cbn [mbind option_bind]. rewrite Hp.
    cbn [mbind option_bind].
    destruct (Z.land p (u8 (2 ^ Z.of_nat (S k))) =? 0) eqn:Hbit; cbn [negb].
    + rewrite u8_shift_mask.
      destruct (IH (S k) (Pattern.hash h (u8 c))) as (r & Hr & Hiff); [lia|exact Hh'|].
      exists r. split; [exact Hr|]. rewrite Hiff. split.
      * intros Hall j Hj. destruct (decide (j = S k)) as [->|Hne].
        -- rewrite Hrej. reflexivity.
        -- apply Hall. lia.
      * intros Hall j Hj. apply Hall. lia.
    + exists false. split; [reflexivity|]. split; [discriminate|].
      intros Hall. specialize (Hall (S k)). rewrite Hrej in Hall.
      simpl in Hall. assert (Some true = Some false) as Habs by (apply Hall; lia).
      discriminate.
Qed.

(** The four unrolled tests of [predict_match(pmh, s, n)] after the first are
    iterations of its loop. *)
Lemma predict_match_pmh_unroll (pmh s : list Z) (n : Z) :
  Pattern.predict_match_pmh pmh s n
  = (c0 ← s !! 0%nat;
     p0 ← pmh !! Z.to_nat (u8 c0);
     if negb (Z.land p0 1 =? 0) then Some false
     else Pattern.pmh_loop pmh s (3 + Z.to_nat (n - 4)) 1 (u8 c0) 2).
Proof. reflexivity. Qed.

(** C6.  The rolling hash is the function
    [hash(h, b) = ((h << 3) XOR b) & 0xFFF], with values below 0x1000, and
    [predict_match(pmh, s, n)] probes the table along the chain [h_0 = s[0]],
    [h_k = hash(h_(k-1), s[k])]: it answers [true] exactly when no offset
    [k < max(4, n)] is rejected at [pmh[h_k]]. *)
Theorem rolling_hash_chain :
  (forall h b,
      Pattern.hash h b = Z.land (Z.lxor (Z.shiftl h 3) b) 0xFFF
      /\ 0 <= Pattern.hash h b < 0x1000)
  /\ (forall (pmh s : list Z) (n : Z),
      length pmh = 4096%nat -> (4 <= length s)%nat -> (Z.to_nat n <= length s)%nat ->
      exists r,
        Pattern.predict_match_pmh pmh s n = Some r
        /\ (r = true <->
            forall k, (k < Nat.max 4 (Z.to_nat n))%nat ->
                      Predict.rejects pmh s k = Some false)).
Proof.
  split; [intros h b; split; [apply hash_value | apply hash_range]|].
  intros pmh s n Hlen Hs Hn. rewrite predict_match_pmh_unroll.
  destruct (lookup_lt_is_Some_2 s 0) as [c0 Hc0]; [lia|].
  assert (Predict.hash_chain s 0 = Some (u8 c0)) as Hh0.
  { cbn [Predict.hash_chain]. rewrite Hc0. reflexivity. }
  destruct (table_lookup pmh (u8 c0) Hlen) as [p0 Hp0].
  { pose proof (u8_range c0). lia. }
  assert (Predict.rejects pmh s 0 = Some (negb (Z.land p0 1 =? 0))) as Hrej.
  { unfold Predict.rejects. rewrite Hh0. cbn [mbind option_bind].
    rewrite Hp0. reflexivity. }
  rewrite Hc0. cbn [mbind option_bind]. rewrite Hp0. cbn [mbind option_bind].
  destruct (pmh_loop_spec pmh s Hlen (3 + Z.to_nat (n - 4)) 0 (u8 c0))
    as (r & Hr & Hiff); [lia|exact Hh0|].
  change (u8 (2 ^ Z.of_nat 1)) with 2 in Hr.
  destruct (Z.eqb_spec (Z.land p0 1) 0) as [Hbit|Hbit]; cbn [negb].
  - exists r. split; [exact Hr|]. rewrite Hiff. split.
    + intros Hall k Hk. destruct (decide (k = 0%nat)) as [-> | Hne].
      * rewrite Hrej. reflexivity.
      * apply Hall. lia.
    + intros Hall j Hj. apply Hall. lia.
  - exists false. split; [reflexivity|]. split; [discriminate|].
    intros Hall. specialize (Hall 0%nat). rewrite Hrej in Hall.
    assert (Some (negb false) = Some false) as Habs by (apply Hall; lia).
    discriminate.
Qed.

Lemma rolling_hash_chain_witness :
  exists r,
    Pattern.predict_match_pmh (replicate 4096 0) [97; 98; 99; 100; 101] 5 = Some r
    /\ (r = true <->
        forall k, (k < Nat.max 4 (Z.to_nat 5))%nat ->
                  Predict.rejects (replicate 4096 0) [97; 98; 99; 100; 101] k
                  = Some false).
Proof.
  destruct rolling_hash_chain as [_ Hchain].
  apply Hchain.
  - vm_compute. reflexivity.
  - simpl. lia.
  - simpl. lia.
Defined.

(** ** The 4-byte window filter *)



Ltac bind_step H := rewrite H; cbn [mbind option_bind fmap option_fmap option_map].





(** The filter rules a match out on the table of all ones and lets every
    window through on the table of all zeros; one clear first bit at
    offset 0 is enough to let a window through. *)
Example ruled_out_values :
  Predict.ruled_out (replicate 4096 255) [97; 98; 99; 100] = Some true
  /\ Predict.ruled_out (replicate 4096 0) [97; 98; 99; 100] = Some false
  /\ Predict.ruled_out (<[97%nat := 0x7f]> (replicate 4096 255)) [97; 98; 99; 100]
     = Some false
  /\ Pattern.predict_match_pma (<[97%nat := 0x7f]> (replicate 4096 255))
       [97; 98; 99; 100] = Some 0.
Proof. vm_compute. repeat split. Qed.

Example predict_match_pma_all_set :
  Pattern.predict_match_pma (replicate 4096 255) [97; 98; 99; 100] = Some 4.
Proof. vm_compute. reflexivity. Qed.

Example predict_match_pma_all_clear :
  Pattern.predict_match_pma (replicate 4096 0) [97; 98; 99; 100] = Some 0.
Proof. vm_compute. reflexivity. Qed.

Example predict_match_pma_shift_two :
  Pattern.predict_match_pma (<[99%nat := 0]> (replicate 4096 255)) [97; 98; 99; 100]
  = Some 2.
Proof. vm_compute. reflexivity. Qed.

(** ** Decoding a predictor blob *)

Example set_null (p : Pattern.Predictor) : Pattern.set p None = Some p.
Proof. reflexivity. Qed.

Example set_short_blob (p : Pattern.Predictor) :
  Pattern.set p (Some [3; 0; 97]) = None.
Proof. reflexivity. Qed.

Lemma compl_byte (x : Z) : 0 <= x < 256 -> Pattern.compl x = 255 - x.
Proof.
  intros Hx. unfold Pattern.compl, u8, Z.lnot.
  replace (Z.pred (- x)) with (255 - x + -1 * 2 ^ 8) by lia.
  rewrite Z.mod_add by lia. apply Z.mod_small. lia.
Qed.

Lemma copy_loop_spec (f : Z -> Z) (src : list Z) (off : nat) :
  forall (cnt i : nat) (dst : list Z),
    (i + cnt <= length dst)%nat -> (off + i + cnt <= length src)%nat ->
    Pattern.copy_loop f cnt i src off dst
    = Some (take i dst ++ (f <$> take cnt (drop (off + i) src))
            ++ drop (i + cnt) dst).
Proof.
  induction cnt as [|cnt IH]; intros i dst Hdst Hsrc.
  - cbn [Pattern.copy_loop]. rewrite Nat.add_0_r, take_0. simpl.
    rewrite take_drop. reflexivity.
  - destruct (lookup_lt_is_Some_2 src (i + off)) as [x Hx]; [lia|].
    cbn [Pattern.copy_loop]. rewrite Hx. cbn [mbind option_bind].
    rewrite IH by (rewrite ?length_insert; lia).
    f_equal.
    rewrite (take_S_r (<[i := f x]> dst) i (f x))
      by (apply list_lookup_insert_eq; lia).
    rewrite take_insert_ge by lia.
    rewrite drop_insert_lt by lia.
    replace (off + i)%nat with (i + off)%nat by lia.
    rewrite (drop_S src x (i + off)) by exact Hx.
    replace (S i + cnt)%nat with (i + S cnt)%nat by lia.
    replace (i + off + 1)%nat with (S (i + off)) by lia.
    replace (off + S i)%nat with (S (i + off)) by lia.
    cbn [take fmap list_fmap]. rewrite <- app_assoc. reflexivity.
Qed.

Lemma copy_loop_prefix (f : Z -> Z) (src dst : list Z) (off cnt : nat) :
  (cnt <= length dst)%nat -> (off + cnt <= length src)%nat ->
  Pattern.copy_loop f cnt 0 src off dst
  = Some (Predict.slice f src off cnt ++ drop cnt dst).
Proof.
  intros Hdst Hsrc. rewrite copy_loop_spec by lia.
  rewrite Nat.add_0_r. reflexivity.
Qed.

Lemma copy_loop_full (f : Z -> Z) (src dst : list Z) (off cnt : nat) :
  length dst = cnt -> (off + cnt <= length src)%nat ->
  Pattern.copy_loop f cnt 0 src off dst = Some (Predict.slice f src off cnt).
Proof.
  intros Hdst Hsrc. rewrite copy_loop_prefix by lia.
  rewrite drop_ge by lia. rewrite app_nil_r. reflexivity.
Qed.

(** C3.  [Predictor::set] on a non-null blob whose bytes are all there:
    [len_] is byte 0, [min_] the low 4 bits of byte 1, [one_] bit 4 of byte 1,
    the next [len_] bytes go to the front of [pref_]; the 256-byte bitap
    table is read (complemented) exactly when [min_ > 1] and [len_ = 0]; after
    it 4096 complemented bytes go to [pmh_] when [min_ >= 4] and to [pma_]
    when [0 < min_ < 4]; with [min_ = 0] no table is read. *)
Theorem predictor_set_decodes (p : Pattern.Predictor) (blob : list Z) (x0 x1 : Z) :
  Pattern.sized p ->
  blob !! 0%nat = Some x0 -> blob !! 1%nat = Some x1 ->
  0 <= x0 < 256 ->
  (Predict.blob_size x0 x1 <= length blob)%nat ->
  let len := Z.to_nat x0 in
  let min := Z.land x1 0x0f in
  let bitap := (min >? 1) && (x0 =? 0) in
  let n := (2 + len + (if bitap then 256 else 0))%nat in
  exists p',
    Pattern.set p (Some blob) = Some p'
    /\ Pattern.len_ p' = x0
    /\ Pattern.min_ p' = x1 mod 16
    /\ Pattern.one_ p' = Z.testbit x1 4
    /\ Pattern.pref_ p' = Predict.slice id blob 2 len ++ drop len (Pattern.pref_ p)
    /\ Pattern.bit_ p'
       = (if bitap then Predict.slice Pattern.compl blob (2 + len) 256
          else Pattern.bit_ p)
    /\ Pattern.pmh_ p'
       = (if min >=? 4 then Predict.slice Pattern.compl blob n 4096
          else Pattern.pmh_ p)
    /\ Pattern.pma_ p'
       = (if (min >? 0) && negb (min >=? 4)
          then Predict.slice Pattern.compl blob n 4096
          else Pattern.pma_ p).
Proof.
  intros (Hpref & Hbit & Hpmh & Hpma) H0 H1 Hx0 Hsize len min bitap n.
  assert (min = x1 mod 16) as Hmin.
  { subst min. change 0x0f with (2 ^ 4 - 1). apply land_low_mask. lia. }
  assert (negb (Z.land x1 0x10 =? 0) = Z.testbit x1 4) as Hone.
  { apply (bit_set_testbit x1 4). lia. }
  unfold Predict.blob_size in Hsize. fold min in Hsize. fold bitap in Hsize.
  cbv zeta in Hsize.
  unfold Pattern.set. bind_step H0. bind_step H1.
  fold min. fold len.
  rewrite (copy_loop_prefix id blob (Pattern.pref_ p) 2 len) by lia.
  cbn [mbind option_bind].
  change (Z.to_nat Pattern.HASH) with 4096%nat.
  replace (Z.to_nat (x0 + 2)) with (2 + len)%nat by lia.
  replace (Z.to_nat (x0 + 2 + 256)) with (2 + len + 256)%nat by lia.
  rewrite Hone. fold bitap.
  destruct (min >? 0) eqn:Hpos.
  - destruct bitap eqn:Hbitap.
    + rewrite (copy_loop_full Pattern.compl blob (Pattern.bit_ p) (2 + len) 256)
        by (try exact Hbit; lia).
      cbn [mbind option_bind].
      replace (Z.to_nat (x0 + 2 + 256)) with n by (subst n; lia).
      destruct (min >=? 4) eqn:Hge.
      * rewrite (copy_loop_full Pattern.compl blob (Pattern.pmh_ p) n 4096)
          by (try exact Hpmh; subst n; lia).
        eexists. split; [reflexivity|]. cbn. repeat split; assumption.
      * rewrite (copy_loop_full Pattern.compl blob (Pattern.pma_ p) n 4096)
          by (try exact Hpma; subst n; lia).
        eexists. split; [reflexivity|]. cbn. repeat split; assumption.
    + cbn [mbind option_bind].
      replace (Z.to_nat (x0 + 2)) with n by (subst n; lia).
      destruct (min >=? 4) eqn:Hge.
      * rewrite (copy_loop_full Pattern.compl blob (Pattern.pmh_ p) n 4096)
          by (try exact Hpmh; subst n; lia).
        eexists. split; [reflexivity|]. cbn. repeat split; assumption.
      * rewrite (copy_loop_full Pattern.compl blob (Pattern.pma_ p) n 4096)
          by (try exact Hpma; subst n; lia).
        eexists. split; [reflexivity|]. cbn. repeat split; assumption.
  - assert (bitap = false) as Hbitap.
    { subst bitap. destruct (Z.gtb_spec min 1) as [Hgt|_]; [|reflexivity].
      destruct (Z.gtb_spec min 0); [discriminate|lia]. }
    assert ((min >=? 4) = false) as Hge.
    { rewrite Z.geb_leb. apply Z.leb_gt.
      destruct (Z.gtb_spec min 0); [discriminate|lia]. }
    rewrite Hbitap, Hge.
    eexists. split; [reflexivity|]. cbn. repeat split; assumption.
Qed.

Lemma predictor_set_decodes_witness :
  exists p',
    Pattern.set
      (Pattern.mkPredictor (replicate 256 0) 0 0 false (replicate 256 0)
                           (replicate 4096 0) (replicate 4096 0))
      (Some ([0; 0x12] ++ replicate 256 1 ++ replicate 4096 2)) = Some p'
    /\ Pattern.len_ p' = 0
    /\ Pattern.min_ p' = 2
    /\ Pattern.one_ p' = true
    /\ Pattern.bit_ p' = replicate 256 254
    /\ Pattern.pmh_ p' = replicate 4096 0
    /\ Pattern.pma_ p' = replicate 4096 253.
Proof.
  destruct (predictor_set_decodes
              (Pattern.mkPredictor (replicate 256 0) 0 0 false (replicate 256 0)
                                   (replicate 4096 0) (replicate 4096 0))
              ([0; 0x12] ++ replicate 256 1 ++ replicate 4096 2) 0 0x12)
    as (p' & Hset & Hlen & Hmin & Hone & _ & Hbit & Hpmh & Hpma).
  - repeat split; vm_compute; reflexivity.
  - reflexivity.
  - reflexivity.
  - lia.
  - apply Nat.leb_le. vm_compute. reflexivity.
  - exists p'. split; [exact Hset|].
    split; [exact Hlen|]. split; [exact Hmin|]. split; [exact Hone|].
    split; [rewrite Hbit; vm_compute; reflexivity|].
    split; [rewrite Hpmh; vm_compute; reflexivity|].
    rewrite Hpma; vm_compute; reflexivity.
Defined.

(** ** Reachability of a sub-pattern *)

Lemma size_le_length (p : Pattern.Pattern) :
  0 <= Pattern.size p <= Z.of_nat (length (Pattern.end_ p)).
Proof.
  unfold Pattern.size, u32.
  pose proof (Z.mod_pos_bound (Z.of_nat (length (Pattern.end_ p))) (2 ^ 32)).
  pose proof (Z.mod_le (Z.of_nat (length (Pattern.end_ p))) (2 ^ 32)).
  lia.
Qed.

Lemma at_in_range {A : Type} (v : list A) (i : Z) :
  0 <= i < Z.of_nat (length v) ->
  exists a, v !! Z.to_nat i = Some a /\ Pattern.at_ v i = Pattern.Ok a.
Proof.
  intros Hi. unfold Pattern.at_.
  destruct (Z.ltb_spec i (Z.of_nat (length v))) as [_|Hge]; [|lia].
  destruct (lookup_lt_is_Some_2 v (Z.to_nat i)) as [a Ha]; [lia|].
  exists a. rewrite Ha. split; reflexivity.
Qed.

(** C9.  [reachable(choice)] is [false] for [choice = 0] and for
    [choice > size()]; for [choice] in [1..size()] it is the bounds-checked
    read [acc_.at(choice - 1)], which, [acc_] holding a flag for every
    sub-pattern, is the stored flag: no index lets the query fail or read
    outside [acc_]. *)
Theorem reachable_guarded (p : Pattern.Pattern) (choice : Z) :
  0 <= choice < 2 ^ 32 ->
  (choice = 0 \/ choice > Pattern.size p ->
     Pattern.reachable p choice = Pattern.Ok false)
  /\ (1 <= choice <= Pattern.size p ->
     Pattern.reachable p choice = Pattern.at_ (Pattern.acc_ p) (choice - 1))
  /\ (Pattern.consistent p ->
      exists b,
        Pattern.reachable p choice = Pattern.Ok b
        /\ (1 <= choice <= Pattern.size p ->
            Pattern.acc_ p !! Z.to_nat (choice - 1) = Some b)
        /\ (b = true -> 1 <= choice <= Pattern.size p)).
Proof.
  intros Hc.
  assert (1 <= choice <= Pattern.size p ->
          Pattern.reachable p choice = Pattern.at_ (Pattern.acc_ p) (choice - 1))
    as Hin.
  { intros Hr. unfold Pattern.reachable.
    destruct (Z.geb_spec choice 1) as [_|Hlt]; [|lia].
    destruct (Z.leb_spec choice (Pattern.size p)) as [_|Hgt]; [|lia].
    cbn [andb]. unfold u32. rewrite Z.mod_small by lia. reflexivity. }
  assert (choice = 0 \/ choice > Pattern.size p ->
          Pattern.reachable p choice = Pattern.Ok false) as Hout.
  { intros Hr. unfold Pattern.reachable.
    destruct (Z.geb_spec choice 1) as [Hge|Hlt]; [|reflexivity].
    destruct (Z.leb_spec choice (Pattern.size p)) as [Hle|Hgt]; [lia|reflexivity]. }
  split; [exact Hout|]. split; [exact Hin|].
  intros Hcons. pose proof (size_le_length p) as Hsz.
  destruct (Z_le_gt_dec 1 choice) as [H1|H0].
  - destruct (Z_le_gt_dec choice (Pattern.size p)) as [Hle|Hgt].
    + destruct (at_in_range (Pattern.acc_ p) (choice - 1)) as (b & Hb & Hat).
      { unfold Pattern.consistent in Hcons. lia. }
      exists b. rewrite Hin by lia. split; [exact Hat|].
      split; [intros _; exact Hb | intros _; lia].
    + exists false. rewrite Hout by lia. split; [reflexivity|].
      split; [lia | discriminate].
  - exists false. rewrite Hout by lia. split; [reflexivity|].
    split; [lia | discriminate].
Qed.

Lemma reachable_guarded_witness :
  Pattern.reachable (Pattern.mkPattern [3; 7] [true; false]) 1
  = Pattern.at_ [true; false] (1 - 1)
  /\ Pattern.reachable (Pattern.mkPattern [3; 7] [true; false]) 3 = Pattern.Ok false
  /\ exists b,
      Pattern.reachable (Pattern.mkPattern [3; 7] [true; false]) 2 = Pattern.Ok b
      /\ (1 <= 2 <= Pattern.size (Pattern.mkPattern [3; 7] [true; false]) ->
          [true; false] !! Z.to_nat (2 - 1) = Some b)
      /\ (b = true -> 1 <= 2 <= Pattern.size (Pattern.mkPattern [3; 7] [true; false])).
Proof.
  split; [|split].
  - apply (reachable_guarded (Pattern.mkPattern [3; 7] [true; false]) 1); [lia|].
    vm_compute. intuition discriminate.
  - apply (reachable_guarded (Pattern.mkPattern [3; 7] [true; false]) 3); [lia|].
    right. vm_compute. reflexivity.
  - apply (reachable_guarded (Pattern.mkPattern [3; 7] [true; false]) 2); [lia|].
    unfold Pattern.consistent. simpl. lia.
Defined.

Example reachable_unsized_flags :
  Pattern.reachable (Pattern.mkPattern [3; 7] [true]) 2 = Pattern.Throw_out_of_range.
Proof. reflexivity. Qed.

Example reachable_values :
  map (Pattern.reachable (Pattern.mkPattern [3; 7] [true; false])) [0; 1; 2; 3; 4294967295]
  = [Pattern.Ok false; Pattern.Ok true; Pattern.Ok false; Pattern.Ok false;
     Pattern.Ok false].
Proof. vm_compute. reflexivity. Qed.

(** ** Error reporting of the generator *)

Lemma error_code_eqb_eq (a b : Error.error_code) :
  Error.error_code_eqb a b = true <-> a = b.
Proof.
  split.
  - destruct a, b; simpl; intros Heq; try reflexivity; discriminate.
  - intros ->. destruct b; reflexivity.
Qed.

(** C2.  [error(code, pos)] throws a [regex_error] exactly when [code] is
    [exceeds_limits] or the [throw_error] option is set, and the object thrown
    carries the code and the position; for any other code with the option
    unset the call returns; the message goes to the standard error stream
    exactly when [print_error] is set. *)
Theorem error_throws_iff (message : string -> string -> Z -> string)
    (opt_ : FSM_Generator.Option) (rex_ : string) (code : Error.error_code)
    (pos : Z) (stderr : list string) :
  let r := FSM_Generator.error message opt_ rex_ code pos stderr in
  let err := FSM_Generator.new_regex_error message code rex_ pos in
  ((exists e, r.2 = FSM_Generator.Throws e)
   <-> code = Error.exceeds_limits \/ FSM_Generator.throw_error opt_ = true)
  /\ (forall e, r.2 = FSM_Generator.Throws e ->
        e = err /\ Error.code_ e = code /\ Error.pos_ e = pos)
  /\ (code <> Error.exceeds_limits -> FSM_Generator.throw_error opt_ = false ->
        r.2 = FSM_Generator.Returns)
  /\ r.1 = (if FSM_Generator.print_error opt_
            then stderr ++ [Error.what err] else stderr).
Proof.
  intros r err. subst r err. unfold FSM_Generator.error.
  destruct (Error.error_code_eqb code Error.exceeds_limits) eqn:Hcode.
  - apply error_code_eqb_eq in Hcode. cbn [orb fst snd].
    split; [|split; [|split]].
    + split; [intros _; left; exact Hcode | intros _; eexists; reflexivity].
    + intros e [= <-]. repeat split.
    + intros Hne. contradiction.
    + reflexivity.
  - assert (code <> Error.exceeds_limits) as Hne.
    { intros Heq. apply error_code_eqb_eq in Heq. congruence. }
    cbn [orb]. destruct (FSM_Generator.throw_error opt_); cbn [fst snd].
    + split; [|split; [|split]].
      * split; [intros _; right; reflexivity | intros _; eexists; reflexivity].
      * intros e [= <-]. repeat split.
      * intros _ Hf. discriminate.
      * reflexivity.
    + split; [|split; [|split]].
      * split; [intros [e He]; discriminate | intros [Hc|Hc]; [contradiction|discriminate]].
      * intros e He. discriminate.
      * reflexivity.
      * reflexivity.
Qed.

Lemma error_throws_iff_witness :
  (FSM_Generator.error (fun m _ _ => m)
     (FSM_Generator.mkOption false 92 false false false false false false false
                             true false [] EmptyString EmptyString)
     "a)" Error.mismatched_parens 1 []).2 = FSM_Generator.Returns
  /\ exists e,
      (FSM_Generator.error (fun m _ _ => m)
         (FSM_Generator.mkOption false 92 false false false false false false false
                                 false false [] EmptyString EmptyString)
         "a)" Error.exceeds_limits 1 []).2 = FSM_Generator.Throws e.
Proof.
  split.
  - apply (error_throws_iff (fun m _ _ => m)); [discriminate | reflexivity].
  - apply (error_throws_iff (fun m _ _ => m)). left. reflexivity.
Defined.

Example error_prints_and_returns :
  FSM_Generator.error (fun m _ _ => m)
     (FSM_Generator.mkOption false 92 false false false false false false false
                             true false [] EmptyString EmptyString)
     "a)" Error.mismatched_parens 1 []
  = (["mismatched ( )"%string], FSM_Generator.Returns).
Proof. reflexivity. Qed.

(** ** Modifier maps *)

Lemma reversecase_neq (mode : Z) : FSM_Generator.reversecase mode <> mode.
Proof.
  unfold FSM_Generator.reversecase, u8. intros Heq.
  assert (Z.testbit ((Z.lxor mode 0x20) mod 2 ^ 8) 5 = Z.testbit mode 5) as Hb
    by (rewrite Heq; reflexivity).
  rewrite Z.mod_pow2_bits_low, Z.lxor_spec in Hb by lia.
  change (Z.testbit 0x20 5) with true in Hb.
  destruct (Z.testbit mode 5); discriminate.
Qed.

Section UpdateModified.
Context {L : Type} `{FSM_Generator.ORanges L}.
Import FSM_Generator.

Lemma update_modified_other (mode : Z) (modifiers : gmap Z L) (from to k : Z) :
  k <> mode -> update_modified mode modifiers from to !! k = modifiers !! k.
Proof.
  intros Hk. unfold update_modified.
  destruct (modifiers !! reversecase mode); apply lookup_insert_ne; congruence.
Qed.

Lemma update_modified_entry (mode : Z) (modifiers : gmap Z L) (from to loc : Z) :
  is_modified mode (update_modified mode modifiers from to) loc
  = is_modified mode modifiers loc
    || (oranges_find (oranges_range from to) loc
        && negb (is_modified (reversecase mode) modifiers loc)).
Proof.
  unfold update_modified, is_modified, entry.
  destruct (modifiers !! reversecase mode) as [rev|].
  - rewrite lookup_insert_eq, find_union, find_diff.
    destruct (modifiers !! mode); simpl; [reflexivity|].
    rewrite find_empty. reflexivity.
  - rewrite lookup_insert_eq, find_insert, andb_true_r.
    destruct (modifiers !! mode); simpl; [reflexivity|].
    rewrite find_empty. reflexivity.
Qed.

End UpdateModified.

(** C10.  [update_modified(mode, modifiers, from, to)] does not override the
    opposite-case modifier: the entry of [reversecase(mode)] is left as it
    is; when it exists, exactly the locations of [from..to] outside it are
    added to the entry of [mode]; and afterwards [is_modified] holds for
    [mode] at every location of [from..to] that the [reversecase(mode)] entry
    does not hold. *)
Theorem update_modified_respects_reverse {L : Type} `{FSM_Generator.ORanges L}
    (mode : Z) (modifiers : gmap Z L) (from to : Z) :
  let modifiers' := FSM_Generator.update_modified mode modifiers from to in
  modifiers' !! FSM_Generator.reversecase mode
  = modifiers !! FSM_Generator.reversecase mode
  /\ (forall rev,
        modifiers !! FSM_Generator.reversecase mode = Some rev ->
        modifiers' !! mode
        = Some (FSM_Generator.oranges_union
                  (FSM_Generator.entry modifiers mode)
                  (FSM_Generator.oranges_diff
                     (FSM_Generator.oranges_range from to) rev))
        /\ forall loc,
            FSM_Generator.is_modified mode modifiers' loc
            = FSM_Generator.is_modified mode modifiers loc
              || (FSM_Generator.oranges_find
                    (FSM_Generator.oranges_range from to) loc
                  && negb (FSM_Generator.oranges_find rev loc)))
  /\ (forall loc,
        FSM_Generator.oranges_find (FSM_Generator.oranges_range from to) loc = true ->
        FSM_Generator.is_modified (FSM_Generator.reversecase mode) modifiers loc
        = false ->
        FSM_Generator.is_modified mode modifiers' loc = true).
Proof.
  intros modifiers'. subst modifiers'. split; [|split].
  - apply update_modified_other. apply reversecase_neq.
  - intros rev Hrev. split.
    + unfold FSM_Generator.update_modified. rewrite Hrev. apply lookup_insert_eq.
    + intros loc. rewrite update_modified_entry.
      assert (FSM_Generator.is_modified (FSM_Generator.reversecase mode) modifiers loc
              = FSM_Generator.oranges_find rev loc) as ->
        by (unfold FSM_Generator.is_modified; rewrite Hrev; reflexivity).
      reflexivity.
  - intros loc Hin Hrev. rewrite update_modified_entry, Hin, Hrev.
    apply orb_true_r.
Qed.

Lemma update_modified_respects_reverse_witness :
  @FSM_Generator.is_modified _ FSM_Generator.oranges_fun 105
    (@FSM_Generator.update_modified _ FSM_Generator.oranges_fun 105
       {[ 73 := fun v => (2 <=? v) && (v <=? 4) ]} 0 5) 1 = true.
Proof.
  apply (@update_modified_respects_reverse _ FSM_Generator.oranges_fun 105
           {[ 73 := fun v => (2 <=? v) && (v <=? 4) ]} 0 5).
  - reflexivity.
  - vm_compute. reflexivity.
Defined.

Example update_modified_skips_reverse :
  map (@FSM_Generator.is_modified _ FSM_Generator.oranges_fun 105
         (@FSM_Generator.update_modified _ FSM_Generator.oranges_fun 105
            {[ 73 := fun v => (2 <=? v) && (v <=? 4) ]} 0 5))
      [0; 1; 2; 3; 4; 5; 6]
  = [true; true; false; false; false; true; false].
Proof. vm_compute. reflexivity. Qed.

(** ** The scan loop *)

Lemma scan_step (A : bool) (patterns : list (option Lexer.FSM)) (fuel : nat)
    (lx lx2 : Lexer.Lexer) :
  Lexer.pass patterns lx = Some lx2 ->
  Lexer.scan A patterns (S fuel) lx
  = if (Lexer.cap_ lx2 =? Lexer.REDO) && negb A
    then Lexer.scan A patterns fuel lx2
    else Lexer.Return (Lexer.cap_ lx2) lx2.
Proof. intros Hpass. cbn [Lexer.scan]. rewrite Hpass. reflexivity. Qed.

Lemma scan_never_redo (patterns : list (option Lexer.FSM)) (fuel : nat) :
  forall lx cap lx',
    Lexer.scan false patterns fuel lx = Lexer.Return cap lx' -> cap <> Lexer.REDO.
Proof.
  induction fuel as [|fuel IH]; intros lx cap lx' Hscan.
  - discriminate.
  - cbn [Lexer.scan] in Hscan.
    destruct (Lexer.pass patterns lx) as [lx2|]; [|discriminate].
    destruct (Z.eqb_spec (Lexer.cap_ lx2) Lexer.REDO) as [Heq|Hne]; cbn in Hscan.
    + apply (IH _ _ _ Hscan).
    + injection Hscan as <- _. exact Hne.
Qed.

(** A run that returns keeps its result when given more fuel. *)
Lemma scan_fuel_mono (A : bool) (patterns : list (option Lexer.FSM)) (fuel : nat) :
  forall lx cap lx',
    Lexer.scan A patterns fuel lx = Lexer.Return cap lx' ->
    Lexer.scan A patterns (S fuel) lx = Lexer.Return cap lx'.
Proof.
  induction fuel as [|fuel IH]; intros lx cap lx' Hscan; [discriminate|].
  destruct (Lexer.pass patterns lx) as [lx2|] eqn:Hpass.
  - rewrite (scan_step A patterns fuel lx lx2 Hpass) in Hscan.
    rewrite (scan_step A patterns (S fuel) lx lx2 Hpass).
    destruct ((Lexer.cap_ lx2 =? Lexer.REDO) && negb A); [|exact Hscan].
    apply IH. exact Hscan.
  - cbn [Lexer.scan] in Hscan. rewrite Hpass in Hscan. discriminate.
Qed.

(** A pass runs the FSM of the current pattern on the lexer with the
    matched text and the accept code cleared. *)
Lemma pass_runs_fsm (patterns : list (option Lexer.FSM)) (fsm : Lexer.FSM)
    (cap got peek ind ded col : Z) (str tab : list Z)
    (inp : BufferedInput.BufferedInput) (mrk : bool) (cur : nat) :
  patterns !! cur = Some (Some fsm) ->
  Lexer.pass patterns (Lexer.mkLexer cap str inp got peek mrk ind ded col tab cur)
  = fsm (Lexer.mkLexer 0 [] inp got peek mrk ind ded col tab cur).
Proof.
  intros Hfsm. unfold Lexer.pass, Lexer.restart. cbv zeta.
  cbn [Lexer.pattern_current Lexer.in_ Lexer.got_ Lexer.peek_ Lexer.mrk_
       Lexer.ind_ Lexer.ded_ Lexer.col_ Lexer.tab_].
  unfold Lexer.FSM in *. rewrite Hfsm. reflexivity.
Qed.

(** C1.  With option [A] off [scan()] never returns [REDO].  Every pass
    runs the FSM of the current pattern on the lexer with [str_] and [cap_]
    cleared.  When the FSM leaves [cap_ = REDO] and [A] is off, nothing is
    returned and scanning goes on from the state the FSM left: the next pass
    clears the matched text and the accept code of that state and runs the
    FSM on the input where the first stopped reading, so that its result is
    what [scan()] returns; with [A] on the first pass returns [REDO].  A pass
    that ends with another accept code returns it, and a pattern without
    FSM gives accept code 0. *)
Theorem scan_redo (patterns : list (option Lexer.FSM)) :
  (forall fuel lx cap lx',
      Lexer.scan false patterns fuel lx = Lexer.Return cap lx' ->
      cap <> Lexer.REDO)
  /\ (forall fuel fsm cap str inp got peek mrk ind ded col tab cur lx2,
      patterns !! cur = Some (Some fsm) ->
      fsm (Lexer.mkLexer 0 [] inp got peek mrk ind ded col tab cur) = Some lx2 ->
      Lexer.cap_ lx2 = Lexer.REDO ->
      Lexer.scan false patterns (S fuel)
        (Lexer.mkLexer cap str inp got peek mrk ind ded col tab cur)
      = Lexer.scan false patterns fuel lx2)
  /\ (forall fuel fsm fsm2 cap str inp got peek mrk ind ded col tab cur lx2 lx3,
      patterns !! cur = Some (Some fsm) ->
      fsm (Lexer.mkLexer 0 [] inp got peek mrk ind ded col tab cur) = Some lx2 ->
      Lexer.cap_ lx2 = Lexer.REDO ->
      patterns !! Lexer.pattern_current lx2 = Some (Some fsm2) ->
      fsm2 (Lexer.mkLexer 0 [] (Lexer.in_ lx2) (Lexer.got_ lx2) (Lexer.peek_ lx2)
              (Lexer.mrk_ lx2) (Lexer.ind_ lx2) (Lexer.ded_ lx2) (Lexer.col_ lx2)
              (Lexer.tab_ lx2) (Lexer.pattern_current lx2))
      = Some lx3 ->
      Lexer.cap_ lx3 <> Lexer.REDO ->
      Lexer.scan false patterns (S (S fuel))
        (Lexer.mkLexer cap str inp got peek mrk ind ded col tab cur)
      = Lexer.Return (Lexer.cap_ lx3) lx3)
  /\ (forall fuel fsm cap str inp got peek mrk ind ded col tab cur lx2,
      patterns !! cur = Some (Some fsm) ->
      fsm (Lexer.mkLexer 0 [] inp got peek mrk ind ded col tab cur) = Some lx2 ->
      Lexer.cap_ lx2 = Lexer.REDO ->
      Lexer.scan true patterns (S fuel)
        (Lexer.mkLexer cap str inp got peek mrk ind ded col tab cur)
      = Lexer.Return Lexer.REDO lx2)
  /\ (forall A fuel fsm cap str inp got peek mrk ind ded col tab cur lx2,
      patterns !! cur = Some (Some fsm) ->
      fsm (Lexer.mkLexer 0 [] inp got peek mrk ind ded col tab cur) = Some lx2 ->
      Lexer.cap_ lx2 <> Lexer.REDO ->
      Lexer.scan A patterns (S fuel)
        (Lexer.mkLexer cap str inp got peek mrk ind ded col tab cur)
      = Lexer.Return (Lexer.cap_ lx2) lx2)
  /\ (forall A fuel cap str inp got peek mrk ind ded col tab cur,
      patterns !! cur = Some None ->
      Lexer.scan A patterns (S fuel)
        (Lexer.mkLexer cap str inp got peek mrk ind ded col tab cur)
      = Lexer.Return 0 (Lexer.mkLexer 0 [] inp got peek mrk ind ded col tab cur)).
Proof.
  assert (forall A fuel fsm cap str inp got peek mrk ind ded col tab cur lx2,
             patterns !! cur = Some (Some fsm) ->
             fsm (Lexer.mkLexer 0 [] inp got peek mrk ind ded col tab cur) = Some lx2 ->
             Lexer.scan A patterns (S fuel)
               (Lexer.mkLexer cap str inp got peek mrk ind ded col tab cur)
             = if (Lexer.cap_ lx2 =? Lexer.REDO) && negb A
               then Lexer.scan A patterns fuel lx2
               else Lexer.Return (Lexer.cap_ lx2) lx2) as Hstep.
  { intros A fuel fsm cap str inp got peek mrk ind ded col tab cur lx2 Hfsm Hrun.
    apply scan_step. rewrite (pass_runs_fsm patterns fsm) by exact Hfsm. exact Hrun. }
  split; [exact (scan_never_redo patterns)|].
  split; [|split; [|split; [|split]]].
  - intros fuel fsm cap str inp got peek mrk ind ded col tab cur lx2 Hfsm Hrun Hcap.
    rewrite (Hstep false fuel fsm _ _ _ _ _ _ _ _ _ _ _ lx2 Hfsm Hrun), Hcap.
    reflexivity.
  - intros fuel fsm fsm2 cap str inp got peek mrk ind ded col tab cur lx2 lx3
           Hfsm Hrun Hcap Hfsm2 Hrun2 Hcap3.
    rewrite (Hstep false (S fuel) fsm _ _ _ _ _ _ _ _ _ _ _ lx2 Hfsm Hrun), Hcap.
    cbn [Z.eqb Pos.eqb andb negb].
    change ((Lexer.REDO =? Lexer.REDO) && true) with true. cbv iota.
    destruct lx2 as [cap2 str2 inp2 got2 peek2 mrk2 ind2 ded2 col2 tab2 cur2].
    cbn [Lexer.pattern_current Lexer.in_ Lexer.got_ Lexer.peek_ Lexer.mrk_
         Lexer.ind_ Lexer.ded_ Lexer.col_ Lexer.tab_] in Hfsm2, Hrun2.
    rewrite (Hstep false fuel fsm2 _ _ _ _ _ _ _ _ _ _ _ lx3 Hfsm2 Hrun2).
    destruct (Z.eqb_spec (Lexer.cap_ lx3) Lexer.REDO); [contradiction|reflexivity].
  - intros fuel fsm cap str inp got peek mrk ind ded col tab cur lx2 Hfsm Hrun Hcap.
    rewrite (Hstep true fuel fsm _ _ _ _ _ _ _ _ _ _ _ lx2 Hfsm Hrun), Hcap.
    reflexivity.
  - intros A fuel fsm cap str inp got peek mrk ind ded col tab cur lx2 Hfsm Hrun Hcap.
    rewrite (Hstep A fuel fsm _ _ _ _ _ _ _ _ _ _ _ lx2 Hfsm Hrun).
    destruct (Z.eqb_spec (Lexer.cap_ lx2) Lexer.REDO); [contradiction|reflexivity].
  - intros A fuel cap str inp got peek mrk ind ded col tab cur Hnull.
    cbn [Lexer.scan]. unfold Lexer.pass, Lexer.restart. cbv zeta.
    cbn [Lexer.pattern_current Lexer.in_ Lexer.got_ Lexer.peek_ Lexer.mrk_
         Lexer.ind_ Lexer.ded_ Lexer.col_ Lexer.tab_].
    unfold Lexer.FSM in *. rewrite Hnull. reflexivity.
Qed.

Lemma scan_redo_witness :
  Lexer.scan false [Some Lexer.sample_fsm] 2
    (Lexer.lexer_on 7 [1; 2] (BufferedInput.view [120; 97; 98] [0; 0; 0; 0] 0 1 1) 0)
  = Lexer.Return 1
      (Lexer.lexer_on 1 [97] (BufferedInput.view [98] [97; 0; 0; 0] 1 1 3) 97)
  /\ Lexer.scan true [Some Lexer.sample_fsm] 1
       (Lexer.lexer_on 7 [1; 2] (BufferedInput.view [120; 97; 98] [0; 0; 0; 0] 0 1 1) 0)
     = Lexer.Return Lexer.REDO
         (Lexer.lexer_on Lexer.REDO [120]
            (BufferedInput.view [97; 98] [120; 0; 0; 0] 1 1 2) 120)
  /\ 1 <> Lexer.REDO.
Proof.
  destruct (scan_redo [Some Lexer.sample_fsm]) as (Hnever & _ & Htwo & Hon & _).
  split; [|split].
  - apply (Htwo 0%nat Lexer.sample_fsm Lexer.sample_fsm 7 [1; 2]
             (BufferedInput.view [120; 97; 98] [0; 0; 0; 0] 0 1 1)
             0 0 false 0 0 0 [] 0%nat
             (Lexer.lexer_on Lexer.REDO [120]
                (BufferedInput.view [97; 98] [120; 0; 0; 0] 1 1 2) 120)
             (Lexer.lexer_on 1 [97] (BufferedInput.view [98] [97; 0; 0; 0] 1 1 3) 97));
      try reflexivity.
    vm_compute. discriminate.
  - apply (Hon 0%nat Lexer.sample_fsm 7 [1; 2]
             (BufferedInput.view [120; 97; 98] [0; 0; 0; 0] 0 1 1)
             0 0 false 0 0 0 [] 0%nat
             (Lexer.lexer_on Lexer.REDO [120]
                (BufferedInput.view [97; 98] [120; 0; 0; 0] 1 1 2) 120));
      reflexivity.
  - apply (Hnever 2%nat
             (Lexer.lexer_on 7 [1; 2]
                (BufferedInput.view [120; 97; 98] [0; 0; 0; 0] 0 1 1) 0)
             1
             (Lexer.lexer_on 1 [97] (BufferedInput.view [98] [97; 0; 0; 0] 1 1 3) 97)).
    reflexivity.
Defined.

Example scan_skips_negative_match :
  Lexer.scan false [Some Lexer.sample_fsm] 3
    (Lexer.lexer_on 0 [] (BufferedInput.view [120; 120; 97; 98] [0; 0; 0; 0] 0 1 1) 0)
  = Lexer.Return 1
      (Lexer.lexer_on 1 [97] (BufferedInput.view [98] [97; 0; 0; 0] 1 1 4) 97).
Proof. reflexivity. Qed.

Example scan_null_fsm :
  Lexer.scan false [None] 1
    (Lexer.lexer_on 7 [120] (BufferedInput.view [97] [0; 0; 0; 0] 0 1 1) 0)
  = Lexer.Return 0
      (Lexer.lexer_on 0 [] (BufferedInput.view [97] [0; 0; 0; 0] 0 1 1) 0).
Proof. reflexivity. Qed.

(** [FSM_CHAR] reads through the UTF-8 conversion of the input: a byte that
    cannot start a character, or a lead byte without its continuation bytes,
    is consumed and read as [EOF], and nothing is appended to [str_]. *)
Example FSM_CHAR_malformed :
  Lexer.FSM_CHAR
    (Lexer.lexer_on 0 [] (BufferedInput.view [0xBF; 0x61] [0; 0; 0; 0] 0 1 1) 0)
  = Some (Lexer.EOF,
          Lexer.lexer_on 0 [] (BufferedInput.view [0x61] [0; 0; 0; 0] 0 1 1) Lexer.EOF)
  /\ Lexer.FSM_CHAR
       (Lexer.lexer_on 0 [] (BufferedInput.view [0xE2; 0x61] [0; 0; 0; 0] 0 1 1) 0)
     = Some (Lexer.EOF,
             Lexer.lexer_on 0 [] (BufferedInput.view [0x61] [0; 0; 0; 0] 0 1 1) Lexer.EOF)
  /\ Lexer.FSM_CHAR
       (Lexer.lexer_on 0 [] (BufferedInput.view [0x61] [0; 0; 0; 0] 0 1 1) 0)
     = Some (0x61,
             Lexer.lexer_on 0 [0x61] (BufferedInput.view [] [0x61; 0; 0; 0] 1 1 2) 0x61).
Proof. repeat split. Qed.

Example scan_can_spin :
  forall fuel inp,
    Lexer.scan false [Some Lexer.redo_fsm] fuel (Lexer.lexer_on 0 [] inp 0)
    = Lexer.Out_of_fuel.
Proof.
  assert (forall fuel lx,
             Lexer.pattern_current lx = 0%nat ->
             Lexer.scan false [Some Lexer.redo_fsm] fuel lx = Lexer.Out_of_fuel)
    as Hspin.
  { induction fuel as [|fuel IH]; intros lx Hcur; [reflexivity|].
    destruct lx as [cap str inp got peek mrk ind ded col tab cur].
    cbn in Hcur. subst cur.
    cbn. apply IH. reflexivity. }
  intros fuel inp. apply Hspin. reflexivity.
Qed.

(** * Further properties of the code *)

(** ** UTF-8 conversion *)

(** A fact checked on all 256 byte values holds of every byte. *)
Lemma byte_cases (P : Z -> bool) :
  forallb P (seqZ 0 256) = true -> forall b, 0 <= b < 256 -> P b = true.
Proof.
  intros Hall b Hb. rewrite forallb_forall in Hall.
  apply Hall, list_elem_of_In, elem_of_seqZ. lia.
Qed.

Lemma u8_small (x : Z) : 0 <= x < 256 -> u8 x = x.
Proof. intros Hx. unfold u8. apply Z.mod_small. lia. Qed.

Lemma utf8_lead (tag k c j : Z) :
  0 <= k -> 0 <= j -> 0 <= tag ->
  Z.lor (tag * 2 ^ k) (Z.land (Z.shiftr c j) (2 ^ k - 1))
  = tag * 2 ^ k + (c / 2 ^ j) mod 2 ^ k.
Proof.
  intros Hk Hj Ht. rewrite Z.shiftr_div_pow2, land_low_mask by lia.
  apply lor_shifted; [lia|]. apply Z.mod_pos_bound. lia.
Qed.

Lemma utf8_lead2 (c : Z) :
  Z.lor 0xC0 (Z.land (Z.shiftr c 6) 0x1F) = 192 + (c / 64) mod 32.
Proof. apply (utf8_lead 6 5 c 6); lia. Qed.

Lemma utf8_lead3 (c : Z) :
  Z.lor 0xE0 (Z.land (Z.shiftr c 12) 0x0F) = 224 + (c / 4096) mod 16.
Proof. apply (utf8_lead 14 4 c 12); lia. Qed.

Lemma utf8_lead4 (c : Z) :
  Z.lor 0xF0 (Z.land (Z.shiftr c 18) 0x07) = 240 + (c / 262144) mod 8.
Proof. apply (utf8_lead 30 3 c 18); lia. Qed.

Lemma utf8_cont12 (c : Z) :
  Z.lor 0x80 (Z.land (Z.shiftr c 12) 0x3F) = 128 + (c / 4096) mod 64.
Proof. apply (utf8_lead 2 6 c 12); lia. Qed.

Lemma utf8_cont6 (c : Z) :
  Z.lor 0x80 (Z.land (Z.shiftr c 6) 0x3F) = 128 + (c / 64) mod 64.
Proof. apply (utf8_lead 2 6 c 6); lia. Qed.

Lemma utf8_cont0 (c : Z) :
  Z.lor 0x80 (Z.land c 0x3F) = 128 + c mod 64.
Proof.
  change 0x80 with (2 * 2 ^ 6). change 0x3F with (2 ^ 6 - 1).
  rewrite land_low_mask by lia.
  rewrite lor_shifted by (try lia; apply Z.mod_pos_bound; lia).
  reflexivity.
Qed.

(** The bytes of [to_utf8] written with division and remainder. *)
Lemma to_utf8_bytes_arith (c : Z) :
  0 <= c < 2 ^ 21 ->
  Utf8.to_utf8_bytes c
  = if c <? 0x80 then [c]
    else if c <? 0x800 then [192 + c / 64; 128 + c mod 64]
    else if c <? 0x10000
         then [224 + c / 4096; 128 + (c / 64) mod 64; 128 + c mod 64]
         else [240 + c / 262144; 128 + (c / 4096) mod 64;
               128 + (c / 64) mod 64; 128 + c mod 64].
Proof.
  intros Hc. unfold Utf8.to_utf8_bytes.
  rewrite utf8_lead2, utf8_lead3, utf8_lead4, utf8_cont12, utf8_cont6, utf8_cont0.
  destruct (Z.ltb_spec c 128) as [H1|H1].
  { rewrite u8_small by lia. reflexivity. }
  destruct (Z.ltb_spec c 2048) as [H2|H2].
  { cbn [app]. rewrite !u8_small by (Z.div_mod_to_equations; lia).
    f_equal. Z.div_mod_to_equations. lia. }
  destruct (Z.ltb_spec c 65536) as [H3|H3].
  { cbn [app]. rewrite !u8_small by (Z.div_mod_to_equations; lia).
    f_equal. Z.div_mod_to_equations. lia. }
  cbn [app]. rewrite !u8_small by (Z.div_mod_to_equations; lia).
  f_equal. Z.div_mod_to_equations. lia.
Qed.

Lemma land_mod (x k m : Z) : m = 2 ^ k - 1 -> 0 <= k -> Z.land x m = x mod 2 ^ k.
Proof. intros -> Hk. apply land_low_mask. exact Hk. Qed.

Lemma from_utf8_1 (b0 : Z) (rest : list Z) :
  0 <= b0 < 128 -> Utf8.from_utf8 (b0 :: rest) = Some (b0, 1%nat).
Proof.
  intros Hb. unfold Utf8.from_utf8.
  change ((b0 :: rest) !! 0%nat) with (Some b0). cbn [mbind option_bind].
  rewrite u8_small by lia.
  destruct (Z.ltb_spec b0 128); [reflexivity|lia].
Qed.

Lemma from_utf8_stray (b0 : Z) (rest : list Z) :
  128 <= b0 < 192 -> Utf8.from_utf8 (b0 :: rest) = Some (b0, 0%nat).
Proof.
  intros Hb. unfold Utf8.from_utf8.
  change ((b0 :: rest) !! 0%nat) with (Some b0). cbn [mbind option_bind].
  rewrite u8_small by lia.
  destruct (Z.ltb_spec b0 128); [lia|].
  destruct (Z.geb_spec b0 240); [lia|].
  destruct (Z.geb_spec b0 224); [lia|].
  destruct (Z.geb_spec b0 192); [lia|reflexivity].
Qed.

Lemma from_utf8_2 (b0 b1 : Z) (rest : list Z) :
  192 <= b0 < 224 -> 0 <= b1 < 256 ->
  Utf8.from_utf8 (b0 :: b1 :: rest)
  = Some (b0 mod 32 * 64 + b1 mod 64, 2%nat).
Proof.
  intros Hb0 Hb1. unfold Utf8.from_utf8.
  change ((b0 :: b1 :: rest) !! 0%nat) with (Some b0).
  change ((b0 :: b1 :: rest) !! 1%nat) with (Some b1).
  cbn [mbind option_bind]. rewrite !u8_small by lia.
  destruct (Z.ltb_spec b0 128); [lia|].
  destruct (Z.geb_spec b0 240); [lia|].
  destruct (Z.geb_spec b0 224); [lia|].
  destruct (Z.geb_spec b0 192); [|lia].
  cbv zeta. do 2 f_equal.
  rewrite (land_mod b0 5 31), (land_mod b1 6 63) by (reflexivity || lia).
  rewrite Z.shiftl_mul_pow2 by lia.
  apply lor_shifted; [lia|]. apply Z.mod_pos_bound. lia.
Qed.

Lemma from_utf8_3 (b0 b1 b2 : Z) (rest : list Z) :
  224 <= b0 < 240 -> 0 <= b1 < 256 -> 0 <= b2 < 256 ->
  Utf8.from_utf8 (b0 :: b1 :: b2 :: rest)
  = Some (b0 mod 16 * 4096 + b1 mod 64 * 64 + b2 mod 64, 3%nat).
Proof.
  intros Hb0 Hb1 Hb2. unfold Utf8.from_utf8.
  change ((b0 :: b1 :: b2 :: rest) !! 0%nat) with (Some b0).
  change ((b0 :: b1 :: b2 :: rest) !! 1%nat) with (Some b1).
  change ((b0 :: b1 :: b2 :: rest) !! 2%nat) with (Some b2).
  cbn [mbind option_bind]. rewrite !u8_small by lia.
  destruct (Z.ltb_spec b0 128); [lia|].
  destruct (Z.geb_spec b0 240); [lia|].
  destruct (Z.geb_spec b0 224); [|lia].
  cbv zeta. do 2 f_equal.
  rewrite (land_mod b0 4 15), (land_mod b1 6 63), (land_mod b2 6 63)
    by (reflexivity || lia).
  rewrite !Z.shiftl_mul_pow2 by lia.
  pose proof (Z.mod_pos_bound b0 (2 ^ 4)). pose proof (Z.mod_pos_bound b1 (2 ^ 6)).
  pose proof (Z.mod_pos_bound b2 (2 ^ 6)).
  rewrite (lor_shifted (b0 mod 2 ^ 4) (b1 mod 2 ^ 6 * 2 ^ 6) 12) by lia.
  replace (b0 mod 2 ^ 4 * 2 ^ 12 + b1 mod 2 ^ 6 * 2 ^ 6)
    with ((b0 mod 2 ^ 4 * 2 ^ 6 + b1 mod 2 ^ 6) * 2 ^ 6) by lia.
  rewrite lor_shifted by lia.
  change (2 ^ 4) with 16. change (2 ^ 6) with 64. lia.
Qed.

Lemma from_utf8_4 (b0 b1 b2 b3 : Z) (rest : list Z) :
  240 <= b0 < 256 -> 0 <= b1 < 256 -> 0 <= b2 < 256 -> 0 <= b3 < 256 ->
  Utf8.from_utf8 (b0 :: b1 :: b2 :: b3 :: rest)
  = Some (b0 mod 8 * 262144 + b1 mod 64 * 4096 + b2 mod 64 * 64 + b3 mod 64,
          4%nat).
Proof.
  intros Hb0 Hb1 Hb2 Hb3. unfold Utf8.from_utf8.
  change ((b0 :: b1 :: b2 :: b3 :: rest) !! 0%nat) with (Some b0).
  change ((b0 :: b1 :: b2 :: b3 :: rest) !! 1%nat) with (Some b1).
  change ((b0 :: b1 :: b2 :: b3 :: rest) !! 2%nat) with (Some b2).
  change ((b0 :: b1 :: b2 :: b3 :: rest) !! 3%nat) with (Some b3).
  cbn [mbind option_bind]. rewrite !u8_small by lia.
  destruct (Z.ltb_spec b0 128); [lia|].
  destruct (Z.geb_spec b0 240); [|lia].
  cbv zeta. do 2 f_equal.
  rewrite (land_mod b0 3 7), (land_mod b1 6 63), (land_mod b2 6 63),
    (land_mod b3 6 63) by (reflexivity || lia).
  rewrite !Z.shiftl_mul_pow2 by lia.
  pose proof (Z.mod_pos_bound b0 (2 ^ 3)). pose proof (Z.mod_pos_bound b1 (2 ^ 6)).
  pose proof (Z.mod_pos_bound b2 (2 ^ 6)). pose proof (Z.mod_pos_bound b3 (2 ^ 6)).
  rewrite (lor_shifted (b0 mod 2 ^ 3) (b1 mod 2 ^ 6 * 2 ^ 12) 18) by lia.
  replace (b0 mod 2 ^ 3 * 2 ^ 18 + b1 mod 2 ^ 6 * 2 ^ 12)
    with ((b0 mod 2 ^ 3 * 2 ^ 6 + b1 mod 2 ^ 6) * 2 ^ 12) by lia.
  rewrite (lor_shifted _ (b2 mod 2 ^ 6 * 2 ^ 6) 12) by lia.
  replace ((b0 mod 2 ^ 3 * 2 ^ 6 + b1 mod 2 ^ 6) * 2 ^ 12 + b2 mod 2 ^ 6 * 2 ^ 6)
    with (((b0 mod 2 ^ 3 * 2 ^ 6 + b1 mod 2 ^ 6) * 2 ^ 6 + b2 mod 2 ^ 6) * 2 ^ 6)
    by lia.
  rewrite lor_shifted by lia.
  change (2 ^ 3) with 8. change (2 ^ 6) with 64. lia.
Qed.

Lemma to_utf8_bytes_high (c : Z) :
  0x80 <= c < 2 ^ 21 -> Forall (fun x => 0x80 <= x) (Utf8.to_utf8_bytes c).
Proof.
  intros Hc. rewrite to_utf8_bytes_arith by lia.
  destruct (Z.ltb_spec c 128); [lia|].
  destruct (c <? 2048); [|destruct (c <? 65536)];
    repeat constructor; Z.div_mod_to_equations; lia.
Qed.

(** X1.  [to_utf8] stores 1, 2, 3 or 4 bytes according to the range of the
    character (below 0x80, 0x800, 0x10000, or above), every byte is in
    [0..255], the first byte is below 0x80 or at least 0xC0, and every
    further byte is a continuation byte in [0x80..0xBF]. *)
Theorem to_utf8_shape (c : Z) :
  0 <= c < 2 ^ 21 ->
  Z.of_nat (length (Utf8.to_utf8_bytes c))
  = (if c <? 0x80 then 1 else if c <? 0x800 then 2
     else if c <? 0x10000 then 3 else 4)
  /\ (exists b0 tl,
        Utf8.to_utf8_bytes c = b0 :: tl
        /\ (0 <= b0 < 0x80 \/ 0xC0 <= b0 < 0x100)
        /\ (b0 < 0x80 <-> c < 0x80)
        /\ Forall (fun b => 0x80 <= b < 0xC0) tl).
Proof.
  intros Hc. rewrite to_utf8_bytes_arith by exact Hc.
  destruct (Z.ltb_spec c 128) as [H1|H1].
  { split; [reflexivity|]. exists c, []. repeat split; try lia. constructor. }
  destruct (Z.ltb_spec c 2048) as [H2|H2].
  { split; [reflexivity|]. eexists _, _. split; [reflexivity|].
    repeat split; try (Z.div_mod_to_equations; lia).
    repeat constructor; Z.div_mod_to_equations; lia. }
  destruct (Z.ltb_spec c 65536) as [H3|H3].
  { split; [reflexivity|]. eexists _, _. split; [reflexivity|].
    repeat split; try (Z.div_mod_to_equations; lia).
    repeat constructor; Z.div_mod_to_equations; lia. }
  split; [reflexivity|]. eexists _, _. split; [reflexivity|].
  repeat split; try (Z.div_mod_to_equations; lia).
  repeat constructor; Z.div_mod_to_equations; lia.
Qed.

Lemma to_utf8_shape_witness :
  Z.of_nat (length (Utf8.to_utf8_bytes 0x20AC))
  = (if 0x20AC <? 0x80 then 1 else if 0x20AC <? 0x800 then 2
     else if 0x20AC <? 0x10000 then 3 else 4).
Proof. apply (to_utf8_shape 0x20AC). lia. Defined.

Lemma from_utf8_encoded (c : Z) (rest : list Z) :
  0 <= c < 2 ^ 21 ->
  Utf8.from_utf8 (Utf8.to_utf8_bytes c ++ rest)
  = Some (c, length (Utf8.to_utf8_bytes c)).
Proof.
  intros Hc. rewrite to_utf8_bytes_arith by exact Hc.
  destruct (Z.ltb_spec c 128) as [H1|H1].
  { cbn [app length]. apply from_utf8_1. lia. }
  destruct (Z.ltb_spec c 2048) as [H2|H2].
  { cbn [app length]. rewrite from_utf8_2 by (Z.div_mod_to_equations; lia).
    do 2 f_equal. Z.div_mod_to_equations. lia. }
  destruct (Z.ltb_spec c 65536) as [H3|H3].
  { cbn [app length]. rewrite from_utf8_3 by (Z.div_mod_to_equations; lia).
    do 2 f_equal. Z.div_mod_to_equations. lia. }
  cbn [app length]. rewrite from_utf8_4 by (Z.div_mod_to_equations; lia).
  do 2 f_equal. Z.div_mod_to_equations. lia.
Qed.

(** X2.  Decoding what [to_utf8] stored gives the character back and moves
    the position past exactly the bytes stored, to whatever follows them;
    this holds for every 21-bit value, so also for [ERR_CHAR]. *)
Theorem from_utf8_to_utf8 (c : Z) (rest : list Z) :
  0 <= c < 2 ^ 21 ->
  exists k,
    Utf8.from_utf8 (Utf8.to_utf8_bytes c ++ rest) = Some (c, k)
    /\ k = length (Utf8.to_utf8_bytes c)
    /\ drop k (Utf8.to_utf8_bytes c ++ rest) = rest.
Proof.
  intros Hc. exists (length (Utf8.to_utf8_bytes c)).
  split; [apply from_utf8_encoded; exact Hc|].
  split; [reflexivity|]. apply drop_app_length.
Qed.

Lemma from_utf8_to_utf8_witness :
  exists k,
    Utf8.from_utf8 (Utf8.to_utf8_bytes 0x1F600 ++ [97]) = Some (0x1F600, k)
    /\ k = length (Utf8.to_utf8_bytes 0x1F600)
    /\ drop k (Utf8.to_utf8_bytes 0x1F600 ++ [97]) = [97].
Proof. apply from_utf8_to_utf8. lia. Defined.
Lemma continuation_test (b : Z) :
  0 <= b < 256 -> (Z.land b 0xC0 =? 0x80) = (128 <=? b) && (b <? 192).
Proof.
  intros Hb.
  apply eqb_prop.
  apply (byte_cases (fun b => Bool.eqb (Z.land b 0xC0 =? 0x80)
                                       ((128 <=? b) && (b <? 192))));
    [vm_compute; reflexivity | exact Hb].
Qed.

Lemma u32size_acc (l : list Z) (acc : Z) :
  fold_left (fun n b => n + (if Z.land b 0xC0 =? 0x80 then 0 else 1)) l acc
  = acc + Utf8.u32size l.
Proof.
  unfold Utf8.u32size. revert acc.
  induction l as [|b l IH]; intros acc; cbn [fold_left]; [lia|].
  rewrite IH, (IH (0 + _)). lia.
Qed.

Lemma u32size_app (a b : list Z) :
  Utf8.u32size (a ++ b) = Utf8.u32size a + Utf8.u32size b.
Proof.
  unfold Utf8.u32size at 1. rewrite fold_left_app.
  fold (Utf8.u32size a). apply u32size_acc.
Qed.

Lemma u32size_cons (b : Z) (l : list Z) :
  0 <= b < 256 ->
  Utf8.u32size (b :: l)
  = (if (128 <=? b) && (b <? 192) then 0 else 1) + Utf8.u32size l.
Proof.
  intros Hb. unfold Utf8.u32size at 1. cbn [fold_left].
  rewrite u32size_acc, continuation_test by exact Hb. reflexivity.
Qed.

Lemma u32size_to_utf8 (c : Z) :
  0 <= c < 2 ^ 21 -> Utf8.u32size (Utf8.to_utf8_bytes c) = 1.
Proof.
  intros Hc. rewrite to_utf8_bytes_arith by exact Hc.
  assert (Utf8.u32size [] = 0) as Hnil by reflexivity.
  destruct (Z.ltb_spec c 128) as [H1|H1].
  { rewrite u32size_cons, Hnil by lia.
    destruct (Z.leb_spec 128 c); [lia|reflexivity]. }
  destruct (Z.ltb_spec c 2048) as [H2|H2].
  { rewrite !u32size_cons, Hnil by (Z.div_mod_to_equations; lia).
    destruct (Z.leb_spec 128 (192 + c / 64)); [|Z.div_mod_to_equations; lia].
    destruct (Z.ltb_spec (192 + c / 64) 192); [Z.div_mod_to_equations; lia|].
    destruct (Z.leb_spec 128 (128 + c mod 64)); [|Z.div_mod_to_equations; lia].
    destruct (Z.ltb_spec (128 + c mod 64) 192); [|Z.div_mod_to_equations; lia].
    reflexivity. }
  destruct (Z.ltb_spec c 65536) as [H3|H3].
  { rewrite !u32size_cons, Hnil by (Z.div_mod_to_equations; lia).
    destruct (Z.leb_spec 128 (224 + c / 4096)); [|Z.div_mod_to_equations; lia].
    destruct (Z.ltb_spec (224 + c / 4096) 192); [Z.div_mod_to_equations; lia|].
    destruct (Z.leb_spec 128 (128 + (c / 64) mod 64)); [|Z.div_mod_to_equations; lia].
    destruct (Z.ltb_spec (128 + (c / 64) mod 64) 192); [|Z.div_mod_to_equations; lia].
    destruct (Z.leb_spec 128 (128 + c mod 64)); [|Z.div_mod_to_equations; lia].
    destruct (Z.ltb_spec (128 + c mod 64) 192); [|Z.div_mod_to_equations; lia].
    reflexivity. }
  rewrite !u32size_cons, Hnil by (Z.div_mod_to_equations; lia).
  destruct (Z.leb_spec 128 (240 + c / 262144)); [|Z.div_mod_to_equations; lia].
  destruct (Z.ltb_spec (240 + c / 262144) 192); [Z.div_mod_to_equations; lia|].
  destruct (Z.leb_spec 128 (128 + (c / 4096) mod 64)); [|Z.div_mod_to_equations; lia].
  destruct (Z.ltb_spec (128 + (c / 4096) mod 64) 192); [|Z.div_mod_to_equations; lia].
  destruct (Z.leb_spec 128 (128 + (c / 64) mod 64)); [|Z.div_mod_to_equations; lia].
  destruct (Z.ltb_spec (128 + (c / 64) mod 64) 192); [|Z.div_mod_to_equations; lia].
  destruct (Z.leb_spec 128 (128 + c mod 64)); [|Z.div_mod_to_equations; lia].
  destruct (Z.ltb_spec (128 + c mod 64) 192); [|Z.div_mod_to_equations; lia].
  reflexivity.
Qed.

(** X3.  [u32size] of the UTF-8 text of a sequence of characters is the
    number of characters. *)
Theorem u32size_encode (cs : list Z) :
  Forall (fun c => 0 <= c < 2 ^ 21) cs ->
  Utf8.u32size (Utf8.encode cs) = Z.of_nat (length cs).
Proof.
  intros Hcs. unfold Utf8.encode.
  induction Hcs as [|c cs Hc _ IH]; [reflexivity|].
  cbn [fmap list_fmap concat length].
  rewrite u32size_app, u32size_to_utf8 by exact Hc.
  fold (fmap Utf8.to_utf8_bytes cs). rewrite IH. lia.
Qed.

Lemma u32size_encode_witness :
  Utf8.u32size (Utf8.encode [0x61; 0xE9; 0x20AC; 0x1F600]) = Z.of_nat (length [0x61; 0xE9; 0x20AC; 0x1F600]).
Proof. apply u32size_encode. repeat constructor; lia. Defined.
Lemma u32cs_loop_encode (t : Z) (rest : list Z) (n : Z) :
  0 <= t < 128 ->
  forall (cs : list Z) (fuel : nat) (lc : Z) (acc : list Z),
    Forall (fun c => 0 <= c < 2 ^ 21) cs ->
    lc + Z.of_nat (length (Utf8.encode cs)) = n ->
    (length cs + 2 <= fuel)%nat ->
    Utf8.u32cs_loop fuel (Utf8.encode cs ++ t :: rest) n lc acc
    = Utf8.Finished (acc ++ cs ++ [t]).
Proof.
  intros Ht cs. induction cs as [|c cs IH]; intros fuel lc acc Hcs Hlc Hfuel.
  - cbn [Utf8.encode fmap list_fmap concat app length] in *.
    destruct fuel as [|[|fuel]]; [lia|lia|].
    cbn [Utf8.u32cs_loop].
    destruct (Z.leb_spec lc n); [|lia].
    rewrite from_utf8_1 by exact Ht.
    destruct (Z.leb_spec (lc + Z.of_nat 1) n); [lia|]. reflexivity.
  - apply Forall_cons in Hcs as [Hc Hcs'].
    unfold Utf8.encode in *. cbn [fmap list_fmap concat length] in *.
    fold (fmap Utf8.to_utf8_bytes cs) in *.
    rewrite length_app in Hlc.
    destruct fuel as [|fuel]; [lia|].
    cbn [Utf8.u32cs_loop].
    destruct (Z.leb_spec lc n); [|lia].
    rewrite <- app_assoc. rewrite from_utf8_encoded by exact Hc.
    rewrite drop_app_length.
    rewrite IH by (try assumption; lia).
    rewrite <- app_assoc. reflexivity.
Qed.

(** X4.  [u32cs(s, n)] on the UTF-8 text of [cs] followed by a terminator
    below 0x80 returns the characters of [cs] and then the terminator: the
    loop runs while the count is [<= n], so the byte after the text is
    converted too. *)
Theorem u32cs_appends_terminator (cs : list Z) (t : Z) (rest : list Z)
    (fuel : nat) :
  Forall (fun c => 0 <= c < 2 ^ 21) cs -> 0 <= t < 128 ->
  (length cs + 2 <= fuel)%nat ->
  Utf8.u32cs fuel (Utf8.encode cs ++ t :: rest)
             (Z.of_nat (length (Utf8.encode cs)))
  = Utf8.Finished (cs ++ [t]).
Proof.
  intros Hcs Ht Hfuel. unfold Utf8.u32cs.
  rewrite (u32cs_loop_encode t rest _ Ht cs fuel 0 []) by (try assumption; lia).
  reflexivity.
Qed.

Lemma u32cs_loop_stray (b : Z) (rest : list Z) (n : Z) :
  128 <= b < 192 ->
  forall (fuel : nat) (lc : Z) (acc : list Z),
    lc <= n -> Utf8.u32cs_loop fuel (b :: rest) n lc acc = Utf8.Out_of_fuel.
Proof.
  intros Hb fuel. induction fuel as [|fuel IH]; intros lc acc Hlc; [reflexivity|].
  cbn [Utf8.u32cs_loop]. destruct (Z.leb_spec lc n); [|lia].
  rewrite from_utf8_stray by exact Hb. cbn [drop]. apply IH. lia.
Qed.

(** X5.  On a byte in [0x80..0xBF] where a character should start,
    [from_utf8] returns the byte and does not move the position, so [u32cs]
    makes no progress there: no amount of fuel lets it finish. *)
Theorem u32cs_stuck_on_continuation (b : Z) (rest : list Z) (n : Z) (fuel : nat) :
  128 <= b < 192 -> 0 <= n ->
  Utf8.from_utf8 (b :: rest) = Some (b, 0%nat)
  /\ Utf8.u32cs fuel (b :: rest) n = Utf8.Out_of_fuel.
Proof.
  intros Hb Hn. split; [apply from_utf8_stray; exact Hb|].
  apply u32cs_loop_stray; assumption.
Qed.

Lemma u32cs_appends_terminator_witness :
  Utf8.u32cs 4 (Utf8.encode [0x61; 0x20AC] ++ [0])
             (Z.of_nat (length (Utf8.encode [0x61; 0x20AC])))
  = Utf8.Finished ([0x61; 0x20AC] ++ [0]).
Proof.
  apply u32cs_appends_terminator.
  - repeat constructor; lia.
  - lia.
  - simpl. lia.
Defined.

Lemma u32cs_stuck_on_continuation_witness :
  Utf8.from_utf8 [0x80; 0x61] = Some (0x80, 0%nat)
  /\ Utf8.u32cs 100 [0x80; 0x61] 2 = Utf8.Out_of_fuel.
Proof. apply u32cs_stuck_on_continuation; lia. Defined.

(** ** Converting input to UTF-8 *)

Lemma byte_split (x : Z) (k : Z) :
  0 <= k -> Z.land (Z.shiftr x k) 0xFF = (x / 2 ^ k) mod 256.
Proof.
  intros Hk. rewrite Z.shiftr_div_pow2 by lia.
  apply (land_mod _ 8 0xFF); [reflexivity|lia].
Qed.

Lemma to_utf32be_arith (c : Z) :
  Utf8.to_utf32be c
  = [(c / 16777216) mod 256; (c / 65536) mod 256; (c / 256) mod 256; c mod 256].
Proof.
  unfold Utf8.to_utf32be. rewrite !byte_split by lia.
  rewrite (land_mod c 8 0xFF) by (reflexivity || lia). reflexivity.
Qed.

Lemma join4 (b0 b1 b2 b3 : Z) :
  0 <= b0 < 256 -> 0 <= b1 < 256 -> 0 <= b2 < 256 -> 0 <= b3 < 256 ->
  Z.lor (Z.lor (Z.lor (Z.shiftl b0 24) (Z.shiftl b1 16)) (Z.shiftl b2 8)) b3
  = b0 * 16777216 + b1 * 65536 + b2 * 256 + b3.
Proof.
  intros H0 H1 H2 H3. rewrite !Z.shiftl_mul_pow2 by lia.
  rewrite (lor_shifted b0 (b1 * 2 ^ 16) 24) by lia.
  replace (b0 * 2 ^ 24 + b1 * 2 ^ 16) with ((b0 * 2 ^ 8 + b1) * 2 ^ 16) by lia.
  rewrite (lor_shifted _ (b2 * 2 ^ 8) 16) by lia.
  replace ((b0 * 2 ^ 8 + b1) * 2 ^ 16 + b2 * 2 ^ 8)
    with (((b0 * 2 ^ 8 + b1) * 2 ^ 8 + b2) * 2 ^ 8) by lia.
  rewrite lor_shifted by lia. lia.
Qed.

Lemma join2 (b0 b1 : Z) :
  0 <= b0 < 256 -> 0 <= b1 < 256 ->
  Z.lor (Z.shiftl b0 8) b1 = b0 * 256 + b1.
Proof.
  intros H0 H1. rewrite Z.shiftl_mul_pow2 by lia.
  rewrite lor_shifted by lia. lia.
Qed.

Lemma to_utf8_bytes_small (c : Z) : 0 <= c < 128 -> Utf8.to_utf8_bytes c = [c].
Proof.
  intros Hc. unfold Utf8.to_utf8_bytes.
  destruct (Z.ltb_spec c 128); [|lia]. rewrite u8_small by lia. reflexivity.
Qed.

Lemma put_to_utf8 (c : Z) (i : Input.Input) :
  0 <= c ->
  Input.put c i
  = if c <=? Utf8.UNICODE_MAX then Some (Utf8.to_utf8_bytes c, i) else None.
Proof.
  intros Hc. unfold Input.put, Utf8.to_utf8, Utf8.UNICODE_MAX.
  destruct (Z.ltb_spec c 128).
  - rewrite to_utf8_bytes_small by lia.
    destruct (Z.leb_spec c 1114111); [reflexivity|lia].
  - destruct (c <=? 1114111); reflexivity.
Qed.

(** X6.  Reading with [encoding::utf32be] the four bytes that [to_utf32be]
    produces for [c] yields the UTF-8 bytes of [c] and consumes exactly those
    four bytes, for every [c] up to [UNICODE_MAX]; a larger 32-bit value fails
    the assertion of [to_utf8]. *)
Theorem get_utf32be_to_utf32be (c : Z) (page rest : list Z) :
  0 <= c < 2 ^ 32 ->
  Input.get (Input.mkInput Input.utf32be page (Utf8.to_utf32be c ++ rest))
  = if c <=? Utf8.UNICODE_MAX
    then Some (Utf8.to_utf8_bytes c, Input.mkInput Input.utf32be page rest)
    else None.
Proof.
  intros Hc. rewrite to_utf32be_arith.
  unfold Input.get. cbn [Input.enc_].
  unfold Input.get_raw_item. cbn [Input.data_ app length Nat.ltb Nat.leb].
  cbn [take drop fmap list_fmap nth Input.with_data Input.enc_ Input.page_].
  rewrite !u8_small by (apply Z.mod_pos_bound; lia).
  rewrite join4 by (apply Z.mod_pos_bound; lia).
  replace (c / 16777216 mod 256 * 16777216 + c / 65536 mod 256 * 65536
           + c / 256 mod 256 * 256 + c mod 256) with c
    by (Z.div_mod_to_equations; lia).
  unfold u32. rewrite Z.mod_small by lia.
  apply put_to_utf8. lia.
Qed.

Lemma get_utf32be_to_utf32be_witness :
  Input.get (Input.mkInput Input.utf32be [] (Utf8.to_utf32be 0x1F600 ++ [0; 0; 0; 97]))
  = if 0x1F600 <=? Utf8.UNICODE_MAX
    then Some (Utf8.to_utf8_bytes 0x1F600,
               Input.mkInput Input.utf32be [] [0; 0; 0; 97])
    else None.
Proof. apply get_utf32be_to_utf32be. lia. Defined.

Lemma low_surrogate_test (b : Z) :
  0 <= b < 256 -> (Z.land b 0xFC =? 0xDC) = (0xDC <=? b) && (b <=? 0xDF).
Proof.
  intros Hb. apply eqb_prop.
  apply (byte_cases (fun b => Bool.eqb (Z.land b 0xFC =? 0xDC)
                                       ((0xDC <=? b) && (b <=? 0xDF))));
    [vm_compute; reflexivity | exact Hb].
Qed.

(** The character a surrogate pair stands for. *)
Lemma surrogate_value (hi lo : Z) :
  0xD800 <= hi < 0xDC00 -> 0xDC00 <= lo < 0xE000 ->
  u32 (0x010000 - 0xDC00 + Z.shiftl (hi - 0xD800) 10 + lo)
  = 0x10000 + (hi - 0xD800) * 1024 + (lo - 0xDC00)
  /\ 0x10000 <= 0x10000 + (hi - 0xD800) * 1024 + (lo - 0xDC00) <= Utf8.UNICODE_MAX.
Proof.
  intros Hhi Hlo. unfold Utf8.UNICODE_MAX, u32.
  rewrite Z.shiftl_mul_pow2 by lia. rewrite Z.mod_small by lia. lia.
Qed.

(** X7.  A UTF-16 surrogate pair, in either byte order, is read as the one
    character [0x10000 + (hi - 0xD800) * 0x400 + (lo - 0xDC00)]: [get] yields
    its four UTF-8 bytes and consumes the four bytes of the pair. *)
Theorem get_utf16_surrogate_pair (hi lo : Z) (page rest : list Z) :
  0xD800 <= hi < 0xDC00 -> 0xDC00 <= lo < 0xE000 ->
  let c := 0x10000 + (hi - 0xD800) * 1024 + (lo - 0xDC00) in
  Input.get (Input.mkInput Input.utf16be page
               ([hi / 256; hi mod 256; lo / 256; lo mod 256] ++ rest))
  = Some (Utf8.to_utf8_bytes c, Input.mkInput Input.utf16be page rest)
  /\ Input.get (Input.mkInput Input.utf16le page
                  ([hi mod 256; hi / 256; lo mod 256; lo / 256] ++ rest))
     = Some (Utf8.to_utf8_bytes c, Input.mkInput Input.utf16le page rest)
  /\ length (Utf8.to_utf8_bytes c) = 4%nat.
Proof.
  intros Hhi Hlo c.
  destruct (surrogate_value hi lo Hhi Hlo) as [Hval Hrange].
  fold c in Hval, Hrange. unfold Utf8.UNICODE_MAX in Hrange.
  assert (0 <= hi / 256 < 256) as A1 by (Z.div_mod_to_equations; lia).
  assert (0 <= hi mod 256 < 256) as A2 by (apply Z.mod_pos_bound; lia).
  assert (0 <= lo / 256 < 256) as A3 by (Z.div_mod_to_equations; lia).
  assert (0 <= lo mod 256 < 256) as A4 by (apply Z.mod_pos_bound; lia).
  assert (hi / 256 * 256 + hi mod 256 = hi) as Ehi by (Z.div_mod_to_equations; lia).
  assert (lo / 256 * 256 + lo mod 256 = lo) as Elo by (Z.div_mod_to_equations; lia).
  assert ((Z.land (lo / 256) 0xFC =? 0xDC) = true) as Elow.
  { rewrite low_surrogate_test by exact A3.
    apply andb_true_iff. rewrite !Z.leb_le. Z.div_mod_to_equations. lia. }
  assert (Utf8.to_utf8 c = Some (Utf8.to_utf8_bytes c)) as Eto.
  { unfold Utf8.to_utf8, Utf8.UNICODE_MAX.
    destruct (Z.leb_spec c 1114111); [reflexivity|lia]. }
  split; [|split].
  - unfold Input.get. cbn [Input.enc_].
    unfold Input.get_raw_item. cbn [Input.data_ app length Nat.ltb Nat.leb].
    cbn [take drop fmap list_fmap nth Input.with_data Input.enc_ Input.page_
         Input.data_ length Nat.ltb Nat.leb].
    rewrite !u8_small by assumption. rewrite !join2 by assumption.
    rewrite Ehi, Elo, Elow.
    destruct (Z.ltb_spec hi 128); [lia|].
    destruct (Z.geb_spec hi 55296); [|lia].
    destruct (Z.ltb_spec hi 57344); [|lia].
    destruct (Z.ltb_spec hi 56320); [|lia].
    cbn [andb]. rewrite Hval, Eto. reflexivity.
  - unfold Input.get. cbn [Input.enc_].
    unfold Input.get_raw_item. cbn [Input.data_ app length Nat.ltb Nat.leb].
    cbn [take drop fmap list_fmap nth Input.with_data Input.enc_ Input.page_
         Input.data_ length Nat.ltb Nat.leb].
    rewrite !u8_small by assumption.
    rewrite !(Z.lor_comm (_ mod 256)), !join2 by assumption.
    rewrite Ehi, Elo, Elow.
    destruct (Z.ltb_spec hi 128); [lia|].
    destruct (Z.geb_spec hi 55296); [|lia].
    destruct (Z.ltb_spec hi 57344); [|lia].
    destruct (Z.ltb_spec hi 56320); [|lia].
    cbn [andb]. rewrite Hval, Eto. reflexivity.
  - rewrite to_utf8_bytes_arith by lia.
    destruct (Z.ltb_spec c 128); [lia|].
    destruct (Z.ltb_spec c 2048); [lia|].
    destruct (Z.ltb_spec c 65536); [lia|]. reflexivity.
Qed.

Lemma get_utf16_surrogate_pair_witness :
  Input.get (Input.mkInput Input.utf16be []
               ([0xD83D / 256; 0xD83D mod 256; 0xDE00 / 256; 0xDE00 mod 256] ++ [0; 97]))
  = Some (Utf8.to_utf8_bytes (0x10000 + (0xD83D - 0xD800) * 1024 + (0xDE00 - 0xDC00)),
          Input.mkInput Input.utf16be [] [0; 97]).
Proof. apply (get_utf16_surrogate_pair 0xD83D 0xDE00 [] [0; 97]); lia. Defined.

(** X8.  An unpaired UTF-16 surrogate, in either byte order, makes [get]
    call [to_utf8] on [ERR_CHAR], which lies above [UNICODE_MAX]: the
    assertion of [to_utf8] fails, for a low surrogate that comes first, for a
    high surrogate at the end of the input, and for a high surrogate that is
    followed by a unit other than a low surrogate.  With the assertion
    compiled out the bytes stored would be [ERR_CHAR_UTF8]. *)
Theorem get_utf16_unpaired_surrogate (c : Z) (page : list Z) :
  0xD800 <= c < 0xE000 ->
  (forall rest,
      0xDC00 <= c \/ (length rest < 2)%nat ->
      Input.get (Input.mkInput Input.utf16be page ([c / 256; c mod 256] ++ rest))
      = None
      /\ Input.get (Input.mkInput Input.utf16le page ([c mod 256; c / 256] ++ rest))
         = None)
  /\ (forall nh nl tl,
      0 <= nh < 256 -> ~ (0xDC <= nh <= 0xDF) ->
      Input.get (Input.mkInput Input.utf16be page
                   ([c / 256; c mod 256; nh; nl] ++ tl)) = None
      /\ Input.get (Input.mkInput Input.utf16le page
                      ([c mod 256; c / 256; nl; nh] ++ tl)) = None)
  /\ Utf8.to_utf8_bytes Utf8.ERR_CHAR = Utf8.ERR_CHAR_UTF8.
Proof.
  intros Hc.
  assert (0 <= c / 256 < 256) as A1 by (Z.div_mod_to_equations; lia).
  assert (0 <= c mod 256 < 256) as A2 by (apply Z.mod_pos_bound; lia).
  assert (c / 256 * 256 + c mod 256 = c) as Ec by (Z.div_mod_to_equations; lia).
  split; [|split; [|reflexivity]].
  - intros rest Hcase. split.
    + unfold Input.get. cbn [Input.enc_].
      unfold Input.get_raw_item at 1. cbn [Input.data_ app length Nat.ltb Nat.leb].
      cbn [take drop fmap list_fmap nth].
      rewrite !u8_small by assumption. rewrite join2 by assumption. rewrite Ec.
      destruct (Z.ltb_spec c 128); [lia|].
      destruct (Z.geb_spec c 55296); [|lia].
      destruct (Z.ltb_spec c 57344); [|lia]. cbn [andb].
      destruct (Z.ltb_spec c 56320) as [Hhigh|Hlow]; [|reflexivity].
      destruct Hcase as [Hlow|Hshort]; [lia|].
      unfold Input.get_raw_item. cbn [Input.with_data Input.data_].
      destruct rest as [|x [|y rest]]; cbn in Hshort; try lia; reflexivity.
    + unfold Input.get. cbn [Input.enc_].
      unfold Input.get_raw_item at 1. cbn [Input.data_ app length Nat.ltb Nat.leb].
      cbn [take drop fmap list_fmap nth].
      rewrite !u8_small by assumption.
      rewrite (Z.lor_comm (c mod 256)), join2 by assumption. rewrite Ec.
      destruct (Z.ltb_spec c 128); [lia|].
      destruct (Z.geb_spec c 55296); [|lia].
      destruct (Z.ltb_spec c 57344); [|lia]. cbn [andb].
      destruct (Z.ltb_spec c 56320) as [Hhigh|Hlow]; [|reflexivity].
      destruct Hcase as [Hlow|Hshort]; [lia|].
      unfold Input.get_raw_item. cbn [Input.with_data Input.data_].
      destruct rest as [|x [|y rest]]; cbn in Hshort; try lia; reflexivity.
  - intros nh nl tl Hnh Hnot. split.
    + unfold Input.get. cbn [Input.enc_].
      unfold Input.get_raw_item at 1. cbn [Input.data_ app length Nat.ltb Nat.leb].
      cbn [take drop fmap list_fmap nth].
      rewrite !u8_small by assumption. rewrite join2 by assumption. rewrite Ec.
      destruct (Z.ltb_spec c 128); [lia|].
      destruct (Z.geb_spec c 55296); [|lia].
      destruct (Z.ltb_spec c 57344); [|lia]. cbn [andb].
      destruct (Z.ltb_spec c 56320) as [Hhigh|Hlow]; [|reflexivity].
      unfold Input.get_raw_item.
      cbn [Input.with_data Input.data_ length Nat.ltb Nat.leb].
      cbn [length Nat.leb take drop fmap list_fmap nth].
      rewrite (u8_small nh) by exact Hnh.
      rewrite low_surrogate_test by exact Hnh.
      destruct (Z.leb_spec 220 nh); [|reflexivity].
      destruct (Z.leb_spec nh 223); [lia|reflexivity].
    + unfold Input.get. cbn [Input.enc_].
      unfold Input.get_raw_item at 1. cbn [Input.data_ app length Nat.ltb Nat.leb].
      cbn [take drop fmap list_fmap nth].
      rewrite !u8_small by assumption.
      rewrite (Z.lor_comm (c mod 256)), join2 by assumption. rewrite Ec.
      destruct (Z.ltb_spec c 128); [lia|].
      destruct (Z.geb_spec c 55296); [|lia].
      destruct (Z.ltb_spec c 57344); [|lia]. cbn [andb].
      destruct (Z.ltb_spec c 56320) as [Hhigh|Hlow]; [|reflexivity].
      unfold Input.get_raw_item.
      cbn [Input.with_data Input.data_ length Nat.ltb Nat.leb].
      cbn [length Nat.leb take drop fmap list_fmap nth].
      rewrite (u8_small nh) by exact Hnh.
      rewrite low_surrogate_test by exact Hnh.
      destruct (Z.leb_spec 220 nh); [|reflexivity].
      destruct (Z.leb_spec nh 223); [lia|reflexivity].
Qed.

Lemma get_utf16_unpaired_surrogate_witness :
  Input.get (Input.mkInput Input.utf16be [] ([0xDC00 / 256; 0xDC00 mod 256] ++ [0; 97]))
  = None
  /\ Input.get (Input.mkInput Input.utf16le []
                  ([0xD83D mod 256; 0xD83D / 256; 97; 0] ++ []))
     = None
  /\ Utf8.to_utf8_bytes Utf8.ERR_CHAR = Utf8.ERR_CHAR_UTF8.
Proof.
  split; [|split].
  - destruct (get_utf16_unpaired_surrogate 0xDC00 []) as (H & _ & _); [lia|].
    apply (H [0; 97]). left. lia.
  - destruct (get_utf16_unpaired_surrogate 0xD83D []) as (_ & H & _); [lia|].
    apply (H 0 97 []); lia.
  - destruct (get_utf16_unpaired_surrogate 0xDC00 []) as (_ & _ & H); [lia|].
    exact H.
Defined.

Lemma get_utf8_cons (b : Z) (page rest : list Z) :
  0 <= b < 256 ->
  Input.get (Input.mkInput Input.utf8 page (b :: rest))
  = let i1 := Input.mkInput Input.utf8 page rest in
    if b >=? 0xF8 then Some ([], i1)
    else if b <? 0x80 then Some ([b], i1)
    else if b >=? 0xF0 then Input.get_utf8_tail b 3 i1
    else if b >=? 0xE0 then Input.get_utf8_tail b 2 i1
    else if b >=? 0xC0 then Input.get_utf8_tail b 1 i1
    else Some ([], i1).
Proof.
  intros Hb. unfold Input.get, Input.get_raw.
  cbn [Input.enc_ Input.data_ Input.with_data Input.page_].
  rewrite u8_small by exact Hb. unfold Input.EOF.
  destruct (Z.eqb_spec b (-1)); [lia|]. reflexivity.
Qed.

Lemma get_utf8_encoded (c : Z) (page rest : list Z) :
  0 <= c < 2 ^ 21 ->
  Input.get (Input.mkInput Input.utf8 page (Utf8.to_utf8_bytes c ++ rest))
  = Some (Utf8.to_utf8_bytes c, Input.mkInput Input.utf8 page rest).
Proof.
  intros Hc. rewrite to_utf8_bytes_arith by exact Hc.
  destruct (Z.ltb_spec c 128) as [H1|H1].
  { cbn [app]. rewrite get_utf8_cons by lia. cbv zeta.
    destruct (Z.geb_spec c 248); [lia|].
    destruct (Z.ltb_spec c 128); [reflexivity|lia]. }
  destruct (Z.ltb_spec c 2048) as [H2|H2].
  { cbn [app]. rewrite get_utf8_cons by (Z.div_mod_to_equations; lia). cbv zeta.
    destruct (Z.geb_spec (192 + c / 64) 248); [Z.div_mod_to_equations; lia|].
    destruct (Z.ltb_spec (192 + c / 64) 128); [Z.div_mod_to_equations; lia|].
    destruct (Z.geb_spec (192 + c / 64) 240); [Z.div_mod_to_equations; lia|].
    destruct (Z.geb_spec (192 + c / 64) 224); [Z.div_mod_to_equations; lia|].
    destruct (Z.geb_spec (192 + c / 64) 192); [|Z.div_mod_to_equations; lia].
    unfold Input.get_utf8_tail, Input.get_raw_item.
    cbn [Input.data_ length Nat.ltb Nat.leb take drop fmap list_fmap
         Input.with_data Input.enc_ Input.page_].
    rewrite !u8_small by (Z.div_mod_to_equations; lia). reflexivity. }
  destruct (Z.ltb_spec c 65536) as [H3|H3].
  { cbn [app]. rewrite get_utf8_cons by (Z.div_mod_to_equations; lia). cbv zeta.
    destruct (Z.geb_spec (224 + c / 4096) 248); [Z.div_mod_to_equations; lia|].
    destruct (Z.ltb_spec (224 + c / 4096) 128); [Z.div_mod_to_equations; lia|].
    destruct (Z.geb_spec (224 + c / 4096) 240); [Z.div_mod_to_equations; lia|].
    destruct (Z.geb_spec (224 + c / 4096) 224); [|Z.div_mod_to_equations; lia].
    unfold Input.get_utf8_tail, Input.get_raw_item.
    cbn [Input.data_ length Nat.ltb Nat.leb take drop fmap list_fmap
         Input.with_data Input.enc_ Input.page_].
    rewrite !u8_small by (Z.div_mod_to_equations; lia). reflexivity. }
  cbn [app]. rewrite get_utf8_cons by (Z.div_mod_to_equations; lia). cbv zeta.
  destruct (Z.geb_spec (240 + c / 262144) 248); [Z.div_mod_to_equations; lia|].
  destruct (Z.ltb_spec (240 + c / 262144) 128); [Z.div_mod_to_equations; lia|].
  destruct (Z.geb_spec (240 + c / 262144) 240); [|Z.div_mod_to_equations; lia].
  unfold Input.get_utf8_tail, Input.get_raw_item.
  cbn [Input.data_ length Nat.ltb Nat.leb take drop fmap list_fmap
       Input.with_data Input.enc_ Input.page_].
  rewrite !u8_small by (Z.div_mod_to_equations; lia). reflexivity.
Qed.

(** X9.  With [encoding::utf8] a character that [to_utf8] encoded passes
    through [get] unchanged: the same bytes come out and exactly they are
    consumed, and what follows them is left for the next call. *)
Theorem get_utf8_passes_through (c : Z) (page rest : list Z) :
  0 <= c < 2 ^ 21 ->
  exists out i1,
    Input.get (Input.mkInput Input.utf8 page (Utf8.to_utf8_bytes c ++ rest))
    = Some (out, i1)
    /\ out = Utf8.to_utf8_bytes c
    /\ Input.data_ i1 = rest /\ Input.enc_ i1 = Input.utf8 /\ Input.page_ i1 = page.
Proof.
  intros Hc. eexists _, _. split; [apply get_utf8_encoded; exact Hc|].
  repeat split.
Qed.

Lemma get_utf8_passes_through_witness :
  Input.get (Input.mkInput Input.utf8 [] (Utf8.to_utf8_bytes 0x20AC ++ [97]))
  = Some (Utf8.to_utf8_bytes 0x20AC, Input.mkInput Input.utf8 [] [97]).
Proof.
  destruct (get_utf8_passes_through 0x20AC [] [97]) as (out & i1 & Hget & Hout & _);
    [lia|].
  reflexivity.
Defined.

(** X10.  With [encoding::utf8] a byte that cannot start a character (a
    continuation byte [0x80..0xBF] or a byte from 0xF8 up) is consumed and
    [get] returns 0, and so is a lead byte whose further bytes are not all
    there; the caller sees the same result as at the end of the input, where
    nothing is consumed. *)
Theorem get_utf8_returns_zero (b : Z) (page rest : list Z) :
  0 <= b < 256 ->
  (0x80 <= b < 0xC0 \/ 0xF8 <= b
   \/ (0xC0 <= b < 0xE0 /\ (length rest < 1)%nat)
   \/ (0xE0 <= b < 0xF0 /\ (length rest < 2)%nat)
   \/ (0xF0 <= b < 0xF8 /\ (length rest < 3)%nat)) ->
  Input.get (Input.mkInput Input.utf8 page (b :: rest))
  = Some ([], Input.mkInput Input.utf8 page rest)
  /\ Input.get (Input.mkInput Input.utf8 page [])
     = Some ([], Input.mkInput Input.utf8 page []).
Proof.
  intros Hb Hcase. split; [|reflexivity].
  rewrite get_utf8_cons by exact Hb. cbv zeta.
  unfold Input.get_utf8_tail, Input.get_raw_item. cbn [Input.data_].
  destruct (Z.geb_spec b 248); [reflexivity|].
  destruct (Z.ltb_spec b 128); [lia|].
  destruct (Z.geb_spec b 240).
  { destruct (Nat.ltb_spec (length rest) 3); [reflexivity|lia]. }
  destruct (Z.geb_spec b 224).
  { destruct (Nat.ltb_spec (length rest) 2); [reflexivity|lia]. }
  destruct (Z.geb_spec b 192).
  { destruct (Nat.ltb_spec (length rest) 1); [reflexivity|lia]. }
  reflexivity.
Qed.

Lemma get_utf8_returns_zero_witness :
  Input.get (Input.mkInput Input.utf8 [] (0xBF :: [97]))
  = Some ([], Input.mkInput Input.utf8 [] [97])
  /\ Input.get (Input.mkInput Input.utf8 [] [])
     = Some ([], Input.mkInput Input.utf8 [] []).
Proof. apply get_utf8_returns_zero; [lia | left; lia]. Defined.

(** X11.  With a table-driven encoding, predefined or custom, [get] turns
    each byte into the UTF-8 bytes of its entry in the code page, and with
    [encoding::latin1] into the UTF-8 bytes of the byte itself; one byte is
    consumed, and decoding the output gives the entry back. *)
Theorem get_codepage_byte (b c : Z) (page rest : list Z) :
  0 <= b < 256 -> page !! Z.to_nat b = Some c -> 0 <= c < 65536 ->
  Input.get (Input.mkInput Input.codepage page (b :: rest))
  = Some (Utf8.to_utf8_bytes c, Input.mkInput Input.codepage page rest)
  /\ Input.get (Input.mkInput Input.custom page (b :: rest))
     = Some (Utf8.to_utf8_bytes c, Input.mkInput Input.custom page rest)
  /\ Input.get (Input.mkInput Input.latin1 page (b :: rest))
     = Some (Utf8.to_utf8_bytes b, Input.mkInput Input.latin1 page rest)
  /\ Utf8.from_utf8 (Utf8.to_utf8_bytes c)
     = Some (c, length (Utf8.to_utf8_bytes c)).
Proof.
  intros Hb Hpage Hc.
  assert (forall x, 0 <= x < 65536 -> (x <=? Utf8.UNICODE_MAX) = true) as Hmax.
  { intros x Hx. apply Z.leb_le. unfold Utf8.UNICODE_MAX. lia. }
  split; [|split; [|split]].
  - unfold Input.get, Input.get_raw.
    cbn [Input.enc_ Input.data_ Input.with_data Input.page_].
    rewrite !u8_small by exact Hb. unfold Input.EOF.
    destruct (Z.eqb_spec b (-1)); [lia|].
    rewrite Hpage. cbn [mbind option_bind].
    unfold u16. rewrite Z.mod_small by lia.
    rewrite put_to_utf8, Hmax by lia. reflexivity.
  - unfold Input.get, Input.get_raw.
    cbn [Input.enc_ Input.data_ Input.with_data Input.page_].
    rewrite !u8_small by exact Hb. unfold Input.EOF.
    destruct (Z.eqb_spec b (-1)); [lia|].
    rewrite Hpage. cbn [mbind option_bind].
    unfold u16. rewrite Z.mod_small by lia.
    rewrite put_to_utf8, Hmax by lia. reflexivity.
  - unfold Input.get, Input.get_raw.
    cbn [Input.enc_ Input.data_ Input.with_data Input.page_].
    rewrite !u8_small by exact Hb. unfold Input.EOF.
    destruct (Z.eqb_spec b (-1)); [lia|].
    rewrite put_to_utf8, Hmax by lia. reflexivity.
  - rewrite <- (app_nil_r (Utf8.to_utf8_bytes c)) at 1.
    apply from_utf8_encoded. lia.
Qed.

Lemma get_codepage_byte_witness :
  Input.get (Input.mkInput Input.codepage (replicate 255 0x3F ++ [0x20AC]) (255 :: [97]))
  = Some (Utf8.to_utf8_bytes 0x20AC,
          Input.mkInput Input.codepage (replicate 255 0x3F ++ [0x20AC]) [97]).
Proof.
  apply (get_codepage_byte 255 0x20AC); [lia | vm_compute; reflexivity | lia].
Defined.

(** ** Buffered input *)

Lemma u64_small (x : Z) : 0 <= x < 2 ^ 64 -> u64 x = x.
Proof. intros Hx. unfold u64. apply Z.mod_small. exact Hx. Qed.

Lemma u64_pred_succ (x : Z) : 0 <= x < 2 ^ 64 -> u64 (u64 (x - 1) + 1) = x.
Proof.
  intros Hx. unfold u64. rewrite Z.add_mod_idemp_l by lia.
  replace (x - 1 + 1) with x by lia. apply Z.mod_small. exact Hx.
Qed.

Lemma u64_succ_add (x n : Z) : u64 (u64 (x + n) + 1) = u64 (x + (n + 1)).
Proof.
  unfold u64. rewrite Z.add_mod_idemp_l by lia. f_equal. lia.
Qed.

(** X12.  [unget(c)] followed by [get_utf8_byte()] returns [c], for [c] up to
    0x80, and leaves the input as it was before, with the line number
    restored; the column is restored too unless [c] is a newline, after which
    it is 1. *)
Theorem unget_then_get (c : Z) (b : BufferedInput.BufferedInput) :
  0 <= c <= 0x80 ->
  0 <= BufferedInput.lineno b < 2 ^ 64 -> 0 <= BufferedInput.colno b < 2 ^ 64 ->
  exists b1,
    BufferedInput.unget c b = Some b1
    /\ BufferedInput.get_utf8_byte b1
       = Some (c, BufferedInput.mkBufferedInput
                    (BufferedInput.input b) (BufferedInput.buf_u8 b)
                    (BufferedInput.pos_buf_u8 b) (BufferedInput.dend_buf_u8 b)
                    (BufferedInput.buf_unget b) (BufferedInput.lineno b)
                    (if c =? 10 then 1 else BufferedInput.colno b)).
Proof.
  intros Hc Hl Hk. unfold BufferedInput.unget.
  destruct (Z.leb_spec c 128); [|lia].
  rewrite u8_small by lia.
  destruct (Z.eqb_spec c 10) as [->|Hne].
  - eexists. split; [reflexivity|].
    unfold BufferedInput.get_utf8_byte, BufferedInput.count.
    cbn [BufferedInput.buf_unget BufferedInput.lineno BufferedInput.colno
         BufferedInput.input BufferedInput.buf_u8 BufferedInput.pos_buf_u8
         BufferedInput.dend_buf_u8 Z.eqb Pos.eqb].
    rewrite u64_pred_succ by exact Hl. reflexivity.
  - eexists. split; [reflexivity|].
    unfold BufferedInput.get_utf8_byte, BufferedInput.count.
    cbn [BufferedInput.buf_unget BufferedInput.lineno BufferedInput.colno
         BufferedInput.input BufferedInput.buf_u8 BufferedInput.pos_buf_u8
         BufferedInput.dend_buf_u8].
    destruct (Z.eqb_spec c 10); [contradiction|].
    rewrite u64_pred_succ by exact Hk. reflexivity.
Qed.

Lemma unget_then_get_witness :
  exists b1,
    BufferedInput.unget 97 (BufferedInput.view [98] [0; 0; 0; 0] 0 1 1)
    = Some b1
    /\ BufferedInput.get_utf8_byte b1
       = Some (97, BufferedInput.mkBufferedInput
                     (Input.mkInput Input.utf8 [] [98]) [0; 0; 0; 0] 0 0 [] 1
                     (if 97 =? 10 then 1 else 1)).
Proof.
  apply (unget_then_get 97 (BufferedInput.view [98] [0; 0; 0; 0] 0 1 1));
    simpl; lia.
Defined.

Lemma push_front_all (l acc : list Z) :
  fold_left (fun q x => x :: q) l acc = rev l ++ acc.
Proof.
  revert acc. induction l as [|x l IH]; intros acc; [reflexivity|].
  cbn [fold_left rev]. rewrite IH, <- app_assoc. reflexivity.
Qed.

(** Bytes waiting in the unget queue are delivered first, in order. *)
Lemma read_unget (bs : list Z) :
  Forall (fun x => 0 <= x) bs ->
  forall (i : Input.Input) (buf : list Z) (pos dend : Z) (q : list Z) (l k : Z),
    BufferedInput.read (length bs)
      (BufferedInput.mkBufferedInput i buf pos dend (bs ++ q) l k)
    = Some (bs, BufferedInput.mkBufferedInput i buf pos dend q
                  (BufferedInput.counts bs (l, k)).1
                  (BufferedInput.counts bs (l, k)).2).
Proof.
  intros Hbs. induction Hbs as [|x bs Hx _ IH]; intros i buf pos dend q l k.
  - reflexivity.
  - cbn [length app BufferedInput.read]. unfold BufferedInput.get_utf8_byte.
    cbn [BufferedInput.buf_unget BufferedInput.lineno BufferedInput.colno
         BufferedInput.input BufferedInput.buf_u8 BufferedInput.pos_buf_u8
         BufferedInput.dend_buf_u8].
    destruct (BufferedInput.count x l k) as [l1 k1] eqn:Hcount.
    cbn [mbind option_bind]. unfold BufferedInput.EOF.
    destruct (Z.eqb_spec x (-1)); [lia|].
    rewrite IH. cbn [mbind option_bind].
    unfold BufferedInput.counts. cbn [fold_left fst snd].
    rewrite Hcount. reflexivity.
Qed.

Lemma counts_no_newline (bs : list Z) :
  Forall (fun x => x <> 10) bs ->
  forall l k, BufferedInput.counts bs (l, k)
              = (l, if bs is [] then k else u64 (k + Z.of_nat (length bs))).
Proof.
  intros Hbs. induction Hbs as [|x bs Hx Hbs' IH]; intros l k; [reflexivity|].
  unfold BufferedInput.counts. cbn [fold_left fst snd].
  unfold BufferedInput.count at 2. destruct (Z.eqb_spec x 10); [contradiction|].
  fold (BufferedInput.counts bs (l, u64 (k + 1))). rewrite IH.
  destruct bs as [|y bs]; [reflexivity|].
  f_equal. cbn [length]. rewrite Nat2Z.inj_succ.
  unfold u64. rewrite Z.add_mod_idemp_l by lia. f_equal. lia.
Qed.

(** X13.  [unget(c)] for a character above 0x80 queues the UTF-8 bytes of
    [c] in order, so that the next reads return them, and leaves the line and
    the column as they are: once the bytes have been read back the column is
    ahead by their number.  The value 0x80 itself is queued as the single
    byte 0x80. *)
Theorem unget_multibyte (c : Z) (b : BufferedInput.BufferedInput) :
  0x80 < c <= Utf8.UNICODE_MAX ->
  0 <= BufferedInput.colno b < 2 ^ 64 ->
  let bs := Utf8.to_utf8_bytes c in
  exists b1,
    BufferedInput.unget c b = Some b1
    /\ BufferedInput.buf_unget b1 = bs ++ BufferedInput.buf_unget b
    /\ BufferedInput.lineno b1 = BufferedInput.lineno b
    /\ BufferedInput.colno b1 = BufferedInput.colno b
    /\ BufferedInput.read (length bs) b1
       = Some (bs, BufferedInput.mkBufferedInput
                     (BufferedInput.input b) (BufferedInput.buf_u8 b)
                     (BufferedInput.pos_buf_u8 b) (BufferedInput.dend_buf_u8 b)
                     (BufferedInput.buf_unget b) (BufferedInput.lineno b)
                     (u64 (BufferedInput.colno b + Z.of_nat (length bs))))
    /\ (exists b2, BufferedInput.unget 0x80 b = Some b2
                   /\ BufferedInput.buf_unget b2 = 0x80 :: BufferedInput.buf_unget b).
Proof.
  intros Hc Hk bs. unfold Utf8.UNICODE_MAX in Hc.
  assert (0 <= c < 2 ^ 21) as Hc21 by lia.
  assert (Forall (fun x => 0x80 <= x) bs) as Hhigh
    by (apply to_utf8_bytes_high; lia).
  assert (bs <> []) as Hne.
  { intros Hnil. assert (length bs = 0%nat) as Hz by (rewrite Hnil; reflexivity).
    subst bs. rewrite to_utf8_bytes_arith in Hz by exact Hc21.
    destruct (c <? 128); [|destruct (c <? 2048); [|destruct (c <? 65536)]];
      discriminate. }
  unfold BufferedInput.unget.
  destruct (Z.leb_spec c 128); [lia|].
  unfold Utf8.to_utf8, Utf8.UNICODE_MAX.
  destruct (Z.leb_spec c 1114111); [|lia]. cbn [mbind option_bind].
  fold bs. rewrite push_front_all, rev_involutive.
  rewrite Z.sub_0_r, u64_small by exact Hk.
  eexists. split; [reflexivity|].
  cbn [BufferedInput.buf_unget BufferedInput.lineno BufferedInput.colno].
  repeat split.
  - rewrite read_unget
      by (eapply Forall_impl; [exact Hhigh|]; cbv beta; intros x Hx; lia).
    rewrite counts_no_newline
      by (eapply Forall_impl; [exact Hhigh|]; cbv beta; intros x Hx; lia).
    destruct bs; [contradiction|reflexivity].
  - eexists. split; reflexivity.
Qed.

Lemma unget_multibyte_witness :
  exists b1,
    BufferedInput.unget 0x20AC (BufferedInput.view [98] [0; 0; 0; 0] 0 1 1)
    = Some b1
    /\ BufferedInput.buf_unget b1 = Utf8.to_utf8_bytes 0x20AC ++ [].
Proof.
  destruct (unget_multibyte 0x20AC
              (BufferedInput.view [98] [0; 0; 0; 0] 0 1 1))
    as (b1 & Hun & Hq & _); [vm_compute; intuition discriminate | simpl; lia |].
  exists b1. split; [exact Hun | exact Hq].
Defined.

Lemma get_ignoring_keeps_unget (b b' : BufferedInput.BufferedInput) (c : Z) :
  BufferedInput.get_utf8_byte_ignoring_unget b = Some (c, b') ->
  BufferedInput.buf_unget b' = BufferedInput.buf_unget b.
Proof.
  unfold BufferedInput.get_utf8_byte_ignoring_unget, BufferedInput.deliver.
  destruct ((BufferedInput.pos_buf_u8 b =? BufferedInput.dend_buf_u8 b)
            || (BufferedInput.dend_buf_u8 b =? 0)).
  - destruct (Input.get (BufferedInput.input b)) as [[bs i1]|]; [|discriminate].
    cbn [mbind option_bind].
    destruct (length bs =? 0)%nat.
    + intros [= _ <-]. reflexivity.
    + cbn [BufferedInput.buf_u8 BufferedInput.pos_buf_u8 BufferedInput.lineno
           BufferedInput.colno BufferedInput.input BufferedInput.dend_buf_u8
           BufferedInput.buf_unget].
      destruct (_ !! _) as [x|]; [|discriminate]. cbn [mbind option_bind].
      destruct (BufferedInput.count x _ _). intros [= _ <-]. reflexivity.
  - destruct (_ !! _) as [x|]; [|discriminate]. cbn [mbind option_bind].
    destruct (BufferedInput.count x _ _). intros [= _ <-]. reflexivity.
Qed.

(** X14.  [peek_utf8_byte(0)] on an empty unget queue returns the byte the
    next [get_utf8_byte()] returns and queues it, and the [get_utf8_byte()]
    after the peek returns that byte again; the peek has already advanced the
    line and column counters for the byte, so after the pair of calls the byte
    has been counted twice. *)
Theorem peek_then_get (b b' : BufferedInput.BufferedInput) (c : Z) :
  BufferedInput.buf_unget b = [] ->
  BufferedInput.get_utf8_byte b = Some (c, b') -> c <> BufferedInput.EOF ->
  let q := BufferedInput.mkBufferedInput
             (BufferedInput.input b') (BufferedInput.buf_u8 b')
             (BufferedInput.pos_buf_u8 b') (BufferedInput.dend_buf_u8 b') [c]
             (BufferedInput.lineno b') (BufferedInput.colno b') in
  BufferedInput.peek_utf8_byte 0 b = Some (c, q)
  /\ BufferedInput.get_utf8_byte q
     = Some (c, BufferedInput.mkBufferedInput
                  (BufferedInput.input b') (BufferedInput.buf_u8 b')
                  (BufferedInput.pos_buf_u8 b') (BufferedInput.dend_buf_u8 b') []
                  (BufferedInput.count c (BufferedInput.lineno b')
                                       (BufferedInput.colno b')).1
                  (BufferedInput.count c (BufferedInput.lineno b')
                                       (BufferedInput.colno b')).2).
Proof.
  intros Hq Hget Hc q.
  unfold BufferedInput.get_utf8_byte in Hget. rewrite Hq in Hget.
  pose proof (get_ignoring_keeps_unget b b' c Hget) as Hq'. rewrite Hq in Hq'.
  split.
  - unfold BufferedInput.peek_utf8_byte. rewrite Hq.
    cbn [lookup list_lookup length Nat.sub Nat.add BufferedInput.peek_loop].
    rewrite Hget. cbn [mbind option_bind].
    destruct (Z.eqb_spec c BufferedInput.EOF); [contradiction|].
    rewrite Hq'. reflexivity.
  - unfold BufferedInput.get_utf8_byte. subst q.
    cbn [BufferedInput.buf_unget BufferedInput.lineno BufferedInput.colno
         BufferedInput.input BufferedInput.buf_u8 BufferedInput.pos_buf_u8
         BufferedInput.dend_buf_u8].
    destruct (BufferedInput.count c _ _). reflexivity.
Qed.

Lemma peek_then_get_witness :
  BufferedInput.peek_utf8_byte 0 (BufferedInput.view [97; 98] [0; 0; 0; 0] 0 1 1)
  = Some (97, BufferedInput.mkBufferedInput
                (Input.mkInput Input.utf8 [] [98]) [97; 0; 0; 0] 1 1 [97] 1 2)
  /\ BufferedInput.get_utf8_byte
       (BufferedInput.mkBufferedInput
          (Input.mkInput Input.utf8 [] [98]) [97; 0; 0; 0] 1 1 [97] 1 2)
     = Some (97, BufferedInput.mkBufferedInput
                   (Input.mkInput Input.utf8 [] [98]) [97; 0; 0; 0] 1 1 [] 1 3).
Proof.
  apply (peek_then_get
           (BufferedInput.view [97; 98] [0; 0; 0; 0] 0 1 1)
           (BufferedInput.mkBufferedInput
              (Input.mkInput Input.utf8 [] [98]) [97; 0; 0; 0] 1 1 [] 1 2) 97).
  - reflexivity.
  - reflexivity.
  - vm_compute. discriminate.
Defined.

(** Bytes between the cursor and the end of [buf_u8] are delivered in
    order. *)
Lemma read_buffered (i : Input.Input) (buf : list Z) (d : nat) :
  Forall (fun x => 0 <= x) buf -> (d <= length buf)%nat ->
  forall (n p : nat) (l k : Z),
    (p + n <= d)%nat ->
    BufferedInput.read n
      (BufferedInput.mkBufferedInput i buf (Z.of_nat p) (Z.of_nat d) [] l k)
    = Some (take n (drop p buf),
            BufferedInput.mkBufferedInput i buf (Z.of_nat (p + n)) (Z.of_nat d) []
              (BufferedInput.counts (take n (drop p buf)) (l, k)).1
              (BufferedInput.counts (take n (drop p buf)) (l, k)).2).
Proof.
  intros Hbuf Hd n. induction n as [|n IH]; intros p l k Hp.
  - rewrite Nat.add_0_r. reflexivity.
  - destruct (lookup_lt_is_Some_2 buf p) as [x Hx]; [lia|].
    assert (0 <= x) as Hx0.
    { apply (Forall_lookup_1 _ _ _ _ Hbuf Hx). }
    cbn [BufferedInput.read]. unfold BufferedInput.get_utf8_byte.
    cbn [BufferedInput.buf_unget].
    unfold BufferedInput.get_utf8_byte_ignoring_unget, BufferedInput.deliver.
    cbn [BufferedInput.buf_unget BufferedInput.lineno BufferedInput.colno
         BufferedInput.input BufferedInput.buf_u8 BufferedInput.pos_buf_u8
         BufferedInput.dend_buf_u8].
    destruct (Z.eqb_spec (Z.of_nat p) (Z.of_nat d)); [lia|].
    destruct (Z.eqb_spec (Z.of_nat d) 0); [lia|]. cbn [orb].
    rewrite Nat2Z.id, Hx. cbn [mbind option_bind].
    destruct (BufferedInput.count x l k) as [l1 k1] eqn:Hcount.
    cbn [mbind option_bind].
    unfold BufferedInput.EOF. destruct (Z.eqb_spec x (-1)); [lia|].
    replace (Z.of_nat p + 1) with (Z.of_nat (S p)) by lia.
    rewrite IH by lia. cbn [mbind option_bind].
    rewrite (drop_S buf x p Hx). cbn [take].
    unfold BufferedInput.counts. cbn [fold_left fst snd]. rewrite Hcount.
    replace (S p + n)%nat with (p + S n)%nat by lia. reflexivity.
Qed.

(** At a character boundary the next [m] reads deliver the [m] bytes that
    [Input::get] converts. *)
Lemma read_character (b : BufferedInput.BufferedInput) (bs : list Z)
    (i1 : Input.Input) :
  BufferedInput.buf_unget b = [] ->
  BufferedInput.pos_buf_u8 b = BufferedInput.dend_buf_u8 b ->
  length (BufferedInput.buf_u8 b) = 4%nat ->
  Input.get (BufferedInput.input b) = Some (bs, i1) ->
  (1 <= length bs <= 4)%nat -> Forall (fun x => 0 <= x) bs ->
  Forall (fun x => 0 <= x) (BufferedInput.buf_u8 b) ->
  let buf := bs ++ drop (length bs) (BufferedInput.buf_u8 b) in
  BufferedInput.read (length bs) b
  = Some (bs, BufferedInput.mkBufferedInput i1 buf
                (Z.of_nat (length bs)) (Z.of_nat (length bs)) []
                (BufferedInput.counts bs
                   (BufferedInput.lineno b, BufferedInput.colno b)).1
                (BufferedInput.counts bs
                   (BufferedInput.lineno b, BufferedInput.colno b)).2)
  /\ length buf = 4%nat /\ Forall (fun x => 0 <= x) buf.
Proof.
  intros Hq Hpos Hlen Hget Hm Hbs Hbuf buf.
  assert (length buf = 4%nat) as Hlen'.
  { subst buf. rewrite length_app, length_drop. lia. }
  assert (Forall (fun x => 0 <= x) buf) as Hbuf'.
  { subst buf. apply Forall_app. split; [exact Hbs|]. apply Forall_drop, Hbuf. }
  split; [|split; assumption].
  set (b0 := BufferedInput.mkBufferedInput i1 buf (Z.of_nat 0)
               (Z.of_nat (length bs)) []
               (BufferedInput.lineno b) (BufferedInput.colno b)).
  assert (BufferedInput.get_utf8_byte b = BufferedInput.get_utf8_byte b0) as Hsame.
  { unfold BufferedInput.get_utf8_byte. rewrite Hq. subst b0.
    cbn [BufferedInput.buf_unget].
    unfold BufferedInput.get_utf8_byte_ignoring_unget.
    rewrite Hpos, Z.eqb_refl, Hget. cbn [orb mbind option_bind].
    destruct (Nat.eqb_spec (length bs) 0); [lia|].
    cbn [BufferedInput.pos_buf_u8 BufferedInput.dend_buf_u8].
    destruct (Z.eqb_spec (Z.of_nat 0) (Z.of_nat (length bs))); [lia|].
    destruct (Z.eqb_spec (Z.of_nat (length bs)) 0); [lia|].
    rewrite Hq. reflexivity. }
  destruct (length bs) as [|m] eqn:Hm'; [lia|].
  cbn [BufferedInput.read]. rewrite Hsame.
  change (BufferedInput.read (S m) b0
          = Some (bs, BufferedInput.mkBufferedInput i1 buf (Z.of_nat (S m))
                        (Z.of_nat (S m)) []
                        (BufferedInput.counts bs
                           (BufferedInput.lineno b, BufferedInput.colno b)).1
                        (BufferedInput.counts bs
                           (BufferedInput.lineno b, BufferedInput.colno b)).2)).
  subst b0. rewrite (read_buffered i1 buf (S m) Hbuf') by lia.
  assert (take (S m) (drop 0 buf) = bs) as ->.
  { cbn [drop]. subst buf. rewrite <- Hm'. apply take_app_length. }
  reflexivity.
Qed.

Lemma read_app (n m : nat) :
  forall b,
    BufferedInput.read (n + m) b
    = '(xs, b1) ← BufferedInput.read n b;
      '(ys, b2) ← BufferedInput.read m b1;
      Some (xs ++ ys, b2).
Proof.
  induction n as [|n IH]; intros b.
  - cbn [Nat.add BufferedInput.read mbind option_bind].
    destruct (BufferedInput.read m b) as [[ys b2]|]; reflexivity.
  - cbn [Nat.add BufferedInput.read].
    destruct (BufferedInput.get_utf8_byte b) as [[c b1]|]; [|reflexivity].
    cbn [mbind option_bind].
    destruct (c =? BufferedInput.EOF); [reflexivity|].
    rewrite IH.
    destruct (BufferedInput.read n b1) as [[xs b2]|]; [|reflexivity].
    cbn [mbind option_bind].
    destruct (BufferedInput.read m b2) as [[ys b3]|]; reflexivity.
Qed.

Lemma counts_app (xs ys : list Z) (lk : Z * Z) :
  BufferedInput.counts (xs ++ ys) lk
  = BufferedInput.counts ys (BufferedInput.counts xs lk).
Proof. unfold BufferedInput.counts. apply fold_left_app. Qed.

Lemma counts_cons (x : Z) (bs : list Z) (l k : Z) :
  BufferedInput.counts (x :: bs) (l, k)
  = BufferedInput.counts bs (if x =? 10 then (u64 (l + 1), 1) else (l, u64 (k + 1))).
Proof. reflexivity. Qed.

Lemma counts_lineno (bs : list Z) :
  forall l k,
    u64 (BufferedInput.counts bs (l, k)).1
    = u64 (l + Z.of_nat (length (filter (fun x => x = 10) bs))).
Proof.
  induction bs as [|x bs IH]; intros l k.
  - cbn. f_equal. lia.
  - rewrite counts_cons. destruct (Z.eqb_spec x 10) as [-> | Hne].
    + rewrite IH. rewrite filter_cons_True by reflexivity. cbn [length].
      unfold u64. rewrite Z.add_mod_idemp_l by lia. f_equal. lia.
    + rewrite IH. rewrite filter_cons_False by exact Hne. reflexivity.
Qed.

Lemma counts_lineno_range (bs : list Z) :
  forall l k, 0 <= l < 2 ^ 64 -> 0 <= (BufferedInput.counts bs (l, k)).1 < 2 ^ 64.
Proof.
  induction bs as [|x bs IH]; intros l k Hl; [exact Hl|].
  rewrite counts_cons. destruct (x =? 10).
  - apply IH. unfold u64. apply Z.mod_pos_bound. lia.
  - apply IH. exact Hl.
Qed.

Lemma to_utf8_bytes_bound (c : Z) :
  0 <= c < 2 ^ 21 ->
  (1 <= length (Utf8.to_utf8_bytes c) <= 4)%nat
  /\ Forall (fun x => 0 <= x) (Utf8.to_utf8_bytes c).
Proof.
  intros Hc. rewrite to_utf8_bytes_arith by exact Hc.
  destruct (c <? 128); [|destruct (c <? 2048); [|destruct (c <? 65536)]];
    (split; [cbn [length]; lia|]);
    repeat constructor; Z.div_mod_to_equations; lia.
Qed.

(** Reading the UTF-8 text of [cs] from a character boundary. *)
Lemma read_encoded (page rest : list Z) (cs : list Z) :
  Forall (fun c => 0 <= c < 2 ^ 21) cs ->
  forall b,
    BufferedInput.buf_unget b = [] ->
    BufferedInput.pos_buf_u8 b = BufferedInput.dend_buf_u8 b ->
    length (BufferedInput.buf_u8 b) = 4%nat ->
    Forall (fun x => 0 <= x) (BufferedInput.buf_u8 b) ->
    BufferedInput.input b = Input.mkInput Input.utf8 page (Utf8.encode cs ++ rest) ->
    exists b1,
      BufferedInput.read (length (Utf8.encode cs)) b = Some (Utf8.encode cs, b1)
      /\ BufferedInput.input b1 = Input.mkInput Input.utf8 page rest
      /\ BufferedInput.buf_unget b1 = []
      /\ BufferedInput.pos_buf_u8 b1 = BufferedInput.dend_buf_u8 b1
      /\ (BufferedInput.lineno b1, BufferedInput.colno b1)
         = BufferedInput.counts (Utf8.encode cs)
             (BufferedInput.lineno b, BufferedInput.colno b).
Proof.
  intros Hcs. induction Hcs as [|c cs Hc _ IH]; intros b Hq Hpos Hlen Hbuf Hin.
  - exists b. repeat split; try assumption.
  - unfold Utf8.encode in *. cbn [fmap list_fmap concat] in *.
    fold (fmap Utf8.to_utf8_bytes cs) in *.
    rewrite <- app_assoc in Hin.
    destruct (to_utf8_bytes_bound c Hc) as [Hm Hbs].
    destruct (read_character b (Utf8.to_utf8_bytes c)
                (Input.mkInput Input.utf8 page
                   (concat (Utf8.to_utf8_bytes <$> cs) ++ rest)))
      as (Hread & Hlen1 & Hbuf1); try assumption.
    { rewrite Hin. apply get_utf8_encoded. exact Hc. }
    match type of Hread with _ = Some (_, ?s) => set (b0 := s) in * end.
    destruct (IH b0) as (b1 & Hread1 & Hin1 & Hq1 & Hpos1 & Hcount1);
      try reflexivity; try assumption.
    exists b1. rewrite length_app, read_app, Hread. cbn [mbind option_bind].
    rewrite Hread1. cbn [mbind option_bind].
    repeat split; try assumption.
    rewrite Hcount1, counts_app. subst b0.
    cbn [BufferedInput.lineno BufferedInput.colno].
    rewrite <- surjective_pairing. reflexivity.
Qed.

(** X15.  Reading a string view of well-formed UTF-8 text byte by byte with
    [get_utf8_byte()], from the state the constructor leaves, delivers exactly
    its bytes, in order, and then [EOF]; by then the line number has grown by
    the number of newline bytes. *)
Theorem read_utf8_text (page cs buf : list Z) :
  Forall (fun c => 0 <= c < 2 ^ 21) cs ->
  length buf = 4%nat -> Forall (fun x => 0 <= x < 256) buf ->
  let text := Utf8.encode cs in
  exists b0 b1 b2,
    BufferedInput.fresh (Input.mkInput Input.utf8 page text) buf = Some b0
    /\ BufferedInput.read (length text) b0 = Some (text, b1)
    /\ BufferedInput.get_utf8_byte b1 = Some (BufferedInput.EOF, b2)
    /\ BufferedInput.lineno b1
       = u64 (1 + Z.of_nat (length (filter (fun x => x = 10) text))).
Proof.
  intros Hcs Hlen Hbuf text.
  set (b0 := BufferedInput.mkBufferedInput (Input.mkInput Input.utf8 page text)
               buf 0 0 [] 1 1).
  destruct (read_encoded page [] cs Hcs b0)
    as (b1 & Hread & Hin & Hq & Hpos & Hcount);
    try reflexivity.
  { exact Hlen. }
  { eapply Forall_impl; [exact Hbuf|]. cbv beta. intros x Hx. lia. }
  { subst b0. cbn [BufferedInput.input]. rewrite app_nil_r. reflexivity. }
  exists b0, b1. eexists. split; [reflexivity|]. split; [exact Hread|]. split.
  - unfold BufferedInput.get_utf8_byte. rewrite Hq.
    unfold BufferedInput.get_utf8_byte_ignoring_unget.
    rewrite Hpos, Z.eqb_refl, Hin. reflexivity.
  - assert (BufferedInput.lineno b1
            = (BufferedInput.counts text (1, 1)).1) as ->.
    { change (1, 1) with (BufferedInput.lineno b0, BufferedInput.colno b0).
      fold text in Hcount. rewrite <- Hcount. reflexivity. }
    rewrite <- (counts_lineno text 1 1). symmetry. apply u64_small.
    apply counts_lineno_range. lia.
Qed.

Lemma read_utf8_text_witness :
  exists b0 b1 b2,
    BufferedInput.fresh (Input.mkInput Input.utf8 [] (Utf8.encode [0x61; 10; 0x20AC]))
      [0; 0; 0; 0]
    = Some b0
    /\ BufferedInput.read (length (Utf8.encode [0x61; 10; 0x20AC])) b0
       = Some (Utf8.encode [0x61; 10; 0x20AC], b1)
    /\ BufferedInput.get_utf8_byte b1 = Some (BufferedInput.EOF, b2)
    /\ BufferedInput.lineno b1
       = u64 (1 + Z.of_nat (length (filter (fun x => x = 10)
                                           (Utf8.encode [0x61; 10; 0x20AC])))).
Proof.
  apply (read_utf8_text [] [0x61; 10; 0x20AC] [0; 0; 0; 0]).
  - repeat constructor; lia.
  - reflexivity.
  - repeat constructor; lia.
Defined.

(** The constructor fails its assertion on an input with a predefined
    table, and passes with a page of the caller and with the UTF
    encodings. *)
Example fresh_encodings (page data buf : list Z) :
  BufferedInput.fresh (Input.mkInput Input.latin1 page data) buf = None
  /\ BufferedInput.fresh (Input.mkInput Input.codepage page data) buf = None
  /\ BufferedInput.fresh (Input.mkInput Input.custom page data) buf
     = Some (BufferedInput.mkBufferedInput (Input.mkInput Input.custom page data)
               buf 0 0 [] 1 1)
  /\ BufferedInput.fresh (Input.mkInput Input.utf16le page data) buf
     = Some (BufferedInput.mkBufferedInput (Input.mkInput Input.utf16le page data)
               buf 0 0 [] 1 1).
Proof. repeat split. Qed.

(** ** Character sets: insertion, set algebra, order, bounds *)

Lemma five_cases (q : Z) : 0 <= q < 5 -> q = 0 \/ q = 1 \/ q = 2 \/ q = 3 \/ q = 4.
Proof. lia. Qed.

Lemma div64_range (i : Z) : 0 <= i < 320 -> 0 <= i / 64 < 5.
Proof. intros Hi. Z.div_mod_to_equations. lia. Qed.

Ltac word_cases q :=
  let E := fresh "E" in
  destruct (five_cases q) as [E | [E | [E | [E | E]]]];
  [try (apply div64_range; assumption); try lia| | | | |]; rewrite ?E in *.

Lemma contains_bit (s : Chars.Chars) (c : Z) :
  0 <= c < 320 -> Chars.contains s c = Some (Chars.bit s c).
Proof.
  intros Hc. rewrite contains_testbit by lia. unfold Chars.bit.
  word_cases (c / 64); reflexivity.
Qed.

Lemma testbit_one_shift (k n : Z) :
  0 <= k -> Z.testbit (Z.shiftl 1 k) n = (n =? k).
Proof.
  intros Hk. rewrite Z.shiftl_1_l, Z.pow2_bits_eqb by lia. apply Z.eqb_sym.
Qed.

Lemma same_char (i c : Z) :
  (i =? c) = (i / 64 =? c / 64) && (i mod 64 =? c mod 64).
Proof.
  destruct (Z.eqb_spec i c) as [-> | Hne].
  - rewrite !Z.eqb_refl. reflexivity.
  - symmetry. apply andb_false_iff.
    destruct (Z.eqb_spec (i / 64) (c / 64)); [|tauto].
    destruct (Z.eqb_spec (i mod 64) (c mod 64)); [|tauto].
    exfalso. apply Hne. Z.div_mod_to_equations. lia.
Qed.

Lemma insert_bit (s : Chars.Chars) (c : Z) :
  0 <= c < 320 ->
  exists s', Chars.insert s c = Some s'
             /\ forall i, 0 <= i < 320 ->
                  Chars.bit s' i = Chars.bit s i || (i =? c).
Proof.
  intros Hc. unfold Chars.insert.
  rewrite Z.shiftr_div_pow2 by lia. change (2 ^ 6) with 64.
  change 0x3F with (2 ^ 6 - 1). rewrite land_low_mask by lia. change (2 ^ 6) with 64.
  assert (0 <= c mod 64 < 64) as Hm by (apply Z.mod_pos_bound; lia).
  word_cases (c / 64); cbn [Z.eqb]; eexists; (split; [reflexivity|]);
    intros i Hi; rewrite (same_char i c), E; unfold Chars.bit;
    word_cases (i / 64);
    cbn [Chars.word Z.eqb Pos.eqb Chars.b0 Chars.b1 Chars.b2 Chars.b3 Chars.b4 andb];
    rewrite ?orb_false_r; try reflexivity;
    rewrite Z.lor_spec, testbit_one_shift by lia; reflexivity.
Qed.

Lemma insert_loop_bit (cnt : nat) : forall (s : Chars.Chars) (lo : Z),
  0 <= lo -> lo + Z.of_nat cnt <= 320 ->
  exists s', Chars.insert_loop cnt s lo = Some s'
             /\ forall i, 0 <= i < 320 ->
                  Chars.bit s' i
                  = Chars.bit s i || ((lo <=? i) && (i <? lo + Z.of_nat cnt)).
Proof.
  induction cnt as [|cnt IH]; intros s lo Hlo Hhi.
  - exists s. split; [reflexivity|]. intros i Hi.
    replace (i <? lo + Z.of_nat 0) with (i <? lo) by (f_equal; lia).
    destruct (Z.leb_spec lo i), (Z.ltb_spec i lo); try lia;
      cbn [andb]; rewrite orb_false_r; reflexivity.
  - destruct (insert_bit s lo) as (s1 & Hs1 & Hb1); [lia|].
    cbn [Chars.insert_loop]. rewrite Hs1. cbn [mbind option_bind].
    assert (u16 (lo + 1) = lo + 1) as -> by (unfold u16; apply Z.mod_small; lia).
    destruct (IH s1 (lo + 1)) as (s' & Hs' & Hb'); [lia|lia|].
    exists s'. split; [exact Hs'|]. intros i Hi.
    rewrite Hb', Hb1 by lia.
    destruct (Z.eqb_spec i lo), (Z.leb_spec lo i), (Z.leb_spec (lo + 1) i),
      (Z.ltb_spec i (lo + 1 + Z.of_nat cnt)), (Z.ltb_spec i (lo + Z.of_nat (S cnt)));
      try lia; cbn [andb orb]; rewrite ?orb_false_r, ?orb_true_r; reflexivity.
Qed.

(** X16.  Inserting a character or a range of characters below 320 into a
    character set makes exactly these characters members in addition to
    the former ones; a range with [hi < lo] adds nothing. *)
Theorem chars_insert_contains (s : Chars.Chars) (lo hi : Z) :
  0 <= lo < 320 -> hi < 320 ->
  (exists s1, Chars.insert s lo = Some s1
              /\ forall c, 0 <= c < 320 ->
                   Chars.contains s1 c = Some (Chars.bit s c || (c =? lo)))
  /\ (exists s2, Chars.insert_range s lo hi = Some s2
                 /\ forall c, 0 <= c < 320 ->
                      Chars.contains s2 c
                      = Some (Chars.bit s c || ((lo <=? c) && (c <=? hi)))).
Proof.
  intros Hlo Hhi. split.
  - destruct (insert_bit s lo Hlo) as (s1 & Hs1 & Hb).
    exists s1. split; [exact Hs1|]. intros c Hc.
    rewrite contains_bit, Hb by lia. reflexivity.
  - unfold Chars.insert_range.
    destruct (insert_loop_bit (Z.to_nat (hi + 1 - lo)) s lo) as (s2 & Hs2 & Hb);
      [lia|lia|].
    exists s2. split; [exact Hs2|]. intros c Hc.
    rewrite contains_bit, Hb by lia. do 2 f_equal.
    destruct (Z.leb_spec lo c); cbn [andb]; [|reflexivity].
    destruct (Z.ltb_spec c (lo + Z.of_nat (Z.to_nat (hi + 1 - lo)))),
      (Z.leb_spec c hi); try lia; reflexivity.
Qed.

Lemma chars_insert_contains_witness :
  exists s2, Chars.insert_range Chars.clear 97 99 = Some s2
             /\ Chars.contains s2 98 = Some true
             /\ Chars.contains s2 100 = Some false.
Proof.
  destruct (chars_insert_contains Chars.clear 97 99) as [_ (s2 & Hs2 & Hc)];
    [lia|lia|].
  exists s2. split; [exact Hs2|]. split.
  - rewrite Hc by lia. reflexivity.
  - rewrite Hc by lia. reflexivity.
Defined.

Lemma bit_or (s c : Chars.Chars) (i : Z) :
  0 <= i < 320 -> Chars.bit (Chars.or s c) i = Chars.bit s i || Chars.bit c i.
Proof.
  intros Hi. unfold Chars.bit. word_cases (i / 64); apply Z.lor_spec.
Qed.

Lemma bit_and (s c : Chars.Chars) (i : Z) :
  0 <= i < 320 -> Chars.bit (Chars.and s c) i = Chars.bit s i && Chars.bit c i.
Proof.
  intros Hi. unfold Chars.bit. word_cases (i / 64); apply Z.land_spec.
Qed.

Lemma bit_xor (s c : Chars.Chars) (i : Z) :
  0 <= i < 320 -> Chars.bit (Chars.xor s c) i = xorb (Chars.bit s i) (Chars.bit c i).
Proof.
  intros Hi. unfold Chars.bit. word_cases (i / 64); apply Z.lxor_spec.
Qed.

Lemma bit_diff (s c : Chars.Chars) (i : Z) :
  0 <= i < 320 ->
  Chars.bit (Chars.diff s c) i = Chars.bit s i && negb (Chars.bit c i).
Proof.
  intros Hi. unfold Chars.bit.
  assert (0 <= i mod 64 < 64) as Hm by (apply Z.mod_pos_bound; lia).
  word_cases (i / 64);
    cbn [Chars.word Chars.diff Z.eqb Pos.eqb Chars.b0 Chars.b1 Chars.b2 Chars.b3 Chars.b4];
    rewrite Z.land_spec, testbit_u64_lnot by lia; reflexivity.
Qed.

Lemma bit_flip (s : Chars.Chars) (i : Z) :
  0 <= i < 320 -> Chars.bit (Chars.flip s) i = negb (Chars.bit s i).
Proof.
  intros Hi. unfold Chars.bit.
  assert (0 <= i mod 64 < 64) as Hm by (apply Z.mod_pos_bound; lia).
  word_cases (i / 64);
    cbn [Chars.word Chars.flip Z.eqb Pos.eqb Chars.b0 Chars.b1 Chars.b2 Chars.b3 Chars.b4];
    rewrite testbit_u64_lnot by lia; reflexivity.
Qed.

(** X17.  The operators of character sets are the set operations on members:
    [|] is union, [&] intersection, [^] symmetric difference, [-]
    difference and [~] the complement within the 320 characters. *)
Theorem chars_set_algebra (s c : Chars.Chars) (i : Z) :
  0 <= i < 320 ->
  Chars.bit (Chars.or s c) i = Chars.bit s i || Chars.bit c i
  /\ Chars.bit (Chars.and s c) i = Chars.bit s i && Chars.bit c i
  /\ Chars.bit (Chars.xor s c) i = xorb (Chars.bit s i) (Chars.bit c i)
  /\ Chars.bit (Chars.diff s c) i = Chars.bit s i && negb (Chars.bit c i)
  /\ Chars.bit (Chars.flip s) i = negb (Chars.bit s i).
Proof.
  intros Hi.
  repeat split;
    [apply bit_or | apply bit_and | apply bit_xor | apply bit_diff | apply bit_flip];
    exact Hi.
Qed.

Lemma chars_set_algebra_witness :
  Chars.bit (Chars.diff (Chars.mk 6 0 0 0 0) (Chars.mk 2 0 0 0 0)) 2 = true.
Proof.
  destruct (chars_set_algebra (Chars.mk 6 0 0 0 0) (Chars.mk 2 0 0 0 0) 2)
    as (_ & _ & _ & H & _); [lia|].
  rewrite H. reflexivity.
Defined.
Lemma word_nonzero (w : Z) :
  0 <= w < 2 ^ 64 ->
  (w =? 0) = false <-> exists j, 0 <= j < 64 /\ Z.testbit w j = true.
Proof.
  intros Hw. split.
  - intros H0. apply Z.eqb_neq in H0. exists (Z.log2 w).
    assert (Z.log2 w < 64) by (apply Z.log2_lt_pow2; lia).
    pose proof (Z.log2_nonneg w).
    split; [lia|]. apply Z.bit_log2. lia.
  - intros (j & Hj & Hb). apply Z.eqb_neq. intros ->.
    rewrite Z.bits_0 in Hb. discriminate.
Qed.

Lemma bit_word (s : Chars.Chars) (q j : Z) :
  0 <= q < 5 -> 0 <= j < 64 ->
  Chars.bit s (64 * q + j)
  = match Chars.word s q with Some w => Z.testbit w j | None => false end.
Proof.
  intros Hq Hj. unfold Chars.bit.
  assert ((64 * q + j) / 64 = q) as -> by (Z.div_mod_to_equations; lia).
  assert ((64 * q + j) mod 64 = j) as -> by (Z.div_mod_to_equations; lia).
  reflexivity.
Qed.

Lemma any_bit (s : Chars.Chars) :
  Chars.wf s ->
  Chars.any s = true <-> exists i, 0 <= i < 320 /\ Chars.bit s i = true.
Proof.
  intros (H0 & H1 & H2 & H3 & H4). unfold Chars.any.
  rewrite !orb_true_iff, !negb_true_iff.
  rewrite !word_nonzero by assumption. split.
  - intros [[[[(j & Hj & Hb) | (j & Hj & Hb)] | (j & Hj & Hb)] | (j & Hj & Hb)]
            | (j & Hj & Hb)];
      [exists (64 * 0 + j) | exists (64 * 1 + j) | exists (64 * 2 + j)
       | exists (64 * 3 + j) | exists (64 * 4 + j)];
      (split; [lia|]); rewrite bit_word by lia; exact Hb.
  - intros (i & Hi & Hb). unfold Chars.bit in Hb.
    assert (0 <= i mod 64 < 64) as Hm by (apply Z.mod_pos_bound; lia).
    word_cases (i / 64); cbn in Hb;
      [do 4 left | do 3 left; right | do 2 left; right | left; right | right];
      exists (i mod 64); (split; [exact Hm | exact Hb]).
Qed.

Lemma wf_land_l (s c : Chars.Chars) : Chars.wf s -> Chars.wf (Chars.and s c).
Proof.
  assert (forall a b, 0 <= a < 2 ^ 64 -> 0 <= Z.land a b < 2 ^ 64) as Hl.
  { intros a b Ha.
    replace (Z.land a b) with (Z.land a b mod 2 ^ 64);
      [apply Z.mod_pos_bound; lia|].
    rewrite <- Z.land_ones by lia.
    rewrite <- Z.land_assoc, (Z.land_comm b), Z.land_assoc, Z.land_ones by lia.
    rewrite (Z.mod_small a) by lia. reflexivity. }
  intros (H0 & H1 & H2 & H3 & H4). unfold Chars.wf, Chars.and.
  cbn [Chars.b0 Chars.b1 Chars.b2 Chars.b3 Chars.b4].
  repeat split; apply Hl; assumption.
Qed.

Lemma wf_diff (s c : Chars.Chars) : Chars.wf s -> Chars.wf (Chars.diff s c).
Proof.
  intros Hs.
  exact (wf_land_l s (Chars.mk (u64 (Z.lnot (Chars.b0 c))) (u64 (Z.lnot (Chars.b1 c)))
                        (u64 (Z.lnot (Chars.b2 c))) (u64 (Z.lnot (Chars.b3 c)))
                        (u64 (Z.lnot (Chars.b4 c)))) Hs).
Qed.

(** X18.  For sets of 64-bit words, [contains(const Chars&)] is the subset
    test and [intersects] tells whether the two sets share a member. *)
Theorem chars_subset_intersects (s c : Chars.Chars) :
  Chars.wf s -> Chars.wf c ->
  (Chars.contains_set s c = true
   <-> forall i, 0 <= i < 320 -> Chars.bit c i = true -> Chars.bit s i = true)
  /\ (Chars.intersects s c = true
      <-> exists i, 0 <= i < 320 /\ Chars.bit s i = true /\ Chars.bit c i = true).
Proof.
  intros Hs Hc. split.
  - unfold Chars.contains_set. rewrite negb_true_iff. split.
    + intros Hany i Hi Hb.
      destruct (Chars.bit s i) eqn:Hsi; [reflexivity|].
      assert (Chars.any (Chars.diff c s) = true) as Ht.
      { apply any_bit; [apply wf_diff; exact Hc|].
        exists i. split; [exact Hi|]. rewrite bit_diff, Hb, Hsi by lia. reflexivity. }
      congruence.
    + intros Hsub. apply not_true_is_false. intros Hany.
      apply any_bit in Hany; [|apply wf_diff; exact Hc].
      destruct Hany as (i & Hi & Hb). rewrite bit_diff in Hb by lia.
      apply andb_true_iff in Hb as [Hb1 Hb2].
      rewrite (Hsub i Hi Hb1) in Hb2. discriminate.
  - change (Chars.intersects s c) with (Chars.any (Chars.and s c)).
    rewrite any_bit by (apply wf_land_l; exact Hs). split.
    + intros (i & Hi & Hb). rewrite bit_and in Hb by lia.
      apply andb_true_iff in Hb. exists i. tauto.
    + intros (i & Hi & Hb1 & Hb2). exists i. split; [exact Hi|].
      rewrite bit_and, Hb1, Hb2 by lia. reflexivity.
Qed.

Lemma chars_subset_intersects_witness :
  Chars.bit (Chars.mk 6 0 0 0 0) 1 = true
  /\ exists i, 0 <= i < 320 /\ Chars.bit (Chars.mk 6 0 0 0 0) i = true
                /\ Chars.bit (Chars.mk 3 0 0 0 0) i = true.
Proof.
  assert (forall a, 0 <= a < 8 -> Chars.wf (Chars.mk a 0 0 0 0)) as Hwf.
  { intros a Ha. unfold Chars.wf. simpl. lia. }
  split.
  - destruct (chars_subset_intersects (Chars.mk 6 0 0 0 0) (Chars.mk 2 0 0 0 0))
      as [[H _] _]; [apply Hwf; lia | apply Hwf; lia |].
    apply H; [reflexivity | lia | reflexivity].
  - destruct (chars_subset_intersects (Chars.mk 6 0 0 0 0) (Chars.mk 3 0 0 0 0))
      as [_ [H _]]; [apply Hwf; lia | apply Hwf; lia |].
    apply H. reflexivity.
Defined.

(** X19.  [operator<] is a strict total order on character sets that agrees
    with [operator==]: it is irreflexive and transitive, and of two sets
    exactly one of less, equal and greater holds. *)
Theorem chars_lt_strict_total (a b c : Chars.Chars) :
  Chars.lt a a = false
  /\ implb (Chars.lt a b && Chars.lt b c) (Chars.lt a c) = true
  /\ Chars.lt a b || Chars.eqb a b || Chars.lt b a = true
  /\ Chars.lt a b && Chars.lt b a = false
  /\ Chars.lt a b && Chars.eqb a b = false
  /\ (Chars.eqb a b = true <-> a = b).
Proof.
  destruct a as [a0 a1 a2 a3 a4], b as [x0 x1 x2 x3 x4], c as [c0 c1 c2 c3 c4].
  unfold Chars.lt, Chars.eqb.
  cbn [Chars.b0 Chars.b1 Chars.b2 Chars.b3 Chars.b4].
  split; [|split; [|split; [|split; [|split; [|split]]]]]; try lia.
  - rewrite !andb_true_iff, !Z.eqb_eq. intros ((((-> & ->) & ->) & ->) & ->).
    reflexivity.
  - intros [= -> -> -> -> ->]. rewrite !Z.eqb_refl. reflexivity.
Qed.
Lemma first_bit_spec (w : Z) (cnt : nat) : forall j, 0 <= j ->
  match Chars.first_bit w j cnt with
  | Some m => j <= m < j + Z.of_nat cnt /\ Z.testbit w m = true
              /\ forall n, j <= n < m -> Z.testbit w n = false
  | None => forall n, j <= n < j + Z.of_nat cnt -> Z.testbit w n = false
  end.
Proof.
  induction cnt as [|cnt IH]; intros j Hj; cbn [Chars.first_bit].
  - intros n Hn. lia.
  - rewrite bit_set_testbit by lia. destruct (Z.testbit w j) eqn:E.
    + split; [lia|]. split; [exact E|]. intros n Hn. lia.
    + specialize (IH (j + 1) ltac:(lia)).
      destruct (Chars.first_bit w (j + 1) cnt) as [m|].
      * destruct IH as (Hm & Hb & Hl). split; [lia|]. split; [exact Hb|].
        intros n Hn. destruct (Z.eq_dec n j) as [-> | Hne]; [exact E|apply Hl; lia].
      * intros n Hn. destruct (Z.eq_dec n j) as [-> | Hne]; [exact E|apply IH; lia].
Qed.

Lemma last_bit_spec (w : Z) (cnt : nat) : forall j,
  0 <= j -> j + Z.of_nat cnt <= 64 ->
  match Chars.last_bit w j cnt with
  | Some m => 63 - j - Z.of_nat cnt < m <= 63 - j /\ Z.testbit w m = true
              /\ forall n, m < n <= 63 - j -> Z.testbit w n = false
  | None => forall n, 63 - j - Z.of_nat cnt < n <= 63 - j -> Z.testbit w n = false
  end.
Proof.
  induction cnt as [|cnt IH]; intros j Hj Hc; cbn [Chars.last_bit].
  - intros n Hn. lia.
  - rewrite bit_set_testbit by lia. destruct (Z.testbit w (63 - j)) eqn:E.
    + split; [lia|]. split; [exact E|]. intros n Hn. lia.
    + specialize (IH (j + 1) ltac:(lia) ltac:(lia)).
      destruct (Chars.last_bit w (j + 1) cnt) as [m|].
      * destruct IH as (Hm & Hb & Hl). split; [lia|]. split; [exact Hb|].
        intros n Hn.
        destruct (Z.eq_dec n (63 - j)) as [-> | Hne]; [exact E|apply Hl; lia].
      * intros n Hn.
        destruct (Z.eq_dec n (63 - j)) as [-> | Hne]; [exact E|apply IH; lia].
Qed.

Lemma word_char (i m : Z) : 0 <= i < 5 -> 0 <= m < 64 ->
  u16 (Z.shiftl i 6 + m) = 64 * i + m.
Proof.
  intros Hi Hm. rewrite Z.shiftl_mul_pow2 by lia. change (2 ^ 6) with 64.
  unfold u16. rewrite Z.mod_small; lia.
Qed.

Lemma lo_word_spec (i w : Z) :
  0 <= i < 5 -> 0 <= w < 2 ^ 64 ->
  match Chars.lo_word i w with
  | Some r => exists m, r = 64 * i + m /\ 0 <= m < 64 /\ Z.testbit w m = true
                        /\ forall n, 0 <= n < m -> Z.testbit w n = false
  | None => w = 0
  end.
Proof.
  intros Hi Hw. unfold Chars.lo_word.
  destruct (Z.eqb_spec w 0) as [E | E]; cbn [negb]; [exact E|].
  pose proof (first_bit_spec w 64 0 ltac:(lia)) as Hf.
  destruct (Chars.first_bit w 0 64) as [m|]; cbn [mbind option_bind].
  - destruct Hf as (Hm & Hb & Hl). exists m.
    split; [apply word_char; lia|]. split; [lia|]. split; [exact Hb|exact Hl].
  - exfalso. apply Z.eqb_neq in E. apply word_nonzero in E; [|exact Hw].
    destruct E as (j & Hj & Hb). rewrite Hf in Hb by lia. discriminate.
Qed.

Lemma hi_word_spec (i w : Z) :
  0 <= i < 5 -> 0 <= w < 2 ^ 64 ->
  match Chars.hi_word i w with
  | Some r => exists m, r = 64 * i + m /\ 0 <= m < 64 /\ Z.testbit w m = true
                        /\ forall n, m < n < 64 -> Z.testbit w n = false
  | None => w = 0
  end.
Proof.
  intros Hi Hw. unfold Chars.hi_word.
  destruct (Z.eqb_spec w 0) as [E | E]; cbn [negb]; [exact E|].
  pose proof (last_bit_spec w 64 0 ltac:(lia) ltac:(lia)) as Hf.
  destruct (Chars.last_bit w 0 64) as [m|]; cbn [mbind option_bind].
  - destruct Hf as (Hm & Hb & Hl). exists m.
    split; [apply word_char; lia|]. split; [lia|]. split; [exact Hb|].
    intros n Hn. apply Hl. lia.
  - exfalso. apply Z.eqb_neq in E. apply word_nonzero in E; [|exact Hw].
    destruct E as (j & Hj & Hb). rewrite Hf in Hb by lia. discriminate.
Qed.

(** The first member of a set: all words before word [q] are empty and [m]
    is the lowest bit of word [q]. *)
Lemma lo_candidate (s : Chars.Chars) (q m w : Z) :
  0 <= q < 5 -> 0 <= m < 64 ->
  (forall q', 0 <= q' < q -> Chars.word s q' = Some 0) ->
  Chars.word s q = Some w -> Z.testbit w m = true ->
  (forall n, 0 <= n < m -> Z.testbit w n = false) ->
  Chars.bit s (64 * q + m) = true
  /\ forall i, 0 <= i < 320 -> Chars.bit s i = true -> 64 * q + m <= i.
Proof.
  intros Hq Hm Hz Hw Hb Hl. split.
  - rewrite bit_word, Hw by lia. exact Hb.
  - intros i Hi Hbi. destruct (Z_lt_le_dec i (64 * q + m)) as [Hlt|]; [exfalso|lia].
    unfold Chars.bit in Hbi.
    assert (0 <= i mod 64 < 64) as Hr by (apply Z.mod_pos_bound; lia).
    destruct (Z_lt_le_dec (i / 64) q) as [Hq'|Hq'].
    + rewrite Hz, Z.bits_0 in Hbi; [discriminate|].
      split; [apply Z.div_pos; lia|exact Hq'].
    + assert (i / 64 = q) as Eq by (Z.div_mod_to_equations; lia).
      rewrite Eq, Hw, Hl in Hbi; [discriminate|].
      Z.div_mod_to_equations. lia.
Qed.

Lemma hi_candidate (s : Chars.Chars) (q m w : Z) :
  0 <= q < 5 -> 0 <= m < 64 ->
  (forall q', q < q' < 5 -> Chars.word s q' = Some 0) ->
  Chars.word s q = Some w -> Z.testbit w m = true ->
  (forall n, m < n < 64 -> Z.testbit w n = false) ->
  Chars.bit s (64 * q + m) = true
  /\ forall i, 0 <= i < 320 -> Chars.bit s i = true -> i <= 64 * q + m.
Proof.
  intros Hq Hm Hz Hw Hb Hl. split.
  - rewrite bit_word, Hw by lia. exact Hb.
  - intros i Hi Hbi. destruct (Z_lt_le_dec (64 * q + m) i) as [Hlt|]; [exfalso|lia].
    unfold Chars.bit in Hbi.
    assert (0 <= i mod 64 < 64) as Hr by (apply Z.mod_pos_bound; lia).
    destruct (Z_lt_le_dec q (i / 64)) as [Hq'|Hq'].
    + rewrite Hz, Z.bits_0 in Hbi; [discriminate|].
      split; [exact Hq'|]. Z.div_mod_to_equations. lia.
    + assert (i / 64 = q) as Eq by (Z.div_mod_to_equations; lia).
      rewrite Eq, Hw, Hl in Hbi; [discriminate|].
      Z.div_mod_to_equations. lia.
Qed.

Lemma word_zero_cases (s : Chars.Chars) (a b : Z) :
  (forall q, a <= q < b -> q = 0 -> Chars.b0 s = 0) ->
  (forall q, a <= q < b -> q = 1 -> Chars.b1 s = 0) ->
  (forall q, a <= q < b -> q = 2 -> Chars.b2 s = 0) ->
  (forall q, a <= q < b -> q = 3 -> Chars.b3 s = 0) ->
  (forall q, a <= q < b -> q = 4 -> Chars.b4 s = 0) ->
  0 <= a -> b <= 5 ->
  forall q, a <= q < b -> Chars.word s q = Some 0.
Proof.
  intros H0 H1 H2 H3 H4 Ha Hb q Hq.
  destruct (five_cases q) as [E | [E | [E | [E | E]]]]; [lia| | | | |]; subst q;
    unfold Chars.word; cbn [Z.eqb Pos.eqb]; f_equal; eauto.
Qed.

Lemma lo_spec (s : Chars.Chars) :
  Chars.wf s ->
  (Chars.any s = false /\ Chars.lo s = 0)
  \/ (0 <= Chars.lo s < 320 /\ Chars.bit s (Chars.lo s) = true
      /\ forall i, 0 <= i < 320 -> Chars.bit s i = true -> Chars.lo s <= i).
Proof.
  intros (W0 & W1 & W2 & W3 & W4). unfold Chars.lo.
  pose proof (lo_word_spec 0 (Chars.b0 s) ltac:(lia) W0) as S0.
  pose proof (lo_word_spec 1 (Chars.b1 s) ltac:(lia) W1) as S1.
  pose proof (lo_word_spec 2 (Chars.b2 s) ltac:(lia) W2) as S2.
  pose proof (lo_word_spec 3 (Chars.b3 s) ltac:(lia) W3) as S3.
  pose proof (lo_word_spec 4 (Chars.b4 s) ltac:(lia) W4) as S4.
  destruct (Chars.lo_word 0 (Chars.b0 s)) as [r|].
  { right. destruct S0 as (m & -> & Hm & Hb & Hl). split; [lia|].
    apply (lo_candidate s 0 m (Chars.b0 s)); try assumption; try lia; reflexivity. }
  destruct (Chars.lo_word 1 (Chars.b1 s)) as [r|].
  { right. destruct S1 as (m & -> & Hm & Hb & Hl). split; [lia|].
    apply (lo_candidate s 1 m (Chars.b1 s)); try assumption; try lia; try reflexivity.
    apply (word_zero_cases s 0 1); intros; lia. }
  destruct (Chars.lo_word 2 (Chars.b2 s)) as [r|].
  { right. destruct S2 as (m & -> & Hm & Hb & Hl). split; [lia|].
    apply (lo_candidate s 2 m (Chars.b2 s)); try assumption; try lia; try reflexivity.
    apply (word_zero_cases s 0 2); intros; lia. }
  destruct (Chars.lo_word 3 (Chars.b3 s)) as [r|].
  { right. destruct S3 as (m & -> & Hm & Hb & Hl). split; [lia|].
    apply (lo_candidate s 3 m (Chars.b3 s)); try assumption; try lia; try reflexivity.
    apply (word_zero_cases s 0 3); intros; lia. }
  destruct (Chars.lo_word 4 (Chars.b4 s)) as [r|].
  { right. destruct S4 as (m & -> & Hm & Hb & Hl). split; [lia|].
    apply (lo_candidate s 4 m (Chars.b4 s)); try assumption; try lia; try reflexivity.
    apply (word_zero_cases s 0 4); intros; lia. }
  left. split; [|reflexivity]. unfold Chars.any.
  rewrite S0, S1, S2, S3, S4. reflexivity.
Qed.

Lemma hi_spec (s : Chars.Chars) :
  Chars.wf s ->
  (Chars.any s = false /\ Chars.hi s = 0)
  \/ (0 <= Chars.hi s < 320 /\ Chars.bit s (Chars.hi s) = true
      /\ forall i, 0 <= i < 320 -> Chars.bit s i = true -> i <= Chars.hi s).
Proof.
  intros (W0 & W1 & W2 & W3 & W4). unfold Chars.hi.
  pose proof (hi_word_spec 0 (Chars.b0 s) ltac:(lia) W0) as S0.
  pose proof (hi_word_spec 1 (Chars.b1 s) ltac:(lia) W1) as S1.
  pose proof (hi_word_spec 2 (Chars.b2 s) ltac:(lia) W2) as S2.
  pose proof (hi_word_spec 3 (Chars.b3 s) ltac:(lia) W3) as S3.
  pose proof (hi_word_spec 4 (Chars.b4 s) ltac:(lia) W4) as S4.
  destruct (Chars.hi_word 4 (Chars.b4 s)) as [r|].
  { right. destruct S4 as (m & -> & Hm & Hb & Hl). split; [lia|].
    apply (hi_candidate s 4 m (Chars.b4 s)); try assumption; try lia; reflexivity. }
  destruct (Chars.hi_word 3 (Chars.b3 s)) as [r|].
  { right. destruct S3 as (m & -> & Hm & Hb & Hl). split; [lia|].
    apply (hi_candidate s 3 m (Chars.b3 s)); try assumption; try lia; try reflexivity.
    intros q' Hq'. apply (word_zero_cases s 4 5); intros; lia. }
  destruct (Chars.hi_word 2 (Chars.b2 s)) as [r|].
  { right. destruct S2 as (m & -> & Hm & Hb & Hl). split; [lia|].
    apply (hi_candidate s 2 m (Chars.b2 s)); try assumption; try lia; try reflexivity.
    intros q' Hq'. apply (word_zero_cases s 3 5); intros; lia. }
  destruct (Chars.hi_word 1 (Chars.b1 s)) as [r|].
  { right. destruct S1 as (m & -> & Hm & Hb & Hl). split; [lia|].
    apply (hi_candidate s 1 m (Chars.b1 s)); try assumption; try lia; try reflexivity.
    intros q' Hq'. apply (word_zero_cases s 2 5); intros; lia. }
  destruct (Chars.hi_word 0 (Chars.b0 s)) as [r|].
  { right. destruct S0 as (m & -> & Hm & Hb & Hl). split; [lia|].
    apply (hi_candidate s 0 m (Chars.b0 s)); try assumption; try lia; try reflexivity.
    intros q' Hq'. apply (word_zero_cases s 1 5); intros; lia. }
  left. split; [|reflexivity]. unfold Chars.any.
  rewrite S0, S1, S2, S3, S4. reflexivity.
Qed.

(** X20.  For a set of 64-bit words, [lo()] and [hi()] return the least and
    the greatest member; on the empty set both return 0, which is also what
    they return on the set that holds only character 0. *)
Theorem chars_lo_hi (s : Chars.Chars) :
  Chars.wf s ->
  if Chars.any s
  then 0 <= Chars.lo s <= Chars.hi s /\ Chars.hi s < 320
       /\ Chars.bit s (Chars.lo s) = true /\ Chars.bit s (Chars.hi s) = true
       /\ forall i, 0 <= i < 320 -> Chars.bit s i = true ->
            Chars.lo s <= i <= Chars.hi s
  else Chars.lo s = 0 /\ Chars.hi s = 0.
Proof.
  intros Hwf.
  destruct (lo_spec s Hwf) as [[Ha Hl] | (Hr & Hb & Hmin)];
    destruct (hi_spec s Hwf) as [[Ha' Hh] | (Hr' & Hb' & Hmax)].
  - rewrite Ha. split; assumption.
  - assert (Chars.any s = true) as Ht by (apply any_bit; eauto). congruence.
  - assert (Chars.any s = true) as Ht by (apply any_bit; eauto). congruence.
  - assert (Chars.any s = true) as -> by (apply any_bit; eauto).
    pose proof (Hmax _ Hr Hb).
    split; [lia|]. split; [lia|]. split; [exact Hb|]. split; [exact Hb'|].
    intros i Hi Hbi. split; [apply Hmin | apply Hmax]; assumption.
Qed.

Lemma chars_lo_hi_witness :
  Chars.lo (Chars.mk 6 0 0 0 0) <= 2 <= Chars.hi (Chars.mk 6 0 0 0 0)
  /\ Chars.bit (Chars.mk 6 0 0 0 0) (Chars.lo (Chars.mk 6 0 0 0 0)) = true.
Proof.
  assert (Chars.wf (Chars.mk 6 0 0 0 0)) as Hwf by (unfold Chars.wf; simpl; lia).
  pose proof (chars_lo_hi (Chars.mk 6 0 0 0 0) Hwf) as H.
  change (Chars.any (Chars.mk 6 0 0 0 0)) with true in H. cbv iota in H.
  destruct H as (_ & _ & Hlo & _ & H).
  split; [apply H; [lia|reflexivity] | exact Hlo].
Defined.
(** ** Positions: the packed fields do not disturb each other *)

Lemma testbit_above (x m n : Z) :
  0 <= x < 2 ^ m -> 0 <= m <= n -> Z.testbit x n = false.
Proof.
  intros Hx Hn. destruct (Z.eq_dec x 0) as [-> | Hne]; [apply Z.bits_0|].
  apply Z.bits_above_log2; [lia|].
  assert (Z.log2 x < m) by (apply Z.log2_lt_pow2; lia). lia.
Qed.

Lemma below_pow2 (x m : Z) :
  0 <= m -> 0 <= x -> (forall n, m <= n -> Z.testbit x n = false) -> x < 2 ^ m.
Proof.
  intros Hm Hx Hb. destruct (Z_lt_le_dec x (2 ^ m)) as [|Hge]; [assumption|exfalso].
  assert (0 < x) as Hpos by (pose proof (Z.pow_pos_nonneg 2 m); lia).
  assert (m <= Z.log2 x) as Hl by (apply Z.log2_le_pow2; lia).
  pose proof (Z.bit_log2 x Hpos) as Ht. rewrite Hb in Ht by lia. discriminate.
Qed.

(** Bits [lo .. lo + len - 1] as a number. *)
Lemma field_eq (a b lo len : Z) :
  0 <= lo -> 0 <= len ->
  (forall n, lo <= n < lo + len -> Z.testbit a n = Z.testbit b n) ->
  Z.shiftr a lo mod 2 ^ len = Z.shiftr b lo mod 2 ^ len.
Proof.
  intros Hlo Hlen Hb. apply Z.bits_inj'. intros n Hn.
  destruct (Z_lt_le_dec n len).
  - rewrite !Z.mod_pow2_bits_low, !Z.shiftr_spec by lia. apply Hb. lia.
  - rewrite !Z.mod_pow2_bits_high by lia. reflexivity.
Qed.

Lemma loc_field (k : Z) : Position.loc k = Z.shiftr k 0 mod 2 ^ 32.
Proof. rewrite Z.shiftr_0_r. reflexivity. Qed.

Lemma iter_field (k : Z) : Position.iter k = Z.shiftr k 32 mod 2 ^ 16.
Proof.
  unfold Position.iter, u16. change 0xFFFF with (2 ^ 16 - 1).
  rewrite land_low_mask by lia. apply Z.mod_mod. lia.
Qed.

Lemma lazy_field (k : Z) : Position.lazy k = Z.shiftr k 56 mod 2 ^ 8.
Proof. reflexivity. Qed.

Lemma get_flag_testbit (k p : Z) :
  0 <= p -> Position.get_flag (Z.shiftl 1 p) k = Z.testbit k p.
Proof. intros Hp. apply (bit_set_testbit k p Hp). Qed.

Lemma set_flag_testbit (k p n : Z) (b : bool) :
  0 <= p < 64 -> 0 <= n < 64 ->
  Z.testbit (Position.set_flag (Z.shiftl 1 p) k b) n
  = if n =? p then b else Z.testbit k n.
Proof.
  intros Hp Hn. unfold Position.set_flag. destruct b.
  - rewrite Z.lor_spec, testbit_one_shift by lia.
    destruct (n =? p); [apply orb_true_r|apply orb_false_r].
  - rewrite Z.land_spec, testbit_u64_lnot, testbit_one_shift by lia.
    destruct (n =? p); [apply andb_false_r|apply andb_true_r].
Qed.

Lemma land_u64_range (a b : Z) : 0 <= a < 2 ^ 64 -> 0 <= Z.land a b < 2 ^ 64.
Proof.
  intros Ha.
  replace (Z.land a b) with (Z.land a b mod 2 ^ 64);
    [apply Z.mod_pos_bound; lia|].
  rewrite <- Z.land_ones by lia.
  rewrite <- Z.land_assoc, (Z.land_comm b), Z.land_assoc, Z.land_ones by lia.
  rewrite (Z.mod_small a) by lia. reflexivity.
Qed.

Lemma lor_u64_range (a b : Z) :
  0 <= a < 2 ^ 64 -> 0 <= b < 2 ^ 64 -> 0 <= Z.lor a b < 2 ^ 64.
Proof.
  intros Ha Hb.
  assert (0 <= Z.lor a b) as Hnn by (apply Z.lor_nonneg; lia).
  split; [exact Hnn|]. apply below_pow2; [lia|exact Hnn|].
  intros n Hn. rewrite Z.lor_spec.
  rewrite (testbit_above a 64 n), (testbit_above b 64 n) by lia. reflexivity.
Qed.

Lemma flag_position (F : Z) :
  In F Position.flags -> exists p, 51 <= p <= 55 /\ F = Z.shiftl 1 p.
Proof.
  intros [<- | [<- | [<- | [<- | [<- | []]]]]];
    [exists 51 | exists 52 | exists 53 | exists 54 | exists 55];
    (split; [lia|reflexivity]).
Qed.

Lemma set_flag_range (k p : Z) (b : bool) :
  0 <= p < 64 -> 0 <= k < 2 ^ 64 ->
  0 <= Position.set_flag (Z.shiftl 1 p) k b < 2 ^ 64.
Proof.
  intros Hp Hk. unfold Position.set_flag. destruct b.
  - apply lor_u64_range; [exact Hk|].
    rewrite Z.shiftl_1_l. split; [apply Z.pow_nonneg; lia|].
    apply Z.pow_lt_mono_r; lia.
  - apply land_u64_range. exact Hk.
Qed.

(** X21.  Setting one of the five flags of a position to [b] makes its
    getter return [b] and changes nothing else: the other flags, the
    location, the iteration count and the lazy byte are as before. *)
Theorem position_flags_independent (F G k : Z) (b : bool) :
  In F Position.flags -> In G Position.flags -> 0 <= k < 2 ^ 64 ->
  Position.get_flag G (Position.set_flag F k b)
  = (if F =? G then b else Position.get_flag G k)
  /\ Position.loc (Position.set_flag F k b) = Position.loc k
  /\ Position.iter (Position.set_flag F k b) = Position.iter k
  /\ Position.lazy (Position.set_flag F k b) = Position.lazy k
  /\ 0 <= Position.set_flag F k b < 2 ^ 64.
Proof.
  intros HF HG Hk.
  destruct (flag_position F HF) as (p & Hp & ->).
  destruct (flag_position G HG) as (q & Hq & ->).
  split; [|split; [|split; [|split]]].
  - rewrite !get_flag_testbit, set_flag_testbit by lia.
    rewrite !Z.shiftl_1_l.
    destruct (Z.eqb_spec q p) as [-> | Hne].
    + rewrite Z.eqb_refl. reflexivity.
    + destruct (Z.eqb_spec (2 ^ p) (2 ^ q)) as [E|]; [|reflexivity].
      apply Z.pow_inj_r in E; lia.
  - rewrite !loc_field. apply field_eq; [lia|lia|]. intros n Hn.
    rewrite set_flag_testbit by lia.
    destruct (Z.eqb_spec n p); [lia|reflexivity].
  - rewrite !iter_field. apply field_eq; [lia|lia|]. intros n Hn.
    rewrite set_flag_testbit by lia.
    destruct (Z.eqb_spec n p); [lia|reflexivity].
  - rewrite !lazy_field. apply field_eq; [lia|lia|]. intros n Hn.
    rewrite set_flag_testbit by lia.
    destruct (Z.eqb_spec n p); [lia|reflexivity].
  - apply set_flag_range; [lia|exact Hk].
Qed.

Lemma position_flags_independent_witness :
  Position.greedy (Position.set_negate 0x0040000000000005 true) = false
  /\ Position.negate (Position.set_negate 0x0040000000000005 true) = true.
Proof.
  assert (0 <= 0x0040000000000005 < 2 ^ 64) as Hk by lia.
  split.
  - destruct (position_flags_independent Position.NEGATE Position.GREEDY
                0x0040000000000005 true) as [H _];
      [simpl; tauto | simpl; tauto | exact Hk |].
    exact H.
  - reflexivity.
Defined.

Lemma set_lazy_testbit (k l n : Z) :
  0 <= n < 64 ->
  Z.testbit (Position.set_lazy k l) n
  = if n <? 56 then Z.testbit k n else Z.testbit l (n - 56).
Proof.
  intros Hn. unfold Position.set_lazy, u64.
  change 0x00FFFFFFFFFFFFFF with (Z.ones 56).
  rewrite Z.lor_spec, Z.land_spec, Z.mod_pow2_bits_low, Z.shiftl_spec by lia.
  destruct (Z.ltb_spec n 56).
  - rewrite Z.ones_spec_low, (Z.testbit_neg_r l) by lia.
    rewrite andb_true_r, orb_false_r. reflexivity.
  - rewrite Z.ones_spec_high by lia. rewrite andb_false_r. reflexivity.
Qed.

Lemma pos_testbit (k n : Z) :
  0 <= n ->
  Z.testbit (Position.pos k) n = if n <? 48 then Z.testbit k n else false.
Proof.
  intros Hn. unfold Position.pos.
  change 0x0000FFFFFFFFFFFF with (Z.ones 48). rewrite Z.land_spec.
  destruct (Z.ltb_spec n 48).
  - rewrite Z.ones_spec_low by lia. apply andb_true_r.
  - rewrite Z.ones_spec_high by lia. apply andb_false_r.
Qed.

(** X22.  [lazy(l)] stores the byte [l] in the top byte of a position and
    keeps the location, the iteration count and the flags; [pos()] keeps
    the location and the iteration count and clears the flags and the lazy
    byte. *)
Theorem position_lazy_pos (F k l : Z) :
  In F Position.flags -> 0 <= l < 256 ->
  (Position.lazy (Position.set_lazy k l) = l
   /\ Position.loc (Position.set_lazy k l) = Position.loc k
   /\ Position.iter (Position.set_lazy k l) = Position.iter k
   /\ Position.get_flag F (Position.set_lazy k l) = Position.get_flag F k
   /\ Position.pos (Position.set_lazy k l) = Position.pos k)
  /\ (Position.lazy (Position.pos k) = 0
      /\ Position.loc (Position.pos k) = Position.loc k
      /\ Position.iter (Position.pos k) = Position.iter k
      /\ Position.get_flag F (Position.pos k) = false).
Proof.
  intros HF Hl. destruct (flag_position F HF) as (p & Hp & ->).
  split; [split; [|split; [|split; [|split]]] | split; [|split; [|split]]].
  - rewrite lazy_field. apply Z.bits_inj'. intros n Hn.
    destruct (Z_lt_le_dec n 8).
    + rewrite Z.mod_pow2_bits_low, Z.shiftr_spec, set_lazy_testbit by lia.
      destruct (Z.ltb_spec (n + 56) 56); [lia|]. f_equal. lia.
    + rewrite Z.mod_pow2_bits_high by lia. symmetry.
      apply (testbit_above l 8); [exact Hl|lia].
  - rewrite !loc_field. apply field_eq; [lia|lia|]. intros n Hn.
    rewrite set_lazy_testbit by lia. destruct (Z.ltb_spec n 56); [reflexivity|lia].
  - rewrite !iter_field. apply field_eq; [lia|lia|]. intros n Hn.
    rewrite set_lazy_testbit by lia. destruct (Z.ltb_spec n 56); [reflexivity|lia].
  - rewrite !get_flag_testbit, set_lazy_testbit by lia.
    destruct (Z.ltb_spec p 56); [reflexivity|lia].
  - apply Z.bits_inj'. intros n Hn. rewrite !pos_testbit by lia.
    destruct (Z.ltb_spec n 48); [|reflexivity].
    rewrite set_lazy_testbit by lia. destruct (Z.ltb_spec n 56); [reflexivity|lia].
  - rewrite lazy_field. apply Z.bits_inj'. intros n Hn. rewrite Z.bits_0.
    destruct (Z_lt_le_dec n 8).
    + rewrite Z.mod_pow2_bits_low, Z.shiftr_spec, pos_testbit by lia.
      destruct (Z.ltb_spec (n + 56) 48); [lia|reflexivity].
    + apply Z.mod_pow2_bits_high. lia.
  - rewrite !loc_field. apply field_eq; [lia|lia|]. intros n Hn.
    rewrite pos_testbit by lia. destruct (Z.ltb_spec n 48); [reflexivity|lia].
  - rewrite !iter_field. apply field_eq; [lia|lia|]. intros n Hn.
    rewrite pos_testbit by lia. destruct (Z.ltb_spec n 48); [reflexivity|lia].
  - rewrite get_flag_testbit, pos_testbit by lia.
    destruct (Z.ltb_spec p 48); [lia|reflexivity].
Qed.

Lemma position_lazy_pos_witness :
  Position.lazy (Position.set_lazy Position.NPOS 3) = 3
  /\ Position.accept (Position.pos Position.NPOS) = false.
Proof.
  destruct (position_lazy_pos Position.ACCEPT Position.NPOS 3)
    as [(H1 & _) (_ & _ & _ & H2)]; [simpl; tauto | lia |].
  split; [exact H1|exact H2].
Defined.
Lemma set_iter_arith (k i : Z) :
  0 <= k < 2 ^ 64 -> 0 <= i < 2 ^ 16 ->
  Position.loc (Position.set_iter k i) = Position.loc k
  /\ (Position.iter k + i < 2 ^ 16 ->
      Position.iter (Position.set_iter k i) = Position.iter k + i
      /\ Z.shiftr (Position.set_iter k i) 48 = Z.shiftr k 48)
  /\ (2 ^ 16 <= Position.iter k + i ->
      Position.iter (Position.set_iter k i) = Position.iter k + i - 2 ^ 16
      /\ Z.shiftr (Position.set_iter k i) 48 = (Z.shiftr k 48 + 1) mod 2 ^ 16).
Proof.
  intros Hk Hi. rewrite !iter_field. unfold Position.loc, Position.set_iter, u32, u64.
  rewrite !Z.shiftr_div_pow2, Z.shiftl_mul_pow2 by lia.
  change (2 ^ 64) with 18446744073709551616 in *.
  change (2 ^ 48) with 281474976710656.
  change (2 ^ 32) with 4294967296.
  change (2 ^ 16) with 65536 in *.
  repeat split; intros; Z.div_mod_to_equations; lia.
Qed.

Lemma flag_of_top (x p : Z) :
  48 <= p -> Position.get_flag (Z.shiftl 1 p) x = Z.testbit (Z.shiftr x 48) (p - 48).
Proof.
  intros Hp. rewrite get_flag_testbit, Z.shiftr_spec by lia. f_equal. lia.
Qed.

Lemma lazy_of_top (x : Z) : Position.lazy x = Z.shiftr (Z.shiftr x 48) 8 mod 2 ^ 8.
Proof. rewrite lazy_field, Z.shiftr_shiftr by lia. reflexivity. Qed.

(** X23.  [iter(i)] adds [i] to the iteration count of a position and keeps
    the location; while the count stays within 16 bits the flags and the
    lazy byte are kept too, but a count that overflows wraps around and
    carries into the reserved bit above it. *)
Theorem position_iter_adds (F k i : Z) :
  In F Position.flags -> 0 <= k < 2 ^ 64 -> 0 <= i <= Position.MAXITER ->
  Position.loc (Position.set_iter k i) = Position.loc k
  /\ if Position.iter k + i <=? Position.MAXITER
     then Position.iter (Position.set_iter k i) = Position.iter k + i
          /\ Position.get_flag F (Position.set_iter k i) = Position.get_flag F k
          /\ Position.lazy (Position.set_iter k i) = Position.lazy k
     else Position.iter (Position.set_iter k i)
          = Position.iter k + i - (Position.MAXITER + 1)
          /\ Position.get_flag Position.RES1 (Position.set_iter k i)
             = negb (Position.get_flag Position.RES1 k).
Proof.
  intros HF Hk Hi. unfold Position.MAXITER in *.
  destruct (flag_position F HF) as (p & Hp & ->).
  destruct (set_iter_arith k i Hk) as (Hloc & Hin & Hout); [lia|].
  split; [exact Hloc|].
  destruct (Z.leb_spec (Position.iter k + i) 0xFFFF) as [Hle|Hgt].
  - destruct Hin as [Hit Htop]; [lia|].
    split; [exact Hit|]. split.
    + rewrite !flag_of_top, Htop by lia. reflexivity.
    + rewrite !lazy_of_top, Htop. reflexivity.
  - destruct Hout as [Hit Htop]; [lia|].
    split; [rewrite Hit; reflexivity|].
    unfold Position.RES1. rewrite !flag_of_top, Htop by lia.
    change (48 - 48) with 0.
    rewrite Z.mod_pow2_bits_low, !Z.bit0_odd, Z.odd_add by lia.
    apply xorb_true_r.
Qed.

Lemma position_iter_adds_witness :
  Position.iter (Position.set_iter 0x0000000200000007 3) = 5
  /\ Position.get_flag Position.RES1 (Position.set_iter 0x0000FFFF00000000 1) = true.
Proof.
  split.
  - destruct (position_iter_adds Position.NEGATE 0x0000000200000007 3)
      as [_ H]; [simpl; tauto | lia | unfold Position.MAXITER; lia |].
    change (Position.iter 0x0000000200000007 + 3 <=? Position.MAXITER) with true in H.
    destruct H as [H _]. exact H.
  - reflexivity.
Defined.
(** ** Opcode words: what the builders encode, the readers decode *)

Lemma land_top_mask (w k m : Z) :
  0 <= k <= 32 -> m = Z.shiftl (Z.ones (32 - k)) k -> 0 <= w < 2 ^ 32 ->
  Z.land w m = w / 2 ^ k * 2 ^ k.
Proof.
  intros Hk -> Hw. apply Z.bits_inj'. intros n Hn.
  rewrite Z.land_spec, <- Z.shiftr_div_pow2, <- Z.shiftl_mul_pow2 by lia.
  rewrite !Z.shiftl_spec by lia.
  destruct (Z_lt_le_dec n k).
  - rewrite (Z.testbit_neg_r (Z.ones (32 - k))), (Z.testbit_neg_r (Z.shiftr w k)) by lia.
    apply andb_false_r.
  - rewrite Z.shiftr_spec by lia. replace (n - k + k) with n by lia.
    destruct (Z_lt_le_dec n 32).
    + rewrite Z.ones_spec_low by lia. apply andb_true_r.
    + rewrite Z.ones_spec_high by lia. rewrite andb_false_r. symmetry.
      apply (testbit_above w 32); lia.
Qed.

Lemma land_byte2 (w : Z) :
  Z.land w 0x00FF0000 = (w / 2 ^ 16) mod 2 ^ 8 * 2 ^ 16.
Proof.
  apply Z.bits_inj'. intros n Hn.
  change 0x00FF0000 with (Z.shiftl (Z.ones 8) 16).
  rewrite <- Z.shiftr_div_pow2, <- Z.land_ones, <- Z.shiftl_mul_pow2 by lia.
  rewrite Z.land_spec, !Z.shiftl_spec, Z.land_spec by lia.
  destruct (Z_lt_le_dec n 16).
  - rewrite (Z.testbit_neg_r (Z.ones 8)) by lia. rewrite !andb_false_r. reflexivity.
  - rewrite Z.shiftr_spec by lia. replace (n - 16 + 16) with n by lia. reflexivity.
Qed.

Lemma is_opcode_meta_bytes (w : Z) :
  0 <= w ->
  Opcode.is_opcode_meta w = (Opcode.byte2 w =? 0) && (0 <? Opcode.byte3 w).
Proof.
  intros Hw. unfold Opcode.is_opcode_meta, Opcode.byte2, Opcode.byte3.
  rewrite land_byte2, Z.shiftr_div_pow2, Z.gtb_ltb by lia. f_equal.
  assert (0 <= (w / 2 ^ 16) mod 2 ^ 8 < 2 ^ 8) by (apply Z.mod_pos_bound; lia).
  destruct (Z.eqb_spec ((w / 2 ^ 16) mod 2 ^ 8 * 2 ^ 16) 0),
    (Z.eqb_spec ((w / 2 ^ 16) mod 2 ^ 8) 0); try reflexivity; lia.
Qed.

Lemma is_opcode_goto_char_bytes (w c : Z) :
  Opcode.is_opcode_goto_char w c
  = (Opcode.byte3 w <=? c) && (c <=? Opcode.byte2 w).
Proof.
  unfold Opcode.is_opcode_goto_char, Opcode.byte3, Opcode.byte2.
  rewrite !Z.shiftr_div_pow2, Z.geb_leb by lia.
  change 0xFF with (2 ^ 8 - 1). rewrite land_low_mask by lia. reflexivity.
Qed.

Lemma range_word_bytes (lo hi index : Z) :
  0 <= lo <= 0xFF -> 0 <= hi <= 0xFF -> 0 <= index <= 0xFFFF ->
  let w := lo * 2 ^ 24 + hi * 2 ^ 16 + index in
  Opcode.byte3 w = lo /\ Opcode.byte2 w = hi /\ w mod 2 ^ 16 = index /\ 0 <= w < 2 ^ 32.
Proof.
  intros Hlo Hhi Hi w. subst w. unfold Opcode.byte3, Opcode.byte2.
  change (2 ^ 8) with 256. change (2 ^ 16) with 65536.
  change (2 ^ 24) with 16777216. change (2 ^ 32) with 4294967296.
  repeat split; Z.div_mod_to_equations; lia.
Qed.

Lemma index_of_mod (w : Z) : Opcode.index_of w = w mod 2 ^ 16.
Proof.
  unfold Opcode.index_of. change 0xFFFF with (2 ^ 16 - 1).
  apply land_low_mask. lia.
Qed.

(** X24.  A GOTO word built by [opcode_goto] from a byte range
    [lo <= hi] and a 16-bit index is not a meta word and decodes to the
    same range and index with [lo_of], [hi_of] and [index_of]; with a
    character, [is_opcode_goto] tells whether the character is in the
    range. *)
Theorem opcode_goto_decodes (lo hi index : Z) :
  0 <= lo <= hi -> hi <= 0xFF -> 0 <= index <= 0xFFFF ->
  Opcode.is_opcode_meta (Opcode.opcode_goto lo hi index) = false
  /\ Opcode.lo_of (Opcode.opcode_goto lo hi index) = lo
  /\ Opcode.hi_of (Opcode.opcode_goto lo hi index) = hi
  /\ Opcode.index_of (Opcode.opcode_goto lo hi index) = index
  /\ forall c, Opcode.is_opcode_goto_char (Opcode.opcode_goto lo hi index) c
               = (lo <=? c) && (c <=? hi).
Proof.
  intros Hlo Hhi Hi. rewrite goto_range_word by lia.
  destruct (range_word_bytes lo hi index) as (H3 & H2 & Hx & Hw); [lia|lia|lia|].
  cbv zeta in *.
  assert (Opcode.is_opcode_meta (lo * 2 ^ 24 + hi * 2 ^ 16 + index) = false) as Hm.
  { rewrite is_opcode_meta_bytes, H3, H2 by lia.
    destruct (Z.eqb_spec hi 0), (Z.ltb_spec 0 lo); try reflexivity. lia. }
  split; [exact Hm|]. unfold Opcode.lo_of, Opcode.hi_of. rewrite Hm.
  split; [|split; [|split]].
  - rewrite Z.shiftr_div_pow2 by lia. fold (Opcode.byte3 (lo * 2 ^ 24 + hi * 2 ^ 16 + index)).
    rewrite H3. unfold u16. apply Z.mod_small. lia.
  - rewrite Z.shiftr_div_pow2 by lia. change 0xFF with (2 ^ 8 - 1).
    rewrite land_low_mask by lia.
    fold (Opcode.byte2 (lo * 2 ^ 24 + hi * 2 ^ 16 + index)).
    rewrite H2. unfold u16. apply Z.mod_small. lia.
  - rewrite index_of_mod. exact Hx.
  - intros c. rewrite is_opcode_goto_char_bytes, H3, H2. reflexivity.
Qed.

Lemma opcode_goto_decodes_witness :
  Opcode.lo_of (Opcode.opcode_goto 97 122 7) = 97
  /\ Opcode.is_opcode_goto_char (Opcode.opcode_goto 97 122 7) 100 = true.
Proof.
  destruct (opcode_goto_decodes 97 122 7) as (_ & H1 & _ & _ & H2); [lia|lia|lia|].
  split; [exact H1|]. rewrite H2. reflexivity.
Defined.

(** X25.  A GOTO word built by [opcode_goto] from a meta character and a
    16-bit index is a meta word; [lo_of] and [hi_of] both return the meta
    character, whatever [hi] was given, [index_of] returns the index, and
    the word covers no input character. *)
Theorem opcode_goto_meta_decodes (m hi index : Z) :
  0x101 <= m <= 0x10D -> 0 <= index <= 0xFFFF ->
  Opcode.is_meta m = true
  /\ Opcode.is_opcode_meta (Opcode.opcode_goto m hi index) = true
  /\ Opcode.lo_of (Opcode.opcode_goto m hi index) = m
  /\ Opcode.hi_of (Opcode.opcode_goto m hi index) = m
  /\ Opcode.index_of (Opcode.opcode_goto m hi index) = index
  /\ forall c, Opcode.is_opcode_goto_char (Opcode.opcode_goto m hi index) c = false.
Proof.
  intros Hm Hi. rewrite goto_meta_word by lia.
  destruct (range_word_bytes (m - 0x100) 0 index) as (H3 & H2 & Hx & Hw);
    [lia|lia|lia|].
  cbv zeta in *.
  replace ((m - 0x100) * 2 ^ 24 + 0 * 2 ^ 16 + index)
    with ((m - 0x100) * 2 ^ 24 + index) in * by lia.
  assert (Opcode.is_opcode_meta ((m - 0x100) * 2 ^ 24 + index) = true) as Hmeta.
  { rewrite is_opcode_meta_bytes, H3, H2 by lia.
    destruct (Z.ltb_spec 0 (m - 0x100)); [reflexivity|lia]. }
  split; [unfold Opcode.is_meta, Opcode.META_MIN; apply Z.gtb_gt; lia|].
  split; [exact Hmeta|]. unfold Opcode.lo_of, Opcode.hi_of. rewrite Hmeta.
  assert (Opcode.meta_of ((m - 0x100) * 2 ^ 24 + index) = m) as ->.
  { unfold Opcode.meta_of, Opcode.META_MIN. rewrite Z.shiftr_div_pow2 by lia.
    fold (Opcode.byte3 ((m - 0x100) * 2 ^ 24 + index)). rewrite H3.
    unfold u16. rewrite Z.mod_small; lia. }
  split; [reflexivity|]. split; [reflexivity|].
  split; [rewrite index_of_mod; exact Hx|].
  intros c. rewrite is_opcode_goto_char_bytes, H3, H2.
  destruct (Z.leb_spec (m - 0x100) c), (Z.leb_spec c 0); try reflexivity. lia.
Qed.

Lemma opcode_goto_meta_decodes_witness :
  Opcode.hi_of (Opcode.opcode_goto 0x105 0x41 9) = 0x105
  /\ Opcode.is_opcode_goto_char (Opcode.opcode_goto 0x105 0x41 9) 0x41 = false.
Proof.
  destruct (opcode_goto_meta_decodes 0x105 0x41 9) as (_ & _ & _ & H1 & _ & H2);
    [lia|lia|].
  split; [exact H1|apply H2].
Defined.

Lemma marker_bytes (tag index : Z) :
  0 <= tag < 2 ^ 8 ->
  let w := Z.lor (tag * 2 ^ 24) (Z.land index 0xFFFFFF) in
  0 <= w < 2 ^ 32 /\ w / 2 ^ 24 = tag /\ w / 2 ^ 25 = tag / 2
  /\ w mod 2 ^ 24 = index mod 2 ^ 24.
Proof.
  intros Ht w. subst w. rewrite marker_word by exact Ht.
  assert (0 <= index mod 2 ^ 24 < 2 ^ 24) as Hm by (apply Z.mod_pos_bound; lia).
  revert Hm. generalize (index mod 2 ^ 24). intros r Hr.
  change (2 ^ 8) with 256 in *. change (2 ^ 24) with 16777216 in *.
  change (2 ^ 25) with 33554432. change (2 ^ 32) with 4294967296.
  repeat split; Z.div_mod_to_equations; lia.
Qed.

Lemma marker_tests (tag index : Z) :
  0 <= tag < 2 ^ 8 ->
  let w := Z.lor (tag * 2 ^ 24) (Z.land index 0xFFFFFF) in
  Opcode.is_opcode_head w = (tag =? 0xFB)
  /\ Opcode.is_opcode_tail w = (tag =? 0xFC)
  /\ Opcode.is_opcode_take w = (tag / 2 =? 0x7F)
  /\ Opcode.is_opcode_long w = (tag =? 0xFF)
  /\ Opcode.long_index_of w = index mod 2 ^ 24.
Proof.
  intros Ht w. destruct (marker_bytes tag index Ht) as (Hw & H24 & H25 & Hlow).
  fold w in Hw, H24, H25, Hlow.
  unfold Opcode.is_opcode_head, Opcode.is_opcode_tail, Opcode.is_opcode_take,
    Opcode.is_opcode_long, Opcode.long_index_of.
  rewrite (land_top_mask w 24 0xFF000000), (land_top_mask w 25 0xFE000000), H24, H25
    by (try reflexivity; lia).
  change 0xFFFFFF with (2 ^ 24 - 1). rewrite land_low_mask, Hlow by lia.
  repeat split; apply eq_true_iff_eq; rewrite !Z.eqb_eq; lia.
Qed.

(** What the tests for GOTO words say of a marker word with top byte
    [tag]. *)
Lemma marker_goto_tests (tag index : Z) :
  0 < tag < 2 ^ 8 ->
  let w := Z.lor (tag * 2 ^ 24) (Z.land index 0xFFFFFF) in
  Opcode.is_opcode_meta w = (index mod 2 ^ 24 <? 2 ^ 16)
  /\ Opcode.is_opcode_goto w = (tag * 2 ^ 16 <=? index mod 2 ^ 24)
  /\ Opcode.is_opcode_halt w = false.
Proof.
  intros Ht w. subst w. rewrite marker_word by lia.
  assert (0 <= index mod 2 ^ 24 < 2 ^ 24) as Hm by (apply Z.mod_pos_bound; lia).
  revert Hm. generalize (index mod 2 ^ 24). intros r Hr.
  assert (0 <= tag * 2 ^ 24 + r < 2 ^ 32) as Hw by lia.
  assert (Opcode.byte3 (tag * 2 ^ 24 + r) = tag) as H3.
  { unfold Opcode.byte3. change (2 ^ 24) with 16777216 in *.
    Z.div_mod_to_equations. lia. }
  assert (Opcode.byte2 (tag * 2 ^ 24 + r) = r / 2 ^ 16) as H2.
  { unfold Opcode.byte2. change (2 ^ 24) with 16777216 in *.
    change (2 ^ 16) with 65536. change (2 ^ 8) with 256 in *.
    Z.div_mod_to_equations. lia. }
  split; [|split].
  - rewrite is_opcode_meta_bytes, H3, H2 by lia.
    change (2 ^ 16) with 65536.
    destruct (Z.eqb_spec (r / 65536) 0), (Z.ltb_spec 0 tag), (Z.ltb_spec r 65536);
      try reflexivity; try lia; exfalso; Z.div_mod_to_equations; lia.
  - rewrite is_opcode_goto_bytes, H3, H2 by exact Hw.
    change (2 ^ 16) with 65536.
    destruct (Z.leb_spec tag (r / 65536)), (Z.leb_spec (tag * 65536) r);
      try reflexivity; exfalso; Z.div_mod_to_equations; lia.
  - unfold Opcode.is_opcode_halt. apply Z.eqb_neq.
    change (2 ^ 24) with 16777216 in *. lia.
Qed.

(** X26.  Among the five marker tests a HEAD, TAIL or TAKE word satisfies
    its own test only and a LONG word satisfies [is_opcode_long], but
    [is_opcode_take] accepts every LONG word as well; REDO satisfies
    [is_opcode_redo] only.  The tests for GOTO words are not exclusive with
    these: [is_opcode_meta] holds of REDO and of every marker word whose
    index, reduced to 24 bits, is below 0x10000, and [is_opcode_goto] holds of
    a marker word exactly when that index is above 0xFAFFFF for HEAD,
    0xFBFFFF for TAIL, 0xFDFFFF for TAKE and 0xFEFFFF for LONG;
    [is_opcode_halt] holds of none.  [long_index_of] returns the index a
    marker word was built from, reduced to 24 bits. *)
Theorem opcode_markers (index : Z) :
  (Opcode.is_opcode_head (Opcode.opcode_head index) = true
   /\ Opcode.is_opcode_tail (Opcode.opcode_head index) = false
   /\ Opcode.is_opcode_take (Opcode.opcode_head index) = false
   /\ Opcode.is_opcode_long (Opcode.opcode_head index) = false
   /\ Opcode.is_opcode_redo (Opcode.opcode_head index) = false
   /\ Opcode.long_index_of (Opcode.opcode_head index) = index mod 2 ^ 24
   /\ Opcode.is_opcode_meta (Opcode.opcode_head index) = (index mod 2 ^ 24 <? 0x10000)
   /\ Opcode.is_opcode_goto (Opcode.opcode_head index)
      = (Opcode.LMAX <? index mod 2 ^ 24)
   /\ Opcode.is_opcode_halt (Opcode.opcode_head index) = false)
  /\ (Opcode.is_opcode_head (Opcode.opcode_tail index) = false
      /\ Opcode.is_opcode_tail (Opcode.opcode_tail index) = true
      /\ Opcode.is_opcode_take (Opcode.opcode_tail index) = false
      /\ Opcode.is_opcode_long (Opcode.opcode_tail index) = false
      /\ Opcode.is_opcode_redo (Opcode.opcode_tail index) = false
      /\ Opcode.long_index_of (Opcode.opcode_tail index) = index mod 2 ^ 24
      /\ Opcode.is_opcode_meta (Opcode.opcode_tail index)
         = (index mod 2 ^ 24 <? 0x10000)
      /\ Opcode.is_opcode_goto (Opcode.opcode_tail index)
         = (0xFBFFFF <? index mod 2 ^ 24)
      /\ Opcode.is_opcode_halt (Opcode.opcode_tail index) = false)
  /\ (Opcode.is_opcode_head (Opcode.opcode_take index) = false
      /\ Opcode.is_opcode_tail (Opcode.opcode_take index) = false
      /\ Opcode.is_opcode_take (Opcode.opcode_take index) = true
      /\ Opcode.is_opcode_long (Opcode.opcode_take index) = false
      /\ Opcode.is_opcode_redo (Opcode.opcode_take index) = false
      /\ Opcode.long_index_of (Opcode.opcode_take index) = index mod 2 ^ 24
      /\ Opcode.is_opcode_meta (Opcode.opcode_take index)
         = (index mod 2 ^ 24 <? 0x10000)
      /\ Opcode.is_opcode_goto (Opcode.opcode_take index)
         = (Opcode.AMAX <? index mod 2 ^ 24)
      /\ Opcode.is_opcode_halt (Opcode.opcode_take index) = false)
  /\ (Opcode.is_opcode_head (Opcode.opcode_long index) = false
      /\ Opcode.is_opcode_tail (Opcode.opcode_long index) = false
      /\ Opcode.is_opcode_take (Opcode.opcode_long index) = true
      /\ Opcode.is_opcode_long (Opcode.opcode_long index) = true
      /\ Opcode.is_opcode_redo (Opcode.opcode_long index) = false
      /\ Opcode.long_index_of (Opcode.opcode_long index) = index mod 2 ^ 24
      /\ Opcode.is_opcode_meta (Opcode.opcode_long index)
         = (index mod 2 ^ 24 <? 0x10000)
      /\ Opcode.is_opcode_goto (Opcode.opcode_long index)
         = (Opcode.GMAX <? index mod 2 ^ 24)
      /\ Opcode.is_opcode_halt (Opcode.opcode_long index) = false)
  /\ (Opcode.is_opcode_head Opcode.opcode_redo = false
      /\ Opcode.is_opcode_tail Opcode.opcode_redo = false
      /\ Opcode.is_opcode_take Opcode.opcode_redo = false
      /\ Opcode.is_opcode_long Opcode.opcode_redo = false
      /\ Opcode.is_opcode_redo Opcode.opcode_redo = true
      /\ Opcode.is_opcode_meta Opcode.opcode_redo = true
      /\ Opcode.is_opcode_goto Opcode.opcode_redo = false
      /\ Opcode.is_opcode_halt Opcode.opcode_redo = false).
Proof.
  assert (forall tag, 0xFB <= tag <= 0xFF -> tag <> 0xFD ->
            Opcode.is_opcode_redo (Z.lor (tag * 2 ^ 24) (Z.land index 0xFFFFFF))
            = false) as Hredo.
  { intros tag Ht Hne. destruct (marker_bytes tag index) as (_ & H24 & _); [lia|].
    unfold Opcode.is_opcode_redo. apply Z.eqb_neq. intros E.
    rewrite E in H24. change (0xFD000000 / 2 ^ 24) with 0xFD in H24. lia. }
  assert (forall tag lim, 0 <= index mod 2 ^ 24 -> lim + 1 = tag * 2 ^ 16 ->
            (tag * 2 ^ 16 <=? index mod 2 ^ 24) = (lim <? index mod 2 ^ 24)) as Hlim.
  { intros tag lim _ Hl. generalize (index mod 2 ^ 24). intros r.
    destruct (Z.leb_spec (tag * 2 ^ 16) r), (Z.ltb_spec lim r); try reflexivity; lia. }
  assert (0 <= index mod 2 ^ 24) as Hr by (apply Z.mod_pos_bound; lia).
  split; [|split; [|split; [|split]]].
  - destruct (marker_tests 0xFB index) as (H1 & H2 & H3 & H4 & H5); [lia|].
    destruct (marker_goto_tests 0xFB index) as (H6 & H7 & H8); [lia|].
    unfold Opcode.opcode_head. change 0xFB000000 with (0xFB * 2 ^ 24).
    rewrite H1, H2, H3, H4, H5, H6, H7, H8, (Hredo 0xFB) by lia.
    rewrite (Hlim 0xFB Opcode.LMAX Hr) by reflexivity. repeat split.
  - destruct (marker_tests 0xFC index) as (H1 & H2 & H3 & H4 & H5); [lia|].
    destruct (marker_goto_tests 0xFC index) as (H6 & H7 & H8); [lia|].
    unfold Opcode.opcode_tail. change 0xFC000000 with (0xFC * 2 ^ 24).
    rewrite H1, H2, H3, H4, H5, H6, H7, H8, (Hredo 0xFC) by lia.
    rewrite (Hlim 0xFC 0xFBFFFF Hr) by reflexivity. repeat split.
  - destruct (marker_tests 0xFE index) as (H1 & H2 & H3 & H4 & H5); [lia|].
    destruct (marker_goto_tests 0xFE index) as (H6 & H7 & H8); [lia|].
    unfold Opcode.opcode_take. change 0xFE000000 with (0xFE * 2 ^ 24).
    rewrite H1, H2, H3, H4, H5, H6, H7, H8, (Hredo 0xFE) by lia.
    rewrite (Hlim 0xFE Opcode.AMAX Hr) by reflexivity. repeat split.
  - destruct (marker_tests 0xFF index) as (H1 & H2 & H3 & H4 & H5); [lia|].
    destruct (marker_goto_tests 0xFF index) as (H6 & H7 & H8); [lia|].
    unfold Opcode.opcode_long. change 0xFF000000 with (0xFF * 2 ^ 24).
    rewrite H1, H2, H3, H4, H5, H6, H7, H8, (Hredo 0xFF) by lia.
    rewrite (Hlim 0xFF Opcode.GMAX Hr) by reflexivity. repeat split.
  - repeat split.
Qed.

(** A HEAD word with a small index passes for a meta word, and one with an
    index beyond the limit for a GOTO word. *)
Example marker_overlaps :
  Opcode.is_opcode_meta (Opcode.opcode_head 3) = true
  /\ Opcode.is_opcode_meta (Opcode.opcode_take 3) = true
  /\ Opcode.is_opcode_goto (Opcode.opcode_head 0xFB0000) = true
  /\ Opcode.is_opcode_goto (Opcode.opcode_head Opcode.LMAX) = false.
Proof. repeat split. Qed.

(** ** The rolling hash forgets old bytes *)

Lemma hash_testbit (h b n : Z) :
  Z.testbit (Pattern.hash h b) n
  = if (0 <=? n) && (n <? 12)
    then xorb (Z.testbit h (n - 3)) (Z.testbit b n) else false.
Proof.
  rewrite hash_value. change 0xFFF with (Z.ones 12).
  destruct (Z.leb_spec 0 n) as [Hn|Hn]; cbn [andb].
  - rewrite Z.land_spec, Z.lxor_spec, Z.shiftl_spec by lia.
    destruct (Z.ltb_spec n 12).
    + rewrite Z.ones_spec_low by lia. apply andb_true_r.
    + rewrite Z.ones_spec_high by lia. apply andb_false_r.
  - apply Z.testbit_neg_r. lia.
Qed.

Lemma hash_four (h h' a b c d : Z) :
  Pattern.hash (Pattern.hash (Pattern.hash (Pattern.hash h a) b) c) d
  = Pattern.hash (Pattern.hash (Pattern.hash (Pattern.hash h' a) b) c) d.
Proof.
  apply Z.bits_inj'. intros n Hn. rewrite !hash_testbit.
  destruct (Z.leb_spec 0 n), (Z.ltb_spec n 12); cbn [andb]; try reflexivity.
  destruct (Z.leb_spec 0 (n - 3)), (Z.ltb_spec (n - 3) 12); cbn [andb];
    try reflexivity; try lia.
  destruct (Z.leb_spec 0 (n - 3 - 3)), (Z.ltb_spec (n - 3 - 3) 12); cbn [andb];
    try reflexivity; try lia.
  destruct (Z.leb_spec 0 (n - 3 - 3 - 3)), (Z.ltb_spec (n - 3 - 3 - 3) 12);
    cbn [andb]; try reflexivity; try lia.
  rewrite !(Z.testbit_neg_r _ (n - 3 - 3 - 3 - 3)) by lia. reflexivity.
Qed.

(** X27.  The rolling hash keeps 12 bits and shifts by 3 per byte: the hash
    at an offset is a function of the last four bytes only, whatever came
    before, and only the low 9 bits of a hash value, which
    [FSM_Generator::hash] extracts, matter for the next one. *)
Theorem hash_window (s : list Z) (k : nat) (h c1 c2 c3 c4 : Z) :
  Predict.hash_chain s k = Some h ->
  s !! S k = Some c1 -> s !! S (S k) = Some c2 ->
  s !! S (S (S k)) = Some c3 -> s !! S (S (S (S k))) = Some c4 ->
  Predict.hash_chain s (S (S (S (S k))))
  = Some (Pattern.hash (Pattern.hash (Pattern.hash (Pattern.hash 0 (u8 c1)) (u8 c2))
                          (u8 c3)) (u8 c4))
  /\ forall g b, Pattern.hash (FSM_Generator.hash g) b = Pattern.hash g b.
Proof.
  intros Hh H1 H2 H3 H4. split.
  - cbn [Predict.hash_chain]. rewrite Hh, H1, H2, H3, H4.
    cbn [mbind option_bind]. f_equal. apply hash_four.
  - intros g b. apply Z.bits_inj'. intros n Hn. rewrite !hash_testbit.
    destruct (Z.leb_spec 0 n), (Z.ltb_spec n 12); cbn [andb]; try reflexivity.
    f_equal. unfold FSM_Generator.hash.
    change (Z.shiftr (Pattern.HASH - 1) 3) with (Z.ones 9).
    destruct (Z_lt_le_dec (n - 3) 0).
    + rewrite !Z.testbit_neg_r by lia. reflexivity.
    + rewrite Z.land_spec, Z.ones_spec_low by lia. apply andb_true_r.
Qed.

Lemma hash_window_witness :
  Predict.hash_chain [200; 97; 98; 99; 100] 4
  = Some (Pattern.hash (Pattern.hash (Pattern.hash (Pattern.hash 0 (u8 97)) (u8 98))
                          (u8 99)) (u8 100)).
Proof.
  destruct (hash_window [200; 97; 98; 99; 100] 0 200 97 98 99 100) as [H _];
    [reflexivity | reflexivity | reflexivity | reflexivity | reflexivity |].
  exact H.
Defined.

(** ** The hash filter looks at eight bytes at most *)

Lemma pmh_loop_zero_mask (pmh s : list Z) :
  length pmh = 4096%nat ->
  forall (cnt k : nat) (h : Z),
    (k + cnt <= length s)%nat -> Pattern.pmh_loop pmh s cnt k h 0 = Some true.
Proof.
  intros Hlen cnt. induction cnt as [|cnt IH]; intros k h Hs; [reflexivity|].
  destruct (lookup_lt_is_Some_2 s k) as [c Hc]; [lia|].
  destruct (table_lookup pmh (Pattern.hash h (u8 c)) Hlen (hash_range _ _)) as [p Hp].
  cbn [Pattern.pmh_loop]. rewrite Hc. cbn [mbind option_bind]. rewrite Hp.
  cbn [mbind option_bind]. rewrite Z.land_0_r. cbn [Z.eqb negb].
  change (u8 (Z.shiftl 0 1)) with 0. apply IH. lia.
Qed.

Lemma pmh_loop_extend (pmh s : list Z) (extra : nat) :
  length pmh = 4096%nat ->
  forall (cnt k : nat) (h m : Z),
    (k + cnt + extra <= length s)%nat -> 0 <= m < 256 ->
    u8 (m * 2 ^ Z.of_nat cnt) = 0 ->
    Pattern.pmh_loop pmh s (cnt + extra) k h m = Pattern.pmh_loop pmh s cnt k h m.
Proof.
  intros Hlen cnt. induction cnt as [|cnt IH]; intros k h m Hs Hm Hz.
  - assert (m = 0) as ->.
    { unfold u8 in Hz. change (2 ^ Z.of_nat 0) with 1 in Hz.
      rewrite Z.mul_1_r, Z.mod_small in Hz; lia. }
    cbn [Nat.add Pattern.pmh_loop]. apply pmh_loop_zero_mask; [exact Hlen|lia].
  - cbn [Nat.add Pattern.pmh_loop].
    destruct (s !! k) as [c|]; cbn [mbind option_bind]; [|reflexivity].
    destruct (pmh !! Z.to_nat (Pattern.hash h (u8 c))) as [p|];
      cbn [mbind option_bind]; [|reflexivity].
    destruct (negb (Z.land p m =? 0)); [reflexivity|].
    apply IH; [lia|apply u8_range|].
    unfold u8 in *. rewrite Z.shiftl_mul_pow2 by lia.
    rewrite Z.mul_mod_idemp_l by lia.
    rewrite <- Hz. f_equal. rewrite Nat2Z.inj_succ, Z.pow_succ_r by lia. lia.
Qed.

(** X28.  [predict_match(pmh, s, n)] never rejects on a byte beyond the
    eighth: its mask byte has run empty by then, so for a window of 8 bytes
    or more the answer is the one for the first 8 bytes. *)
Theorem predict_match_pmh_eight (pmh s : list Z) (n : Z) :
  length pmh = 4096%nat -> 8 <= n -> (Z.to_nat n <= length s)%nat ->
  Pattern.predict_match_pmh pmh s n = Pattern.predict_match_pmh pmh s 8.
Proof.
  intros Hlen Hn Hs. rewrite !predict_match_pmh_unroll.
  destruct (s !! 0%nat) as [c0|]; cbn [mbind option_bind]; [|reflexivity].
  destruct (pmh !! Z.to_nat (u8 c0)) as [p0|]; cbn [mbind option_bind];
    [|reflexivity].
  destruct (negb (Z.land p0 1 =? 0)); [reflexivity|].
  replace (3 + Z.to_nat (n - 4))%nat with (7 + Z.to_nat (n - 8))%nat by lia.
  change (3 + Z.to_nat (8 - 4))%nat with 7%nat.
  apply pmh_loop_extend; [exact Hlen|lia|lia|reflexivity].
Qed.

Lemma predict_match_pmh_eight_witness :
  Pattern.predict_match_pmh (replicate 4096 0)
    [97; 98; 99; 100; 101; 102; 103; 104; 105; 106] 10
  = Pattern.predict_match_pmh (replicate 4096 0)
      [97; 98; 99; 100; 101; 102; 103; 104; 105; 106] 8.
Proof.
  apply predict_match_pmh_eight.
  - vm_compute. reflexivity.
  - lia.
  - simpl. lia.
Defined.

(** ** Mode modifiers stay apart *)

Lemma reversecase_involutive (c : Z) :
  0 <= c < 256 -> FSM_Generator.reversecase (FSM_Generator.reversecase c) = c.
Proof.
  intros Hc.
  apply Z.eqb_eq.
  apply (byte_cases
           (fun c => FSM_Generator.reversecase (FSM_Generator.reversecase c) =? c));
    [vm_compute; reflexivity|exact Hc].
Qed.

Lemma is_modified_other {L : Type} `{FSM_Generator.ORanges L}
    (mode md : Z) (modifiers : gmap Z L) (from to loc : Z) :
  md <> mode ->
  FSM_Generator.is_modified md (FSM_Generator.update_modified mode modifiers from to) loc
  = FSM_Generator.is_modified md modifiers loc.
Proof.
  intros Hne. unfold FSM_Generator.is_modified.
  rewrite update_modified_other by exact Hne. reflexivity.
Qed.

(** X29.  [update_modified] keeps a mode and its opposite case apart: if no
    location is modified both by a mode character and by its reverse case
    before the call, none is after it. *)
Theorem update_modified_keeps_apart {L : Type} `{FSM_Generator.ORanges L}
    (mode : Z) (modifiers : gmap Z L) (from to : Z) :
  (forall md loc, 0 <= md < 256 ->
     FSM_Generator.is_modified md modifiers loc
     && FSM_Generator.is_modified (FSM_Generator.reversecase md) modifiers loc
     = false) ->
  forall md loc, 0 <= md < 256 ->
    FSM_Generator.is_modified md
      (FSM_Generator.update_modified mode modifiers from to) loc
    && FSM_Generator.is_modified (FSM_Generator.reversecase md)
         (FSM_Generator.update_modified mode modifiers from to) loc
    = false.
Proof.
  intros Hinv md loc Hmd. specialize (Hinv md loc Hmd).
  destruct (Z.eq_dec md mode) as [-> | Hne].
  - rewrite update_modified_entry.
    rewrite (is_modified_other mode (FSM_Generator.reversecase mode))
      by apply reversecase_neq.
    destruct (FSM_Generator.is_modified mode modifiers loc),
      (FSM_Generator.is_modified (FSM_Generator.reversecase mode) modifiers loc),
      (FSM_Generator.oranges_find (FSM_Generator.oranges_range from to) loc);
      try reflexivity; discriminate.
  - rewrite (is_modified_other mode md) by exact Hne.
    destruct (Z.eq_dec (FSM_Generator.reversecase md) mode) as [E | Hne'].
    + rewrite E, update_modified_entry. rewrite E in Hinv.
      rewrite <- E at 2. rewrite reversecase_involutive by exact Hmd.
      destruct (FSM_Generator.is_modified md modifiers loc),
        (FSM_Generator.is_modified mode modifiers loc),
        (FSM_Generator.oranges_find (FSM_Generator.oranges_range from to) loc);
        try reflexivity; discriminate.
    + rewrite (is_modified_other mode (FSM_Generator.reversecase md)) by exact Hne'.
      exact Hinv.
Qed.

Lemma update_modified_keeps_apart_witness :
  @FSM_Generator.is_modified _ FSM_Generator.oranges_fun 105
    (@FSM_Generator.update_modified _ FSM_Generator.oranges_fun 105
       {[ 73 := fun v => (2 <=? v) && (v <=? 4) ]} 0 5) 3
  && @FSM_Generator.is_modified _ FSM_Generator.oranges_fun 73
       (@FSM_Generator.update_modified _ FSM_Generator.oranges_fun 105
          {[ 73 := fun v => (2 <=? v) && (v <=? 4) ]} 0 5) 3
  = false.
Proof.
  apply (@update_modified_keeps_apart _ FSM_Generator.oranges_fun 105
           {[ 73 := fun v => (2 <=? v) && (v <=? 4) ]} 0 5 ).
  - intros md loc Hmd. unfold FSM_Generator.is_modified.
    destruct (Z.eq_dec md 73) as [-> | Hne].
    + apply andb_false_r.
    + rewrite lookup_singleton_ne by congruence. reflexivity.
  - lia.
Defined.

(** ** Indent, dedent, nodent *)

Lemma update_col_idempotent (T : Z -> Z) (lx : Lexer.Lexer) :
  Lexer.update_col T (Lexer.update_col T lx) = Lexer.update_col T lx.
Proof.
  unfold Lexer.update_col.
  cbn [Lexer.cap_ Lexer.str_ Lexer.in_ Lexer.got_ Lexer.peek_ Lexer.mrk_
       Lexer.ind_ Lexer.ded_ Lexer.col_ Lexer.tab_ Lexer.pattern_current].
  set (len := Z.of_nat (length (Lexer.str_ lx))).
  set (ind := if Lexer.ind_ lx <? len then len else Lexer.ind_ lx).
  assert (len <= ind) as Hind by (subst ind; destruct (Z.ltb_spec (Lexer.ind_ lx) len); lia).
  rewrite (drop_ge (Lexer.str_ lx) (Z.to_nat ind)) by (subst len; lia).
  destruct (Z.ltb_spec ind len); [lia|]. reflexivity.
Qed.

(** X30.  Of [indent()], [dedent()] and [nodent()] exactly one answers true
    on a lexer state, all three leave the same state behind, and asking
    again in that state changes nothing: the column count is only advanced
    over characters not counted before. *)
Theorem dent_trichotomy (T : Z -> Z) (lx : Lexer.Lexer) :
  (Lexer.indent T lx).1 && (Lexer.dedent T lx).1 = false
  /\ (Lexer.nodent T lx).1
     = negb (Lexer.indent T lx).1 && negb (Lexer.dedent T lx).1
  /\ (Lexer.indent T lx).2 = (Lexer.dedent T lx).2
  /\ (Lexer.indent T lx).2 = (Lexer.nodent T lx).2
  /\ Lexer.indent T (Lexer.indent T lx).2 = Lexer.indent T lx
  /\ Lexer.dedent T (Lexer.indent T lx).2 = Lexer.dedent T lx
  /\ Lexer.nodent T (Lexer.indent T lx).2 = Lexer.nodent T lx.
Proof.
  unfold Lexer.indent, Lexer.dedent, Lexer.nodent. cbn [fst snd].
  rewrite update_col_idempotent.
  split; [|split; [|repeat split]];
    destruct (Lexer.back (Lexer.tab_ (Lexer.update_col T lx))) as [t|]; lia.
Qed.
